(** * Range resolution and mutation-request engine of google-docs-mcp

    A shallow embedding of the helpers of [src/googleDocsApiHelpers.ts]
    (with [hexToRgbColor] of [src/types.ts] and the [getTableCell] tool of
    [src/tools/TableTools.ts]) together with the properties that the
    specification states about them.

    Conventions of the embedding:
    - a JavaScript [number] holding an index or a count is a [Z]; a number
      that is only carried around (font size, image size, colour channel)
      is a [Q];
    - a JavaScript string is a [string]; a character stands for one code
      unit, and [length] is the [.length] of the source;
    - an optional field is an [option]; [x !== undefined] is a match on
      [Some], and the truthiness tests of the source are written out;
    - a function that talks to the remote service runs in the monad [M],
      which threads the log of network calls and of console lines and
      carries the thrown exception, if any. *)

From Stdlib Require Import ZArith List Bool Lia QArith.
From Stdlib Require Import Ascii String DecimalString.
From Stdlib Require Import Permutation Sorted.
Import ListNotations.

Open Scope string_scope.
Open Scope list_scope.
Open Scope Z_scope.

Set Implicit Arguments.

(** ** JavaScript primitives used by the helpers *)

Module JS.

(** [s.length] as a number. *)
Definition len (s : string) : Z := Z.of_nat (String.length s).

(** [s.slice(n)] for a natural [n]. *)
Fixpoint skip (n : nat) (s : string) : string :=
  match n, s with
  | O, _ => s
  | S _, EmptyString => EmptyString
  | S n', String _ s' => skip n' s'
  end.

(** [s.startsWith(pat)]. *)
Fixpoint startsWith (s pat : string) : bool :=
  match pat, s with
  | EmptyString, _ => true
  | String _ _, EmptyString => false
  | String a pat', String b s' => Ascii.eqb a b && startsWith s' pat'
  end.

(** The scan of [indexOf]: the first position, counted from [k] at the
    head of [s], at which [pat] starts; [-1] when there is none. *)
Fixpoint scanFrom (s pat : string) (k : Z) : Z :=
  if startsWith s pat then k
  else match s with
       | EmptyString => -1
       | String _ s' => scanFrom s' pat (k + 1)
       end.

(** [s.indexOf(pat, position)]: the position is clamped to
    [0 .. s.length] before the scan. *)
Definition indexOf (s pat : string) (position : Z) : Z :=
  let start := Z.min (Z.max position 0) (len s) in
  scanFrom (skip (Z.to_nat start) s) pat start.

(** [s.includes(pat)]. *)
Definition includes (s pat : string) : bool :=
  negb (indexOf s pat 0 =? -1).

(** White space of [trim] and of [parseInt] among the code units below
    256: TAB, LF, VT, FF, CR, SPACE and NBSP. *)
Definition isWhiteSpace (c : ascii) : bool :=
  let n := nat_of_ascii c in
  ((9 <=? n) && (n <=? 13))%nat || (n =? 32)%nat || (n =? 160)%nat.

Fixpoint trimStart (s : string) : string :=
  match s with
  | EmptyString => EmptyString
  | String c s' => if isWhiteSpace c then trimStart s' else s
  end.

Fixpoint trimEnd (s : string) : string :=
  match s with
  | EmptyString => EmptyString
  | String c s' =>
      match trimEnd s' with
      | EmptyString => if isWhiteSpace c then EmptyString else String c EmptyString
      | t => String c t
      end
  end.

(** [s.trim()]. *)
Definition trim (s : string) : string := trimEnd (trimStart s).

(** [a[i]] on an array: [undefined] outside [0 .. a.length - 1]. *)
Definition arrayGet {A : Type} (a : list A) (i : Z) : option A :=
  if i <? 0 then None else nth_error a (Z.to_nat i).

(** [a.length] as a number. *)
Definition alen {A : Type} (a : list A) : Z := Z.of_nat (List.length a).

(** [x || []] on an optional array. *)
Definition orEmpty {A : Type} (a : option (list A)) : list A :=
  match a with Some l => l | None => [] end.

(** [x || 0] on an optional number. *)
Definition orZero (x : option Z) : Z :=
  match x with Some v => v | None => 0 end.

(** Truthiness of a string: the empty string is falsy. *)
Definition truthyString (s : string) : bool :=
  negb (String.eqb s EmptyString).

(** Truthiness of a (non-NaN) number: zero is falsy. *)
Definition truthyNumber (q : Q) : bool := negb (Qeq_bool q 0).

(** The digit value of a character in radix 16. *)
Definition hexDigit (c : ascii) : option Z :=
  let n := Z.of_nat (nat_of_ascii c) in
  if (48 <=? n) && (n <=? 57) then Some (n - 48)
  else if (97 <=? n) && (n <=? 102) then Some (n - 87)
  else if (65 <=? n) && (n <=? 70) then Some (n - 55)
  else None.

(** The longest prefix of hexadecimal digits of [s], read most
    significant digit first on top of [acc]; the flag tells whether a
    digit was read. *)
Fixpoint hexPrefix (s : string) (acc : Z) (seen : bool) : Z * bool :=
  match s with
  | EmptyString => (acc, seen)
  | String c s' =>
      match hexDigit c with
      | Some d => hexPrefix s' (16 * acc + d) true
      | None => (acc, seen)
      end
  end.

(** [parseInt(s, 16)]: leading white space is skipped, one sign and one
    [0x] or [0X] prefix are accepted, the longest run of digits is read;
    [None] is [NaN]. *)
Definition parseInt16 (s : string) : option Z :=
  let s1 := trimStart s in
  let '(sign, s2) :=
    match s1 with
    | String "-" r => (-1, r)
    | String "+" r => (1, r)
    | _ => (1, s1)
    end in
  let s3 :=
    match s2 with
    | String "0" (String "x" r) => r
    | String "0" (String "X" r) => r
    | _ => s2
    end in
  match hexPrefix s3 0 false with
  | (v, true) => Some (sign * v)
  | (_, false) => None
  end.

End JS.

(** ** The document tree returned by [docs.documents.get] *)

Record TextRun := { content : option string }.

Record ParagraphElement := {
  pe_startIndex : option Z;
  pe_endIndex : option Z;
  textRun : option TextRun
}.

Record Paragraph := { elements : option (list ParagraphElement) }.

Inductive StructuralElement := {
  startIndex : option Z;
  endIndex : option Z;
  paragraph : option Paragraph;
  table : option Table
}
with Table := { tableRows : option (list TableRow) }
with TableRow := { tableCells : option (list TableCell) }
with TableCell := {
  cell_startIndex : option Z;
  cell_endIndex : option Z;
  cell_content : option (list StructuralElement)
}.

(** [res.data.body?.content]: [None] when the body or its content is
    missing. *)
Definition Body := option (list StructuralElement).

(** A resolved range [{ startIndex, endIndex }]. *)
Record Range := { range_start : Z; range_end : Z }.

(** ** Text reconstruction and the segment index ([findTextRange], part 1) *)

(** One entry of the [segments] array: [{ text, start, end }]. *)
Record Segment := { text : string; start : Z; end_ : Z }.

(** The two variables that [collectTextFromContent] updates. *)
Record TextIndex := { fullText : string; segments : list Segment }.

Definition emptyIndex : TextIndex := {| fullText := ""; segments := [] |}.

(** [a.forEach(f)] on a state-passing body. *)
Definition forEach {A S : Type} (f : A -> S -> S) (a : list A) (st : S) : S :=
  fold_left (fun st x => f x st) a st.

(** [fullText += content; segments.push({ text, start, end })]. *)
Definition pushSegment (seg : Segment) (st : TextIndex) : TextIndex :=
  {| fullText := (fullText st ++ text seg)%string;
     segments := segments st ++ [seg] |}.

(** The body of [element.paragraph.elements.forEach]. *)
Definition collectParagraphElement (pe : ParagraphElement) (st : TextIndex)
  : TextIndex :=
  match textRun pe with
  | Some tr =>
      match content tr, pe_startIndex pe, pe_endIndex pe with
      | Some c, Some s, Some e =>
          if JS.truthyString c
          then pushSegment {| text := c; start := s; end_ := e |} st
          else st
      | _, _, _ => st
      end
  | None => st
  end.

(** The body of [content.forEach] in [collectTextFromContent]: the runs of
    a paragraph first, then the cells of a table, row by row. *)
Fixpoint collectElement (element : StructuralElement) (st : TextIndex)
  {struct element} : TextIndex :=
  let st :=
    match paragraph element with
    | Some p =>
        match elements p with
        | Some pes => forEach collectParagraphElement pes st
        | None => st
        end
    | None => st
    end in
  match table element with
  | Some t =>
      match tableRows t with
      | Some rows =>
          forEach (fun row st =>
            match tableCells row with
            | Some cells =>
                forEach (fun cell st =>
                  match cell_content cell with
                  | Some c => forEach collectElement c st
                  | None => st
                  end) cells st
            | None => st
            end) rows st
      | None => st
      end
  | None => st
  end.

Definition collectTextFromContent (c : list StructuralElement)
  (st : TextIndex) : TextIndex :=
  forEach collectElement c st.

(** [segments.sort((a, b) => a.start - b.start)].  The sort of an array is
    stable, and a stable sort has one result only, so a stable insertion
    sort stands for it. *)
Definition compareStart (a b : Segment) : Z := start a - start b.

Fixpoint insertSegment (x : Segment) (l : list Segment) : list Segment :=
  match l with
  | [] => [x]
  | y :: ys =>
      if compareStart x y <=? 0 then x :: y :: ys
      else y :: insertSegment x ys
  end.

Fixpoint sortSegments (l : list Segment) : list Segment :=
  match l with
  | [] => []
  | x :: xs => insertSegment x (sortSegments xs)
  end.

(** ** Mapping a hit back to document indices ([findTextRange], part 2) *)

(** The [for (const seg of segments)] loop.  [startIndex] and [endIndex]
    are the variables of the enclosing function, [-1] while unset; the
    loop ends at the segment that holds the end of the target. *)
Fixpoint mapSegments (segs : list Segment)
  (targetStartInFullText targetEndInFullText currentPosInFullText : Z)
  (startIndex endIndex : Z) : Z * Z :=
  match segs with
  | [] => (startIndex, endIndex)
  | seg :: rest =>
      let segStartInFullText := currentPosInFullText in
      let segTextLength := JS.len (text seg) in
      let segEndInFullText := segStartInFullText + segTextLength in
      let startIndex :=
        if (startIndex =? -1)
           && (targetStartInFullText >=? segStartInFullText)
           && (targetStartInFullText <? segEndInFullText)
        then start seg + (targetStartInFullText - segStartInFullText)
        else startIndex in
      if (targetEndInFullText >? segStartInFullText)
         && (targetEndInFullText <=? segEndInFullText)
      then (startIndex, start seg + (targetEndInFullText - segStartInFullText))
      else mapSegments rest targetStartInFullText targetEndInFullText
             segEndInFullText startIndex endIndex
  end.

(** The result of running a loop with a bound on its iterations. *)
Inductive Run (A : Type) : Type :=
| Done (a : A)
| Looping.
Arguments Done {A} a.
Arguments Looping {A}.

(** The [while (foundCount < instance)] loop, one iteration per unit of
    fuel.  [startIndex] and [endIndex] are [-1] at the head of every
    iteration (set so at first, and again after a failed mapping), which
    is why they are not part of the loop state.  Leaving the loop, by
    [break] or by its condition, returns [null]. *)
Fixpoint searchLoop (fuel : nat) (fullText : string) (segs : list Segment)
  (textToFind : string) (instance : Z) (searchStartIndex foundCount : Z)
  : Run (option Range) :=
  match fuel with
  | O => Looping
  | S fuel' =>
      if foundCount <? instance then
        let currentIndex := JS.indexOf fullText textToFind searchStartIndex in
        if currentIndex =? -1 then Done None
        else
          let foundCount := foundCount + 1 in
          if foundCount =? instance then
            let targetStartInFullText := currentIndex in
            let targetEndInFullText := currentIndex + JS.len textToFind in
            let '(startIndex, endIndex) :=
              mapSegments segs targetStartInFullText targetEndInFullText 0
                (-1) (-1) in
            if (startIndex =? -1) || (endIndex =? -1) then
              searchLoop fuel' fullText segs textToFind instance
                (currentIndex + 1) (foundCount - 1)
            else Done (Some {| range_start := startIndex;
                               range_end := endIndex |})
          else
            searchLoop fuel' fullText segs textToFind instance
              (currentIndex + 1) foundCount
      else Done None
  end.

(** The [try] block of [findTextRange] after the fetch: the search in
    a fetched document body. *)
Definition findTextRangeIn (fuel : nat) (body : Body) (textToFind : string)
  (instance : Z) : Run (option Range) :=
  match body with
  | None => Done None
  | Some c =>
      let st := collectTextFromContent c emptyIndex in
      let segs := sortSegments (segments st) in
      searchLoop fuel (fullText st) segs textToFind instance 0 0
  end.

(** Builders for test documents. *)
Definition run (s : string) (from to : Z) : ParagraphElement :=
  {| pe_startIndex := Some from; pe_endIndex := Some to;
     textRun := Some {| content := Some s |} |}.

Definition para (from to : Z) (runs : list ParagraphElement)
  : StructuralElement :=
  {| startIndex := Some from; endIndex := Some to;
     paragraph := Some {| elements := Some runs |}; table := None |}.

(** Scenario A: one paragraph whose text starts at index 1. *)
Definition scenarioA : Body :=
  Some [para 1 26 [run "Hello world. Hello again." 1 26]].

(** ** Requests, exceptions and the remote service *)

(** [{ red, green, blue }], each channel in [0 .. 1]. *)
Record RgbColor := { red : Q; green : Q; blue : Q }.

(** [{ magnitude, unit }]. *)
Record Dimension := { dim_magnitude : Q; dim_unit : string }.

(** [Schema$TextStyle], with the properties that the builder writes. *)
Record TextStyle := {
  ts_bold : option bool;
  ts_italic : option bool;
  ts_underline : option bool;
  ts_strikethrough : option bool;
  ts_fontSize : option Dimension;
  ts_weightedFontFamily : option string;
  ts_foregroundColor : option RgbColor;
  ts_backgroundColor : option RgbColor;
  ts_link : option string
}.

Definition emptyTextStyle : TextStyle :=
  {| ts_bold := None; ts_italic := None; ts_underline := None;
     ts_strikethrough := None; ts_fontSize := None;
     ts_weightedFontFamily := None; ts_foregroundColor := None;
     ts_backgroundColor := None; ts_link := None |}.

(** [{ height, width }] of an inline image. *)
Record ObjectSize := { os_height : Dimension; os_width : Dimension }.

(** [Schema$Request], with the request kinds built by the helpers below. *)
Inductive Request :=
| DeleteContentRange (range : Range)
| InsertText (index : Z) (text : string)
| UpdateTextStyle (range : Range) (textStyle : TextStyle) (fields : string)
| InsertInlineImage (index : Z) (uri : string) (objectSize : option ObjectSize).

(** [Schema$BatchUpdateDocumentResponse]; [{}] is [emptyResponse]. *)
Record Response := { replies : option (list string) }.
Definition emptyResponse : Response := {| replies := None |}.

(** A rejection of the client library: [error.code], [error.message],
    [error.response?.data] and the descriptions of
    [error.response?.data?.error?.details]. *)
Record ApiError := {
  code : Z;
  message : string;
  responseData : option string;
  details : option (list string)
}.

(** What a helper can throw. *)
Inductive Exception :=
| UserError (msg : string)
| Error (msg : string)
| TypeError (msg : string)
| ApiFailure (e : ApiError).

(** [error.message]. *)
Definition errorMessage (e : Exception) : string :=
  match e with
  | UserError m | Error m | TypeError m => m
  | ApiFailure a => message a
  end.

(** [error instanceof UserError]. *)
Definition isUserError (e : Exception) : bool :=
  match e with UserError _ => true | _ => false end.

(** The [docs] client: the two calls of the remote service that the
    helpers make.  A helper makes at most one call of each, so an answer
    that depends on the arguments only is enough. *)
Record Docs := {
  documents_get : string -> ApiError + Body;
  documents_batchUpdate : string -> list Request -> ApiError + Response
}.

Inductive NetworkCall :=
| DocumentsGet (documentId : string)
| DocumentsBatchUpdate (documentId : string) (requests : list Request).

Inductive ConsoleLine :=
| ConsoleWarn (line : string)
| ConsoleError (line : string).

(** The effects of a helper: the calls made over the network and the
    lines written to the console, oldest first. *)
Record World := { network : list NetworkCall; console : list ConsoleLine }.

Definition initialWorld : World := {| network := []; console := [] |}.

Inductive Result (A : Type) : Type :=
| Ok (a : A)
| Throw (e : Exception).
Arguments Ok {A} a.
Arguments Throw {A} e.

(** An [async] helper: state passing over [World], with exceptions. *)
Definition M (A : Type) : Type := World -> Result A * World.

Definition ret {A : Type} (a : A) : M A := fun w => (Ok a, w).

Definition throw {A : Type} (e : Exception) : M A := fun w => (Throw e, w).

Definition bind {A B : Type} (m : M A) (k : A -> M B) : M B :=
  fun w =>
    match m w with
    | (Ok a, w') => k a w'
    | (Throw e, w') => (Throw e, w')
    end.

(** [try { m } catch (error) { handler }]. *)
Definition tryCatch {A : Type} (m : M A) (handler : Exception -> M A) : M A :=
  fun w =>
    match m w with
    | (Ok a, w') => (Ok a, w')
    | (Throw e, w') => handler e w'
    end.

(** A synchronous computation that may throw, run inside a helper. *)
Definition lift {A : Type} (r : Result A) : M A := fun w => (r, w).

Notation "x <- m ;; k" := (bind m (fun x => k))
  (at level 61, m at next level, right associativity).
Notation "m ;;; k" := (bind m (fun _ => k))
  (at level 61, right associativity).

Definition consoleWarn (line : string) : M unit :=
  fun w => (Ok tt, {| network := network w;
                      console := console w ++ [ConsoleWarn line] |}).

Definition consoleError (line : string) : M unit :=
  fun w => (Ok tt, {| network := network w;
                      console := console w ++ [ConsoleError line] |}).

Definition call {A : Type} (c : NetworkCall) (answer : ApiError + A) : M A :=
  fun w =>
    let w' := {| network := network w ++ [c]; console := console w |} in
    match answer with
    | inr a => (Ok a, w')
    | inl e => (Throw (ApiFailure e), w')
    end.

(** [await docs.documents.get({ documentId, fields })], giving
    [res.data.body?.content].  Every helper asks for the fields it reads,
    so the field mask is left out. *)
Definition documentsGet (docs : Docs) (documentId : string) : M Body :=
  call (DocumentsGet documentId) (documents_get docs documentId).

(** [await docs.documents.batchUpdate({ documentId, requestBody })]. *)
Definition documentsBatchUpdate (docs : Docs) (documentId : string)
  (requests : list Request) : M Response :=
  call (DocumentsBatchUpdate documentId requests)
       (documents_batchUpdate docs documentId requests).

(** A number inside a template literal. *)
Definition numberToString (z : Z) : string :=
  NilEmpty.string_of_int (Z.to_int z).

(** [a.join(sep)]. *)
Definition join (sep : string) (a : list string) : string :=
  String.concat sep a.

Definition strcat (l : list string) : string := String.concat "" l.

(** The double quote, as a string. *)
Definition dquote : string := String (ascii_of_nat 34) "".

(** ** The batch submission gateway ([executeBatchUpdate]) *)

Definition MAX_BATCH_UPDATE_REQUESTS : Z := 50.

(** The [catch] block of [executeBatchUpdate]. *)
Definition translateBatchUpdateError (documentId : string) (error : Exception)
  : Exception :=
  match error with
  | ApiFailure e =>
      if (code e =? 400) && JS.includes (message e) "Invalid requests" then
        let detailMsg :=
          match details e with
          | Some ds => join "; " ds
          | None => ""
          end in
        UserError (strcat
          ["Invalid request sent to Google Docs API. Details: ";
           if JS.truthyString detailMsg then detailMsg else message e])
      else if code e =? 404 then
        UserError (strcat ["Document not found (ID: "; documentId;
                           "). Check the ID."])
      else if code e =? 403 then
        UserError (strcat ["Permission denied for document (ID: "; documentId;
          "). Ensure the authenticated user has edit access."])
      else
        Error (strcat ["Google API Error ("; numberToString (code e); "): ";
                       message e])
  | other =>
      Error (strcat ["Google API Error (undefined): "; errorMessage other])
  end.

Definition executeBatchUpdate (docs : Docs) (documentId : string)
  (requests : list Request) : M Response :=
  if JS.alen requests =? 0 then ret emptyResponse
  else
    (if JS.alen requests >? MAX_BATCH_UPDATE_REQUESTS
     then consoleWarn (strcat
            ["Attempting batch update with ";
             numberToString (JS.alen requests);
             " requests, exceeding typical limits. May fail."])
     else ret tt) ;;;
    tryCatch (documentsBatchUpdate docs documentId requests)
      (fun error =>
         consoleError (strcat ["Google API batchUpdate Error for doc ";
                               documentId; ":"]) ;;;
         throw (translateBatchUpdateError documentId error)).

(** ** The range resolver by text ([findTextRange]) *)

(** The [catch] block of [findTextRange]. *)
Definition translateFindTextError (documentId : string) (error : Exception)
  : Exception :=
  let unknownOr (m : string) :=
    if JS.truthyString m then m else "Unknown error" in
  match error with
  | ApiFailure e =>
      if code e =? 404 then
        UserError (strcat ["Document not found while searching text (ID: ";
                           documentId; ")."])
      else if code e =? 403 then
        UserError (strcat ["Permission denied while searching text in doc ";
                           documentId; "."])
      else
        Error (strcat ["Failed to retrieve doc for text searching: ";
                       unknownOr (message e)])
  | other =>
      Error (strcat ["Failed to retrieve doc for text searching: ";
                     unknownOr (errorMessage other)])
  end.

(** [findTextRange]: the fetch of the document, the search in its body,
    and the translation of a failed fetch.  [instance] is [1] when the
    caller leaves it out; the lines that the search itself writes to the
    console are left out. *)
Definition findTextRange (fuel : nat) (docs : Docs)
  (documentId textToFind : string) (instance : Z)
  : M (Run (option Range)) :=
  tryCatch
    (body <- documentsGet docs documentId ;;
     match body with
     | None =>
         consoleWarn (strcat ["No content found in document "; documentId]) ;;;
         ret (Done None)
     | Some c => ret (findTextRangeIn fuel (Some c) textToFind instance)
     end)
    (fun error =>
       consoleError (strcat ["Error finding text "; dquote; textToFind;
                             dquote; " in doc "; documentId; ": ";
                             if JS.truthyString (errorMessage error)
                             then errorMessage error else "Unknown error"]) ;;;
       throw (translateFindTextError documentId error)).

(** ** The table locator *)

(** [element.startIndex === tableStartIndex]. *)
Definition strictEq (x : option Z) (y : Z) : bool :=
  match x with Some v => v =? y | None => false end.

(** One entry of the result of [findTables]. *)
Record TableInfo := {
  ti_startIndex : Z;
  ti_endIndex : Z;
  ti_rows : Z;
  ti_columns : Z
}.

(** [tableRows[0]?.tableCells?.length || 0]. *)
Definition firstRowLength (tableRows : list TableRow) : Z :=
  match JS.arrayGet tableRows 0 with
  | Some row =>
      match tableCells row with
      | Some cells => JS.alen cells
      | None => 0
      end
  | None => 0
  end.

(** The body of [res.data.body.content.forEach] in [findTables]. *)
Definition pushTable (element : StructuralElement) (tables : list TableInfo)
  : list TableInfo :=
  match table element, startIndex element, endIndex element with
  | Some t, Some s, Some e =>
      let tableRows := JS.orEmpty (tableRows t) in
      let rows := JS.alen tableRows in
      let columns := firstRowLength tableRows in
      tables ++ [{| ti_startIndex := s; ti_endIndex := e;
                    ti_rows := rows; ti_columns := columns |}]
  | _, _, _ => tables
  end.

Definition findTables (docs : Docs) (documentId : string)
  : M (list TableInfo) :=
  tryCatch
    (body <- documentsGet docs documentId ;;
     match body with
     | None => ret []
     | Some c => ret (forEach pushTable c [])
     end)
    (fun error =>
       consoleError (strcat ["Error finding tables in doc "; documentId;
                             ": "; errorMessage error]) ;;;
       throw error).

(** One cell of the result of [getTableStructure]. *)
Record CellInfo := {
  ci_content : string;
  ci_startIndex : Z;
  ci_endIndex : Z
}.

Record TableStructure := {
  tst_startIndex : option Z;
  tst_endIndex : option Z;
  tst_rows : Z;
  tst_columns : Z;
  tst_cells : list (list CellInfo)
}.

(** The text of a cell: the runs of its paragraphs, in order. *)
Definition cellTextOf (cell : TableCell) : string :=
  forEach (fun (c : StructuralElement) (cellText : string) =>
    match paragraph c with
    | Some p =>
        match elements p with
        | Some es =>
            forEach (fun (elem : ParagraphElement) (cellText : string) =>
              match textRun elem with
              | Some tr =>
                  match content tr with
                  | Some s =>
                      if JS.truthyString s then (cellText ++ s)%string
                      else cellText
                  | None => cellText
                  end
              | None => cellText
              end) es cellText
        | None => cellText
        end
    | None => cellText
    end) (JS.orEmpty (cell_content cell)) "".

Definition cellInfoOf (cell : TableCell) : CellInfo :=
  {| ci_content := JS.trim (cellTextOf cell);
     ci_startIndex := JS.orZero (cell_startIndex cell);
     ci_endIndex := JS.orZero (cell_endIndex cell) |}.

Definition tableStructureOf (element : StructuralElement) (t : Table)
  : TableStructure :=
  let tableRows := JS.orEmpty (tableRows t) in
  let rows := JS.alen tableRows in
  let columns := firstRowLength tableRows in
  let cells :=
    map (fun row => map cellInfoOf (JS.orEmpty (tableCells row))) tableRows in
  {| tst_startIndex := startIndex element;
     tst_endIndex := endIndex element;
     tst_rows := rows; tst_columns := columns; tst_cells := cells |}.

(** The [for (const element of res.data.body.content)] loop of
    [getTableStructure]. *)
Fixpoint tableStructureLoop (c : list StructuralElement) (tableStartIndex : Z)
  : option TableStructure :=
  match c with
  | [] => None
  | element :: rest =>
      match table element with
      | Some t =>
          if strictEq (startIndex element) tableStartIndex
          then Some (tableStructureOf element t)
          else tableStructureLoop rest tableStartIndex
      | None => tableStructureLoop rest tableStartIndex
      end
  end.

Definition getTableStructure (docs : Docs) (documentId : string)
  (tableStartIndex : Z) : M (option TableStructure) :=
  tryCatch
    (body <- documentsGet docs documentId ;;
     match body with
     | None => ret None
     | Some c => ret (tableStructureLoop c tableStartIndex)
     end)
    (fun error =>
       consoleError (strcat ["Error getting table structure at index ";
                             numberToString tableStartIndex; ": ";
                             errorMessage error]) ;;;
       throw error).

Definition rowOutOfBounds (rowIndex rows : Z) : string :=
  strcat ["Row index "; numberToString rowIndex;
          " out of bounds. Table has "; numberToString rows; " rows."].

Definition columnOutOfBounds (columnIndex columns : Z) : string :=
  strcat ["Column index "; numberToString columnIndex;
          " out of bounds. Row has "; numberToString columns; " columns."].

Definition undefinedProperty (name : string) : Exception :=
  TypeError (strcat ["Cannot read properties of undefined (reading '"; name;
                     "')"]).

(** The [for (const element of res.data.body.content)] loop of
    [getTableCellRange]. *)
Fixpoint cellRangeLoop (c : list StructuralElement)
  (tableStartIndex rowIndex columnIndex : Z) : Result (option Range) :=
  match c with
  | [] => Ok None
  | element :: rest =>
      match table element with
      | Some t =>
          if strictEq (startIndex element) tableStartIndex then
            let tableRows := JS.orEmpty (tableRows t) in
            if rowIndex >=? JS.alen tableRows then
              Throw (UserError (rowOutOfBounds rowIndex (JS.alen tableRows)))
            else
              match JS.arrayGet tableRows rowIndex with
              | None => Throw (undefinedProperty "tableCells")
              | Some row =>
                  let cells := JS.orEmpty (tableCells row) in
                  if columnIndex >=? JS.alen cells then
                    Throw (UserError
                             (columnOutOfBounds columnIndex (JS.alen cells)))
                  else
                    match JS.arrayGet cells columnIndex with
                    | None => Throw (undefinedProperty "startIndex")
                    | Some cell =>
                        match cell_startIndex cell, cell_endIndex cell with
                        | Some s, Some e =>
                            Ok (Some {| range_start := s;
                                        range_end := e - 1 |})
                        | _, _ =>
                            cellRangeLoop rest tableStartIndex rowIndex
                              columnIndex
                        end
                    end
              end
          else cellRangeLoop rest tableStartIndex rowIndex columnIndex
      | None => cellRangeLoop rest tableStartIndex rowIndex columnIndex
      end
  end.

Definition getTableCellRange (docs : Docs) (documentId : string)
  (tableStartIndex rowIndex columnIndex : Z) : M (option Range) :=
  tryCatch
    (body <- documentsGet docs documentId ;;
     match body with
     | None => ret None
     | Some c => lift (cellRangeLoop c tableStartIndex rowIndex columnIndex)
     end)
    (fun error =>
       consoleError (strcat ["Error getting cell range for table at ";
                             numberToString tableStartIndex; ", cell (";
                             numberToString rowIndex; ", ";
                             numberToString columnIndex; "): ";
                             errorMessage error]) ;;;
       throw error).

(** The request list of [updateTableCellContent] for a cell range. *)
Definition cellContentRequests (cellRange : Range) (newContent : string)
  : list Request :=
  let requests := [] in
  let contentStart := range_start cellRange + 1 in
  let contentEnd := range_end cellRange in
  let requests :=
    if contentEnd >? contentStart
    then requests ++ [DeleteContentRange {| range_start := contentStart;
                                            range_end := contentEnd |}]
    else requests in
  let requests :=
    if JS.truthyString newContent
    then requests ++ [InsertText contentStart newContent]
    else requests in
  requests.

Definition updateTableCellContent (docs : Docs) (documentId : string)
  (tableStartIndex rowIndex columnIndex : Z) (newContent : string)
  : M Response :=
  cellRange <- getTableCellRange docs documentId tableStartIndex rowIndex
                 columnIndex ;;
  match cellRange with
  | None =>
      throw (UserError (strcat
        ["Could not find cell at row "; numberToString rowIndex;
         ", column "; numberToString columnIndex; " in table at index ";
         numberToString tableStartIndex; "."]))
  | Some cellRange =>
      executeBatchUpdate docs documentId
        (cellContentRequests cellRange newContent)
  end.

(** *** The [getTableCell] tool of [TableTools.ts] *)

Definition newline : string := String (ascii_of_nat 10) "".

Definition toolRowOutOfBounds (rowIndex rows : Z) : string :=
  strcat ["Row index "; numberToString rowIndex;
          " out of bounds. Table has "; numberToString rows; " rows."].

Definition toolColumnOutOfBounds (columnIndex columns : Z) : string :=
  strcat ["Column index "; numberToString columnIndex;
          " out of bounds. Table has "; numberToString columns; " columns."].

Definition getTableCell (docs : Docs) (documentId : string)
  (tableIndex rowIndex columnIndex : Z) : M string :=
  tryCatch
    (table <- getTableStructure docs documentId tableIndex ;;
     match table with
     | None =>
         throw (UserError (strcat ["No table found at index ";
                                   numberToString tableIndex; "."]))
     | Some table =>
         if rowIndex >=? tst_rows table then
           throw (UserError (toolRowOutOfBounds rowIndex (tst_rows table)))
         else if columnIndex >=? tst_columns table then
           throw (UserError
                    (toolColumnOutOfBounds columnIndex (tst_columns table)))
         else
           match JS.arrayGet (tst_cells table) rowIndex with
           | None => throw (undefinedProperty (numberToString columnIndex))
           | Some row =>
               match JS.arrayGet row columnIndex with
               | None => throw (undefinedProperty "content")
               | Some cell =>
                   ret (strcat
                     ["**Cell at row "; numberToString rowIndex; ", column ";
                      numberToString columnIndex; ":**"; newline; newline;
                      "Content: ";
                      (if JS.truthyString (ci_content cell)
                       then ci_content cell else "(empty)"); newline;
                      "Start index: "; numberToString (ci_startIndex cell);
                      newline;
                      "End index: "; numberToString (ci_endIndex cell);
                      newline])
               end
           end
     end)
    (fun error =>
       if isUserError error then throw error
       else throw (UserError (strcat
              ["Failed to get table cell: ";
               if JS.truthyString (errorMessage error)
               then errorMessage error else "Unknown error"]))).

(** ** The text-style compiler ([buildUpdateTextStyleRequest]) *)

(** [hexToRgbColor] of [types.ts].  A channel is the exact quotient of
    its byte by 255. *)
Definition hexToRgbColor (hex : string) : option RgbColor :=
  if negb (JS.truthyString hex) then None
  else
    let hexClean := if JS.startsWith hex "#" then JS.skip 1 hex else hex in
    let hexClean :=
      match hexClean with
      | String c0 (String c1 (String c2 EmptyString)) =>
          String c0 (String c0 (String c1 (String c1
            (String c2 (String c2 EmptyString)))))
      | _ => hexClean
      end in
    if negb (JS.len hexClean =? 6) then None
    else
      match JS.parseInt16 hexClean with
      | None => None
      | Some bigint =>
          let r := Z.land (Z.shiftr bigint 16) 255 # 255 in
          let g := Z.land (Z.shiftr bigint 8) 255 # 255 in
          let b := Z.land bigint 255 # 255 in
          Some {| red := r; green := g; blue := b |}
      end.

(** [TextStyleArgs]: every property is optional. *)
Record TextStyleArgs := {
  bold : option bool;
  italic : option bool;
  underline : option bool;
  strikethrough : option bool;
  fontSize : option Q;
  fontFamily : option string;
  foregroundColor : option string;
  backgroundColor : option string;
  linkUrl : option string
}.

Definition noStyle : TextStyleArgs :=
  {| bold := None; italic := None; underline := None; strikethrough := None;
     fontSize := None; fontFamily := None; foregroundColor := None;
     backgroundColor := None; linkUrl := None |}.

(** The two variables that the builder fills in. *)
Record StyleBuild := { textStyle : TextStyle; fieldsToUpdate : list string }.

(** One [if (style.p !== undefined) { textStyle.q = ...; push(q) }]. *)
Definition setField {A : Type} (arg : option A)
  (write : A -> TextStyle -> TextStyle) (name : string) (b : StyleBuild)
  : StyleBuild :=
  match arg with
  | Some v => {| textStyle := write v (textStyle b);
                 fieldsToUpdate := fieldsToUpdate b ++ [name] |}
  | None => b
  end.

(** The same for a colour, which is converted first; a colour that does
    not convert throws. *)
Definition setColor (arg : option string)
  (write : RgbColor -> TextStyle -> TextStyle) (name invalid : string)
  (b : StyleBuild) : Result StyleBuild :=
  match arg with
  | Some hex =>
      match hexToRgbColor hex with
      | None => Throw (UserError (strcat [invalid; hex]))
      | Some rgbColor =>
          Ok {| textStyle := write rgbColor (textStyle b);
                fieldsToUpdate := fieldsToUpdate b ++ [name] |}
      end
  | None => Ok b
  end.

Definition with_bold v (t : TextStyle) : TextStyle :=
  {| ts_bold := Some v; ts_italic := ts_italic t;
     ts_underline := ts_underline t; ts_strikethrough := ts_strikethrough t;
     ts_fontSize := ts_fontSize t;
     ts_weightedFontFamily := ts_weightedFontFamily t;
     ts_foregroundColor := ts_foregroundColor t;
     ts_backgroundColor := ts_backgroundColor t; ts_link := ts_link t |}.

Definition with_italic v (t : TextStyle) : TextStyle :=
  {| ts_bold := ts_bold t; ts_italic := Some v;
     ts_underline := ts_underline t; ts_strikethrough := ts_strikethrough t;
     ts_fontSize := ts_fontSize t;
     ts_weightedFontFamily := ts_weightedFontFamily t;
     ts_foregroundColor := ts_foregroundColor t;
     ts_backgroundColor := ts_backgroundColor t; ts_link := ts_link t |}.

Definition with_underline v (t : TextStyle) : TextStyle :=
  {| ts_bold := ts_bold t; ts_italic := ts_italic t;
     ts_underline := Some v; ts_strikethrough := ts_strikethrough t;
     ts_fontSize := ts_fontSize t;
     ts_weightedFontFamily := ts_weightedFontFamily t;
     ts_foregroundColor := ts_foregroundColor t;
     ts_backgroundColor := ts_backgroundColor t; ts_link := ts_link t |}.

Definition with_strikethrough v (t : TextStyle) : TextStyle :=
  {| ts_bold := ts_bold t; ts_italic := ts_italic t;
     ts_underline := ts_underline t; ts_strikethrough := Some v;
     ts_fontSize := ts_fontSize t;
     ts_weightedFontFamily := ts_weightedFontFamily t;
     ts_foregroundColor := ts_foregroundColor t;
     ts_backgroundColor := ts_backgroundColor t; ts_link := ts_link t |}.

Definition with_fontSize v (t : TextStyle) : TextStyle :=
  {| ts_bold := ts_bold t; ts_italic := ts_italic t;
     ts_underline := ts_underline t; ts_strikethrough := ts_strikethrough t;
     ts_fontSize := Some {| dim_magnitude := v; dim_unit := "PT" |};
     ts_weightedFontFamily := ts_weightedFontFamily t;
     ts_foregroundColor := ts_foregroundColor t;
     ts_backgroundColor := ts_backgroundColor t; ts_link := ts_link t |}.

Definition with_weightedFontFamily v (t : TextStyle) : TextStyle :=
  {| ts_bold := ts_bold t; ts_italic := ts_italic t;
     ts_underline := ts_underline t; ts_strikethrough := ts_strikethrough t;
     ts_fontSize := ts_fontSize t;
     ts_weightedFontFamily := Some v;
     ts_foregroundColor := ts_foregroundColor t;
     ts_backgroundColor := ts_backgroundColor t; ts_link := ts_link t |}.

Definition with_foregroundColor v (t : TextStyle) : TextStyle :=
  {| ts_bold := ts_bold t; ts_italic := ts_italic t;
     ts_underline := ts_underline t; ts_strikethrough := ts_strikethrough t;
     ts_fontSize := ts_fontSize t;
     ts_weightedFontFamily := ts_weightedFontFamily t;
     ts_foregroundColor := Some v;
     ts_backgroundColor := ts_backgroundColor t; ts_link := ts_link t |}.

Definition with_backgroundColor v (t : TextStyle) : TextStyle :=
  {| ts_bold := ts_bold t; ts_italic := ts_italic t;
     ts_underline := ts_underline t; ts_strikethrough := ts_strikethrough t;
     ts_fontSize := ts_fontSize t;
     ts_weightedFontFamily := ts_weightedFontFamily t;
     ts_foregroundColor := ts_foregroundColor t;
     ts_backgroundColor := Some v; ts_link := ts_link t |}.

Definition with_link v (t : TextStyle) : TextStyle :=
  {| ts_bold := ts_bold t; ts_italic := ts_italic t;
     ts_underline := ts_underline t; ts_strikethrough := ts_strikethrough t;
     ts_fontSize := ts_fontSize t;
     ts_weightedFontFamily := ts_weightedFontFamily t;
     ts_foregroundColor := ts_foregroundColor t;
     ts_backgroundColor := ts_backgroundColor t; ts_link := Some v |}.

(** Sequencing of synchronous steps that may throw. *)
Definition andThen {A B : Type} (r : Result A) (k : A -> Result B)
  : Result B :=
  match r with
  | Ok a => k a
  | Throw e => Throw e
  end.

(** The statements of the builder up to the test on the number of
    fields, in the order of the source. *)
Definition collectTextStyle (style : TextStyleArgs) : Result StyleBuild :=
  let b := {| textStyle := emptyTextStyle; fieldsToUpdate := [] |} in
  let b := setField (bold style) with_bold "bold" b in
  let b := setField (italic style) with_italic "italic" b in
  let b := setField (underline style) with_underline "underline" b in
  let b := setField (strikethrough style) with_strikethrough
             "strikethrough" b in
  let b := setField (fontSize style) with_fontSize "fontSize" b in
  let b := setField (fontFamily style) with_weightedFontFamily
             "weightedFontFamily" b in
  andThen (setColor (foregroundColor style) with_foregroundColor
             "foregroundColor" "Invalid foreground hex color format: " b)
  (fun b =>
  andThen (setColor (backgroundColor style) with_backgroundColor
             "backgroundColor" "Invalid background hex color format: " b)
  (fun b =>
  Ok (setField (linkUrl style) with_link "link" b))).

(** [buildUpdateTextStyleRequest]: [null] when no property is set, else
    the request and the list of its fields. *)
Definition buildUpdateTextStyleRequest (startIndex endIndex : Z)
  (style : TextStyleArgs) : Result (option (Request * list string)) :=
  andThen (collectTextStyle style) (fun b =>
    if JS.alen (fieldsToUpdate b) =? 0 then Ok None
    else
      let request :=
        UpdateTextStyle {| range_start := startIndex; range_end := endIndex |}
          (textStyle b) (join "," (fieldsToUpdate b)) in
      Ok (Some (request, fieldsToUpdate b))).

(** ** Regular expressions of the image helper *)

Module Regex.

(** The fragment of the pattern language that the source uses. *)
Inductive re : Type :=
| Fail
| Eps
| Chr (p : ascii -> bool)
| Seq (a b : re)
| Alt (a b : re)
| Star (a : re).

Fixpoint nullable (r : re) : bool :=
  match r with
  | Fail => false
  | Eps => true
  | Chr _ => false
  | Seq a b => nullable a && nullable b
  | Alt a b => nullable a || nullable b
  | Star _ => true
  end.

(** The derivative of [r] by the character [c]. *)
Fixpoint deriv (c : ascii) (r : re) : re :=
  match r with
  | Fail => Fail
  | Eps => Fail
  | Chr p => if p c then Eps else Fail
  | Seq a b =>
      Alt (Seq (deriv c a) b) (if nullable a then deriv c b else Fail)
  | Alt a b => Alt (deriv c a) (deriv c b)
  | Star a => Seq (deriv c a) (Star a)
  end.

(** [r] matches the whole of [s]. *)
Fixpoint matches (r : re) (s : string) : bool :=
  match s with
  | EmptyString => nullable r
  | String c s' => matches (deriv c r) s'
  end.

Definition toUpper (c : ascii) : ascii :=
  let n := nat_of_ascii c in
  if ((97 <=? n) && (n <=? 122))%nat then ascii_of_nat (n - 32) else c.

Definition isDigit (c : ascii) : bool :=
  let n := nat_of_ascii c in ((48 <=? n) && (n <=? 57))%nat.

(** A literal character, and the same under the [i] flag. *)
Definition lit (c : ascii) : re := Chr (Ascii.eqb c).
Definition liti (c : ascii) : re :=
  Chr (fun x => Ascii.eqb (toUpper x) (toUpper c)).

(** [[a-b]]. *)
Definition range (a b : ascii) : re :=
  Chr (fun x => ((nat_of_ascii a <=? nat_of_ascii x)
                 && (nat_of_ascii x <=? nat_of_ascii b))%nat).

(** [\d], [r+] and a character that may be anything. *)
Definition digit : re := Chr isDigit.
Definition plus (r : re) : re := Seq r (Star r).
Definition any : re := Chr (fun _ => true).

(** A literal string, and the same under the [i] flag. *)
Fixpoint str (s : string) : re :=
  match s with
  | EmptyString => Eps
  | String c s' => Seq (lit c) (str s')
  end.

Fixpoint stri (s : string) : re :=
  match s with
  | EmptyString => Eps
  | String c s' => Seq (liti c) (stri s')
  end.

Fixpoint seq (l : list re) : re :=
  match l with
  | [] => Eps
  | r :: l' => Seq r (seq l')
  end.

(** A pattern: [/^r$/] or [/^r/]. *)
Inductive RegExp : Type :=
| Whole (r : re)
| Prefix (r : re).

(** [pattern.test(s)]. *)
Definition test (pattern : RegExp) (s : string) : bool :=
  match pattern with
  | Whole r => matches r s
  | Prefix r => matches (Seq r (Star any)) s
  end.

End Regex.

(** ** Image insertion ([insertInlineImage]) *)

(** The two properties of a parsed [URL] that the helper reads. *)
Record URL := { protocol : string; hostname : string }.

Definition privateRanges : list Regex.RegExp :=
  let d := Regex.plus Regex.digit in
  let dot := Regex.lit "." in
  [ Regex.Whole (Regex.stri "localhost");
    Regex.Whole (Regex.seq [Regex.str "127"; dot; d; dot; d; dot; d]);
    Regex.Whole (Regex.seq [Regex.str "10"; dot; d; dot; d; dot; d]);
    Regex.Whole (Regex.seq
      [Regex.str "172"; dot;
       Regex.Alt (Regex.Seq (Regex.lit "1") (Regex.range "6" "9"))
         (Regex.Alt (Regex.Seq (Regex.lit "2") Regex.digit)
            (Regex.Seq (Regex.lit "3")
               (Regex.Alt (Regex.lit "0") (Regex.lit "1"))));
       dot; d; dot; d]);
    Regex.Whole (Regex.seq [Regex.str "192"; dot; Regex.str "168"; dot; d;
                            dot; d]);
    Regex.Whole (Regex.seq [Regex.str "169"; dot; Regex.str "254"; dot; d;
                            dot; d]);
    Regex.Whole (Regex.str "0.0.0.0");
    Regex.Whole (Regex.str "[::1]");
    Regex.Prefix (Regex.stri "[fe80:");
    Regex.Prefix (Regex.stri "[fc00:") ].

Section Image.

(** [new URL(imageUrl)] of the platform; [None] when it throws. *)
Variable newURL : string -> option URL.

(** The checks of [insertInlineImage] that come before the request is
    built: the exception to throw, if any. *)
Definition validateImageUrl (imageUrl : string) : Result URL :=
  match newURL imageUrl with
  | None => Throw (UserError (strcat ["Invalid image URL format: ";
                                      imageUrl]))
  | Some parsedUrl =>
      if negb (String.eqb (protocol parsedUrl) "http:")
         && negb (String.eqb (protocol parsedUrl) "https:")
      then Throw (UserError (strcat
             ["Only HTTP and HTTPS URLs are allowed for image insertion. ";
              "Protocol "; dquote; protocol parsedUrl; dquote;
              " is not supported."]))
      else
        let hostname := hostname parsedUrl in
        if existsb (fun pattern => Regex.test pattern hostname)
             privateRanges
        then Throw (UserError (strcat
               ["Access to private/internal IP addresses is not allowed ";
                "for security reasons. Hostname: "; hostname]))
        else Ok parsedUrl
  end.

(** [...(width && height && { objectSize })]. *)
Definition objectSizeOf (width height : option Q) : option ObjectSize :=
  match width, height with
  | Some w, Some h =>
      if JS.truthyNumber w && JS.truthyNumber h
      then Some {| os_height := {| dim_magnitude := h; dim_unit := "PT" |};
                   os_width := {| dim_magnitude := w; dim_unit := "PT" |} |}
      else None
  | _, _ => None
  end.

Definition insertInlineImage (docs : Docs) (documentId imageUrl : string)
  (index : Z) (width height : option Q) : M Response :=
  _ <- lift (validateImageUrl imageUrl) ;;
  let request :=
    InsertInlineImage index imageUrl (objectSizeOf width height) in
  executeBatchUpdate docs documentId [request].

End Image.

(** * The vocabulary of the properties, and test inputs *)

Unset Implicit Arguments.

(** A remote service that accepts every batch. *)
Definition acceptingDocs : Docs :=
  {| documents_get := fun _ => inr None;
     documents_batchUpdate := fun _ _ => inr emptyResponse |}.

(** A batch of [n] insertions. *)
Definition batchOf (n : nat) : list Request :=
  map (fun i => InsertText (Z.of_nat i + 1) "x") (List.seq 0 n).

Definition overLimitWarning (requests : list Request) : ConsoleLine :=
  ConsoleWarn (strcat ["Attempting batch update with ";
                       numberToString (JS.alen requests);
                       " requests, exceeding typical limits. May fail."]).

(** The number of cells of the first row of a table, [0] when the table
    has no row: the column count in the words of the specification. *)
Definition columnsOfFirstRow (t : Table) : Z :=
  match JS.orEmpty (tableRows t) with
  | [] => 0
  | row :: _ => JS.alen (JS.orEmpty (tableCells row))
  end.

Definition rowsOf (t : Table) : Z := JS.alen (JS.orEmpty (tableRows t)).

(** The tables of a document body in the words of the specification:
    one descriptor for each top-level element that is a table and has
    both of its indices. *)
Definition tableInfos (c : list StructuralElement) : list TableInfo :=
  flat_map (fun element =>
    match table element, startIndex element, endIndex element with
    | Some t, Some s, Some e =>
        [{| ti_startIndex := s; ti_endIndex := e; ti_rows := rowsOf t;
            ti_columns := columnsOfFirstRow t |}]
    | _, _, _ => []
    end) c.

(** No element of [pre] is a table that starts at [tableStartIndex]. *)
Definition noTableAt (tableStartIndex : Z) (pre : list StructuralElement)
  : Prop :=
  Forall (fun e => table e = None
                   \/ strictEq (startIndex e) tableStartIndex = false) pre.

(** Builders for test tables: a cell that holds one paragraph with one
    run, a row, and a table element. *)
Definition cellOf (from to : Z) (s : string) : TableCell :=
  {| cell_startIndex := Some from; cell_endIndex := Some to;
     cell_content := Some [para (from + 1) to [run s (from + 1) to]] |}.

Definition rowOf (cells : list TableCell) : TableRow :=
  {| tableCells := Some cells |}.

Definition tableOf (from to : Z) (rows : list TableRow) : StructuralElement :=
  {| startIndex := Some from; endIndex := Some to; paragraph := None;
     table := Some {| tableRows := Some rows |} |}.

Definition docsOf (body : Body) : Docs :=
  {| documents_get := fun _ => inr body;
     documents_batchUpdate := fun _ _ => inr emptyResponse |}.

Definition lineFeed : string := String (ascii_of_nat 10) "".

(** Scenario B: a table of 2 rows and 3 columns whose cell (1,2) holds
    the text X and the line feed that ends its paragraph. *)
Definition scenarioB : Body :=
  Some [ para 1 2 [run lineFeed 1 2];
         tableOf 2 19
           [ rowOf [cellOf 4 6 lineFeed; cellOf 6 8 lineFeed;
                    cellOf 8 10 lineFeed];
             rowOf [cellOf 11 13 lineFeed; cellOf 13 15 lineFeed;
                    cellOf 15 18 ("X" ++ lineFeed)%string] ] ].

(** A table whose second row has one more cell than its first. *)
Definition raggedTable : Body :=
  Some [ tableOf 2 21
           [ rowOf [cellOf 4 6 lineFeed; cellOf 6 8 lineFeed;
                    cellOf 8 10 lineFeed];
             rowOf [cellOf 11 13 lineFeed; cellOf 13 15 lineFeed;
                    cellOf 15 17 lineFeed; cellOf 17 20 lineFeed] ] ].

(** The properties of a text style intent, in the order of the source. *)
Inductive Property :=
| Bold | Italic | Underline | Strikethrough | FontSize | FontFamily
| ForegroundColor | BackgroundColor | LinkUrl.

Definition allProperties : list Property :=
  [Bold; Italic; Underline; Strikethrough; FontSize; FontFamily;
   ForegroundColor; BackgroundColor; LinkUrl].

Definition isSome {A : Type} (x : option A) : bool :=
  match x with Some _ => true | None => false end.

(** The property is present in the intent. *)
Definition isSet (style : TextStyleArgs) (p : Property) : bool :=
  match p with
  | Bold => isSome (bold style)
  | Italic => isSome (italic style)
  | Underline => isSome (underline style)
  | Strikethrough => isSome (strikethrough style)
  | FontSize => isSome (fontSize style)
  | FontFamily => isSome (fontFamily style)
  | ForegroundColor => isSome (foregroundColor style)
  | BackgroundColor => isSome (backgroundColor style)
  | LinkUrl => isSome (linkUrl style)
  end.

(** The name under which the remote service knows the property. *)
Definition fieldName (p : Property) : string :=
  match p with
  | Bold => "bold"
  | Italic => "italic"
  | Underline => "underline"
  | Strikethrough => "strikethrough"
  | FontSize => "fontSize"
  | FontFamily => "weightedFontFamily"
  | ForegroundColor => "foregroundColor"
  | BackgroundColor => "backgroundColor"
  | LinkUrl => "link"
  end.

(** The field mask in the words of the specification: the names of the
    properties that are set, and no other. *)
Definition setProperties (style : TextStyleArgs) : list string :=
  map fieldName (filter (isSet style) allProperties).

Definition boldOnly : TextStyleArgs :=
  {| bold := Some true; italic := None; underline := None;
     strikethrough := None; fontSize := None; fontFamily := None;
     foregroundColor := None; backgroundColor := None; linkUrl := None |}.

Definition maybe {A : Type} (x : option A) (name : string) : list string :=
  match x with Some _ => [name] | None => [] end.

(** The concatenation of a list of strings. *)
Definition flat (ss : list string) : string :=
  fold_right String.append EmptyString ss.

(** [s] in upper case. *)
Fixpoint upper (s : string) : string :=
  match s with
  | EmptyString => EmptyString
  | String c s' => String (Regex.toUpper c) (upper s')
  end.

(** One number of a dotted address, in decimal. *)
Definition octet (n : Z) : string := numberToString n.

(** The host name of the IPv4 address [a.b.c.d], as a parsed URL gives
    it. *)
Definition dottedQuad (a b c d : Z) : string :=
  flat [octet a; "."; octet b; "."; octet c; "."; octet d].

Definition isOctet (n : Z) : Prop := 0 <= n <= 255.

(** The host names that the specification calls loopback, private or
    internal: [localhost] in any case, the IPv4 blocks 127.0.0.0/8,
    10.0.0.0/8, 172.16.0.0/12, 192.168.0.0/16 and 169.254.0.0/16, the
    address 0.0.0.0, the IPv6 loopback, and the bracketed IPv6 hosts
    whose first group is [fe80] or [fc00]. *)
Inductive privateHost : string -> Prop :=
| host_localhost (s : string) :
    upper s = "LOCALHOST" -> privateHost s
| host_loopback (b c d : Z) :
    isOctet b -> isOctet c -> isOctet d -> privateHost (dottedQuad 127 b c d)
| host_class_a (b c d : Z) :
    isOctet b -> isOctet c -> isOctet d -> privateHost (dottedQuad 10 b c d)
| host_class_b (b c d : Z) :
    16 <= b <= 31 -> isOctet c -> isOctet d ->
    privateHost (dottedQuad 172 b c d)
| host_class_c (c d : Z) :
    isOctet c -> isOctet d -> privateHost (dottedQuad 192 168 c d)
| host_link_local (c d : Z) :
    isOctet c -> isOctet d -> privateHost (dottedQuad 169 254 c d)
| host_unspecified : privateHost "0.0.0.0"
| host_loopback6 : privateHost "[::1]"
| host_link_local6 (s rest : string) :
    upper s = "[FE80:" -> privateHost (s ++ rest)%string
| host_private6 (s rest : string) :
    upper s = "[FC00:" -> privateHost (s ++ rest)%string.

(** A stand-in for the URL parser of the platform, which knows three
    addresses and gives for each the protocol and the host name that the
    platform gives. *)
Definition toyURL (s : string) : option URL :=
  if String.eqb s "http://127.0.0.1/logo.png"
  then Some {| protocol := "http:"; hostname := "127.0.0.1" |}
  else if String.eqb s "https://example.com/logo.png"
  then Some {| protocol := "https:"; hostname := "example.com" |}
  else if String.eqb s "http://[fd00::1]/logo.png"
  then Some {| protocol := "http:"; hostname := "[fd00::1]" |}
  else None.

(** The sum of the text lengths of a list of segments. *)
Definition textLength (segs : list Segment) : Z :=
  fold_right (fun seg acc => JS.len (text seg) + acc) 0 segs.

(** The offset in the reconstructed text at which the segment of rank
    [i] starts when the segments are laid out one after the other. *)
Definition reconStart (segs : list Segment) (i : nat) : Z :=
  textLength (firstn i segs).

(** Orders on segments by their start. *)
Definition startLe (a b : Segment) : Prop := start a <= start b.
Definition startLt (a b : Segment) : Prop := start a < start b.

(** [e'] is an element of the content of a cell of the table [e]. *)
Definition cellElementOf (e' e : StructuralElement) : Prop :=
  exists t rows row cells cell c,
    table e = Some t /\ tableRows t = Some rows /\ In row rows
    /\ tableCells row = Some cells /\ In cell cells
    /\ cell_content cell = Some c /\ In e' c.

(** The number of elements in the tree under an element. *)
Fixpoint treeSize (e : StructuralElement) : nat :=
  S (match table e with
     | Some t =>
         match tableRows t with
         | Some rows =>
             list_sum (map (fun row =>
               match tableCells row with
               | Some cells =>
                   list_sum (map (fun cell =>
                     match cell_content cell with
                     | Some c => list_sum (map treeSize c)
                     | None => O
                     end) cells)
               | None => O
               end) rows)
         | None => O
         end
     | None => O
     end).

(** A document whose two runs start at the same index. *)
Definition overlappingRuns : Body :=
  Some [para 1 5 [run "ab" 1 3; run "cd" 1 3]].

(** The offsets, counted from [k] at the head of [s], at which [pat]
    occurs in [s], in increasing order; occurrences may overlap. *)
Fixpoint occurrencesFrom (s pat : string) (k : Z) : list Z :=
  (if JS.startsWith s pat then [k] else [])
  ++ match s with
     | EmptyString => []
     | String _ s' => occurrencesFrom s' pat (k + 1)
     end.

(** The occurrences of [pat] in [s], left to right. *)
Definition occurrences (s pat : string) : list Z := occurrencesFrom s pat 0.

(** The hit at offset [h] maps to document indices: the scan of the
    segments sets both the start and the end. *)
Definition mapHit (segs : list Segment) (textToFind : string) (h : Z)
  : option Range :=
  let '(s, e) := mapSegments segs h (h + JS.len textToFind) 0 (-1) (-1) in
  if (s =? -1) || (e =? -1) then None
  else Some {| range_start := s; range_end := e |}.

Definition mappable (segs : list Segment) (textToFind : string) (h : Z)
  : bool :=
  isSome (mapHit segs textToFind h).

(** The occurrences that map to document indices. *)
Definition mappableOccurrences (segs : list Segment)
  (fullText textToFind : string) : list Z :=
  filter (mappable segs textToFind) (occurrences fullText textToFind).

Definition nonNegativeStarts (segs : list Segment) : Prop :=
  Forall (fun seg => 0 <= start seg) segs.

(** Comparisons of numbers, decided case by case. *)
Ltac zcases :=
  repeat match goal with
    | |- context [?a >=? ?b] => rewrite (Z.geb_leb a b)
    | |- context [?a >? ?b] => rewrite (Z.gtb_ltb a b)
    end;
  repeat match goal with
    | |- context [?a <=? ?b] => destruct (Z.leb_spec a b)
    | |- context [?a <? ?b] => destruct (Z.ltb_spec a b)
    | |- context [?a =? ?b] => destruct (Z.eqb_spec a b)
    end;
  cbn [andb orb negb]; try lia.

(** A document that holds one empty paragraph, and one that holds the
    text ab. *)
Definition emptyParagraph : Body := Some [para 1 2 [run lineFeed 1 2]].
Definition paragraphAb : Body := Some [para 1 3 [run "ab" 1 3]].

(** * Further helpers and tools *)

(** ** The paragraph that holds an index ([getParagraphRange]) *)

(** [for (const x of l) { const result = f(x); if (result) return result; }],
    falling through to [null]. *)
Fixpoint firstSome {A B : Type} (f : A -> option B) (l : list A) : option B :=
  match l with
  | [] => None
  | x :: rest =>
      match f x with
      | Some r => Some r
      | None => firstSome f rest
      end
  end.

(** The body of the loop of [findParagraphInContent] for one element: an
    element is looked at only when it has both indices and holds the
    index; a paragraph answers with its own range, a table with the first
    answer of the contents of its cells, row by row. *)
Fixpoint findParagraphInElement (indexWithin : Z)
  (element : StructuralElement) {struct element} : option Range :=
  match startIndex element, endIndex element with
  | Some s, Some e =>
      if (indexWithin >=? s) && (indexWithin <? e) then
        match paragraph element with
        | Some _ => Some {| range_start := s; range_end := e |}
        | None =>
            match table element with
            | Some t =>
                match tableRows t with
                | Some rows =>
                    firstSome (fun row =>
                      match tableCells row with
                      | Some cells =>
                          firstSome (fun cell =>
                            match cell_content cell with
                            | Some c =>
                                firstSome
                                  (findParagraphInElement indexWithin) c
                            | None => None
                            end) cells
                      | None => None
                      end) rows
                | None => None
                end
            | None => None
            end
        end
      else None
  | _, _ => None
  end.

Definition findParagraphInContent (indexWithin : Z)
  (c : list StructuralElement) : option Range :=
  firstSome (findParagraphInElement indexWithin) c.

(** [error.message || 'Unknown error']. *)
Definition messageOrUnknown (error : Exception) : string :=
  if JS.truthyString (errorMessage error) then errorMessage error
  else "Unknown error".

(** [error.code], which only a rejection of the client library has. *)
Definition errorCode (error : Exception) : option Z :=
  match error with
  | ApiFailure e => Some (code e)
  | _ => None
  end.

(** The [catch] block of [getParagraphRange]. *)
Definition translateParagraphError (documentId : string) (error : Exception)
  : Exception :=
  if strictEq (errorCode error) 404 then
    UserError (strcat ["Document not found while finding paragraph (ID: ";
                       documentId; ")."])
  else if strictEq (errorCode error) 403 then
    UserError (strcat ["Permission denied while accessing doc "; documentId;
                       "."])
  else Error (strcat ["Failed to find paragraph: "; messageOrUnknown error]).

(** [getParagraphRange]; of its console lines, the warning for a document
    without content and the error line of the [catch] block are kept. *)
Definition getParagraphRange (docs : Docs) (documentId : string)
  (indexWithin : Z) : M (option Range) :=
  tryCatch
    (body <- documentsGet docs documentId ;;
     match body with
     | None =>
         consoleWarn (strcat ["No content found in document "; documentId]) ;;;
         ret None
     | Some c => ret (findParagraphInContent indexWithin c)
     end)
    (fun error =>
       consoleError (strcat ["Error getting paragraph range for index ";
                             numberToString indexWithin; " in doc ";
                             documentId; ": "; messageOrUnknown error]) ;;;
       throw (translateParagraphError documentId error)).

(** ** Colours ([validateHexColor] of [types.ts]) *)

(** [[0-9A-Fa-f]]. *)
Definition isHexChar (c : ascii) : bool :=
  let n := nat_of_ascii c in
  ((48 <=? n) && (n <=? 57) || (65 <=? n) && (n <=? 70)
   || (97 <=? n) && (n <=? 102))%nat.

Definition hexChar : Regex.re := Regex.Chr isHexChar.

(** [r?]. *)
Definition regexOpt (r : Regex.re) : Regex.re := Regex.Alt r Regex.Eps.

(** [/^#?([0-9A-Fa-f]{3}|[0-9A-Fa-f]{6})$/]. *)
Definition hexColorRegex : Regex.RegExp :=
  Regex.Whole
    (Regex.Seq (regexOpt (Regex.lit "#"))
       (Regex.Alt
          (Regex.seq [hexChar; hexChar; hexChar])
          (Regex.seq [hexChar; hexChar; hexChar; hexChar; hexChar; hexChar]))).

Definition validateHexColor (color : string) : bool :=
  Regex.test hexColorRegex color.

(** ** The paragraph-style compiler ([buildUpdateParagraphStyleRequest]) *)

Inductive Alignment := LEFT | CENTER | RIGHT | JUSTIFIED.

Inductive NamedStyleType :=
| NORMAL_TEXT | TITLE | SUBTITLE
| HEADING_1 | HEADING_2 | HEADING_3 | HEADING_4 | HEADING_5 | HEADING_6.

(** [ParagraphStyleArgs]: every property is optional. *)
Record ParagraphStyleArgs := {
  alignment : option Alignment;
  indentStart : option Q;
  indentEnd : option Q;
  spaceAbove : option Q;
  spaceBelow : option Q;
  namedStyleType : option NamedStyleType;
  keepWithNext : option bool
}.

(** [Schema$ParagraphStyle], with the properties that the builder
    writes. *)
Record ParagraphStyle := {
  ps_alignment : option Alignment;
  ps_indentStart : option Dimension;
  ps_indentEnd : option Dimension;
  ps_spaceAbove : option Dimension;
  ps_spaceBelow : option Dimension;
  ps_namedStyleType : option NamedStyleType;
  ps_keepWithNext : option bool
}.

(** The [updateParagraphStyle] member of the request that the builder
    returns. *)
Record UpdateParagraphStyle := {
  ups_range : Range;
  ups_paragraphStyle : ParagraphStyle;
  ups_fields : string
}.

Definition points (q : Q) : Dimension :=
  {| dim_magnitude := q; dim_unit := "PT" |}.

(** The names pushed to [fieldsToUpdate], one [if] of the source after
    the other. *)
Definition paragraphFields (style : ParagraphStyleArgs) : list string :=
  let fieldsToUpdate := [] in
  let fieldsToUpdate :=
    if isSome (alignment style) then fieldsToUpdate ++ ["alignment"]
    else fieldsToUpdate in
  let fieldsToUpdate :=
    if isSome (indentStart style) then fieldsToUpdate ++ ["indentStart"]
    else fieldsToUpdate in
  let fieldsToUpdate :=
    if isSome (indentEnd style) then fieldsToUpdate ++ ["indentEnd"]
    else fieldsToUpdate in
  let fieldsToUpdate :=
    if isSome (spaceAbove style) then fieldsToUpdate ++ ["spaceAbove"]
    else fieldsToUpdate in
  let fieldsToUpdate :=
    if isSome (spaceBelow style) then fieldsToUpdate ++ ["spaceBelow"]
    else fieldsToUpdate in
  let fieldsToUpdate :=
    if isSome (namedStyleType style) then fieldsToUpdate ++ ["namedStyleType"]
    else fieldsToUpdate in
  let fieldsToUpdate :=
    if isSome (keepWithNext style) then fieldsToUpdate ++ ["keepWithNext"]
    else fieldsToUpdate in
  fieldsToUpdate.

(** [buildUpdateParagraphStyleRequest]: every property that is set is
    copied, a length as a number of points; [null] when no property is
    set.  The console lines are left out. *)
Definition buildUpdateParagraphStyleRequest (startIndex endIndex : Z)
  (style : ParagraphStyleArgs) : option (UpdateParagraphStyle * list string) :=
  let paragraphStyle :=
    {| ps_alignment := alignment style;
       ps_indentStart := option_map points (indentStart style);
       ps_indentEnd := option_map points (indentEnd style);
       ps_spaceAbove := option_map points (spaceAbove style);
       ps_spaceBelow := option_map points (spaceBelow style);
       ps_namedStyleType := namedStyleType style;
       ps_keepWithNext := keepWithNext style |} in
  let fieldsToUpdate := paragraphFields style in
  if JS.alen fieldsToUpdate =? 0 then None
  else
    let request :=
      {| ups_range := {| range_start := startIndex; range_end := endIndex |};
         ups_paragraphStyle := paragraphStyle;
         ups_fields := join "," fieldsToUpdate |} in
    Some (request, fieldsToUpdate).

(** ** Text insertion ([insertText]) *)

Definition insertText (docs : Docs) (documentId text : string) (index : Z)
  : M Response :=
  if negb (JS.truthyString text) then ret emptyResponse
  else
    let request := InsertText index text in
    executeBatchUpdate docs documentId [request].

(** ** The [applyTextStyle] tool of [FormattingTools.ts] *)

(** The target of the tool: a range, or the instance of a text. *)
Inductive TextTarget :=
| TargetRange (startIndex endIndex : Z)
| TargetText (textToFind : string) (matchInstance : Z).

(** [await] of a helper whose loop is run with fuel: the rest of the
    tool runs on its result, and a loop that does not end keeps the tool
    from going on. *)
Definition awaitRun {A B : Type} (m : M (Run A)) (k : A -> M (Run B))
  : M (Run B) :=
  r <- m ;;
  match r with
  | Done a => k a
  | Looping => ret Looping
  end.

(** The [execute] function of the tool, after the client is obtained.
    The two variables [startIndex] and [endIndex] are read from the
    target, where only a range has them, and overwritten by the range of
    the text when the target is a text.  The lines of the tool's log are
    left out; no helper called here throws a [NotImplementedError]. *)
Definition applyTextStyle (fuel : nat) (docs : Docs) (documentId : string)
  (target : TextTarget) (style : TextStyleArgs) : M (Run string) :=
  let '(startIndex, endIndex) :=
    match target with
    | TargetRange s e => (Some s, Some e)
    | TargetText _ _ => (None, None)
    end in
  tryCatch
    (awaitRun
       (match target with
        | TargetText textToFind matchInstance =>
            awaitRun
              (findTextRange fuel docs documentId textToFind matchInstance)
              (fun range =>
                 match range with
                 | None =>
                     throw (UserError (strcat
                       ["Could not find instance ";
                        numberToString matchInstance; " of text "; dquote;
                        textToFind; dquote; "."]))
                 | Some r =>
                     ret (Done (Some (range_start r), Some (range_end r)))
                 end)
        | TargetRange _ _ => ret (Done (startIndex, endIndex))
        end)
       (fun '(startIndex, endIndex) =>
          match startIndex, endIndex with
          | Some s, Some e =>
              if e <=? s then
                throw (UserError
                  "End index must be greater than start index for styling.")
              else
                requestInfo <- lift (buildUpdateTextStyleRequest s e style) ;;
                match requestInfo with
                | None =>
                    ret (Done "No valid text styling options were provided.")
                | Some (request, fields) =>
                    executeBatchUpdate docs documentId [request] ;;;
                    ret (Done (strcat
                      ["Successfully applied text style (";
                       join ", " fields; ") to range "; numberToString s;
                       "-"; numberToString e; "."]))
                end
          | _, _ =>
              throw (UserError "Target range could not be determined.")
          end))
    (fun error =>
       if isUserError error then throw error
       else throw (UserError (strcat ["Failed to apply text style: ";
                                      messageOrUnknown error]))).

(** ** The [appendToGoogleDoc] tool of [DocumentTools.ts] *)

(** The index at which the tool inserts: one below the end of the last
    element of the body, [1] when there is none to read. *)
Definition appendIndex (body : Body) : Z :=
  match body with
  | Some content =>
      match JS.arrayGet content (JS.alen content - 1) with
      | Some lastElement =>
          match endIndex lastElement with
          | Some e => if e =? 0 then 1 else e - 1
          | None => 1
          end
      | None => 1
      end
  | None => 1
  end.

(** The [execute] function of the tool, after the client is obtained;
    the lines of the tool's log are left out. *)
Definition appendToGoogleDoc (docs : Docs) (documentId textToAppend : string)
  (addNewlineIfNeeded : bool) : M string :=
  tryCatch
    (body <- documentsGet docs documentId ;;
     let endIndex := appendIndex body in
     let textToInsert :=
       ((if addNewlineIfNeeded && (endIndex >? 1) then newline else "")
        ++ textToAppend)%string in
     if negb (JS.truthyString textToInsert) then ret "Nothing to append."
     else
       let request := InsertText endIndex textToInsert in
       executeBatchUpdate docs documentId [request] ;;;
       ret (strcat ["Successfully appended text to document "; documentId;
                    "."]))
    (fun error =>
       if isUserError error then throw error
       else throw (UserError (strcat ["Failed to append to doc: ";
                                      messageOrUnknown error]))).

(** ** Utilities of [utils/errorHandling.ts] *)

Definition backslash : ascii := ascii_of_nat 92.
Definition quote : ascii := ascii_of_nat 39.

(** [s.replace(/c/g, replacement)] for a pattern of one character and a
    replacement without [$]. *)
Fixpoint replaceAll (c : ascii) (replacement s : string) : string :=
  match s with
  | EmptyString => EmptyString
  | String x s' =>
      if Ascii.eqb x c then (replacement ++ replaceAll c replacement s')%string
      else String x (replaceAll c replacement s')
  end.

(** [escapeDriveQuery]: the backslashes first, then the single quotes. *)
Definition escapeDriveQuery (input : string) : string :=
  replaceAll quote (String backslash (String quote EmptyString))
    (replaceAll backslash (String backslash (String backslash EmptyString))
       input).

(** * The vocabulary of the further properties *)

(** [r] is the range of a paragraph of the tree under [e]: of [e]
    itself, or of an element in the cells of [e] or below. *)
Inductive paragraphRangeUnder : Range -> StructuralElement -> Prop :=
| paragraph_here (e : StructuralElement) (s en : Z) (p : Paragraph) :
    startIndex e = Some s -> endIndex e = Some en -> paragraph e = Some p ->
    paragraphRangeUnder {| range_start := s; range_end := en |} e
| paragraph_below (e e' : StructuralElement) (r : Range) :
    cellElementOf e' e -> paragraphRangeUnder r e' ->
    paragraphRangeUnder r e.

(** The element has both indices and they hold [i]. *)
Definition holdsIndex (i : Z) (e : StructuralElement) : Prop :=
  exists s en, startIndex e = Some s /\ endIndex e = Some en /\ s <= i < en.

(** The properties of a paragraph style intent, in the order of the
    source, with the names of the remote service, which are the same. *)
Inductive ParagraphProperty :=
| PAlignment | PIndentStart | PIndentEnd | PSpaceAbove | PSpaceBelow
| PNamedStyleType | PKeepWithNext.

Definition allParagraphProperties : list ParagraphProperty :=
  [PAlignment; PIndentStart; PIndentEnd; PSpaceAbove; PSpaceBelow;
   PNamedStyleType; PKeepWithNext].

Definition paragraphPropertySet (style : ParagraphStyleArgs)
  (p : ParagraphProperty) : bool :=
  match p with
  | PAlignment => isSome (alignment style)
  | PIndentStart => isSome (indentStart style)
  | PIndentEnd => isSome (indentEnd style)
  | PSpaceAbove => isSome (spaceAbove style)
  | PSpaceBelow => isSome (spaceBelow style)
  | PNamedStyleType => isSome (namedStyleType style)
  | PKeepWithNext => isSome (keepWithNext style)
  end.

Definition paragraphPropertyName (p : ParagraphProperty) : string :=
  match p with
  | PAlignment => "alignment"
  | PIndentStart => "indentStart"
  | PIndentEnd => "indentEnd"
  | PSpaceAbove => "spaceAbove"
  | PSpaceBelow => "spaceBelow"
  | PNamedStyleType => "namedStyleType"
  | PKeepWithNext => "keepWithNext"
  end.

(** A byte of a colour as a channel. *)
Definition channel (byte : Z) : Q := byte # 255.

(** A text made of digits of radix 16 only. *)
Definition hexNumeral (s : string) : Prop :=
  Forall (fun c => exists v, JS.hexDigit c = Some v) (list_ascii_of_string s).

(** The optional [#] in front of a colour. *)
Definition hashed (hash : bool) (digits : string) : string :=
  if hash then String "#" digits else digits.

(** The reading of an escaped text: a backslash gives the character
    after it. *)
Fixpoint unescape (s : string) : string :=
  match s with
  | EmptyString => EmptyString
  | String x s' =>
      if Ascii.eqb x backslash then
        match s' with
        | EmptyString => EmptyString
        | String y s'' => String y (unescape s'')
        end
      else String x (unescape s')
  end.

(** A text in which every single quote and every backslash is the second
    character of a pair that a backslash opens. *)
Inductive wellEscaped : string -> Prop :=
| escaped_end : wellEscaped EmptyString
| escaped_plain (c : ascii) (s : string) :
    c <> backslash -> c <> quote -> wellEscaped s ->
    wellEscaped (String c s)
| escaped_pair (c : ascii) (s : string) :
    wellEscaped s -> wellEscaped (String backslash (String c s)).

(** A request that changes the text: a deletion of a range that is not
    empty, or an insertion of a text that is not empty. *)
Definition editsSomething (r : Request) : Prop :=
  match r with
  | DeleteContentRange range => range_start range < range_end range
  | InsertText _ text => text <> ""
  | _ => False
  end.

(** The calls of [updateTableCellContent] after the fetch: none for an
    empty list of requests. *)
Definition submission (documentId : string) (requests : list Request)
  : list NetworkCall :=
  match requests with
  | [] => []
  | _ :: _ => [DocumentsBatchUpdate documentId requests]
  end.

(** A call of the network that, when it is a batch update, submits one
    text-style request over a range that is not empty. *)
Definition stylesNonEmptyRange (c : NetworkCall) : Prop :=
  match c with
  | DocumentsGet _ => True
  | DocumentsBatchUpdate _ requests =>
      exists r ts mask,
        requests = [UpdateTextStyle r ts mask]
        /\ range_start r < range_end r
  end.

(** A table whose second row has one cell less than its first. *)
Definition shortRowTable : Body :=
  Some [ tableOf 2 17
           [ rowOf [cellOf 4 6 lineFeed; cellOf 6 8 lineFeed;
                    cellOf 8 10 lineFeed];
             rowOf [cellOf 11 13 lineFeed; cellOf 13 15 lineFeed] ] ].

(** A remote service that rejects every call with the given error. *)
Definition rejectingDocs (e : ApiError) : Docs :=
  {| documents_get := fun _ => inl e;
     documents_batchUpdate := fun _ _ => inl e |}.

Definition notFound404 : ApiError :=
  {| code := 404; message := "Requested entity was not found.";
     responseData := None; details := None |}.

(** * Properties *)

(** ** The batch submission gateway *)

Lemma alen_zero_iff (A : Type) (l : list A) : JS.alen l = 0 <-> l = [].
Proof.
  unfold JS.alen. destruct l; simpl; split; intros H; try reflexivity;
    try discriminate; lia.
Qed.

(** An empty batch returns [{}] and leaves the world as it was. *)
Lemma executeBatchUpdate_empty (docs : Docs) (documentId : string) (w : World) :
  executeBatchUpdate docs documentId [] w = (Ok emptyResponse, w).
Proof. reflexivity. Qed.

(** What a non-empty batch does to the network log: one call, whatever
    the size of the batch. *)
Lemma executeBatchUpdate_network (docs : Docs) (documentId : string)
  (requests : list Request) (w : World) :
  requests <> [] ->
  network (snd (executeBatchUpdate docs documentId requests w))
  = network w ++ [DocumentsBatchUpdate documentId requests].
Proof.
  intros Hne. unfold executeBatchUpdate.
  destruct (JS.alen requests =? 0) eqn:E.
  - apply Z.eqb_eq, alen_zero_iff in E. contradiction.
  - unfold bind, tryCatch, documentsBatchUpdate, call, consoleWarn,
      consoleError, throw, ret.
    destruct (JS.alen requests >? MAX_BATCH_UPDATE_REQUESTS);
      destruct (documents_batchUpdate docs documentId requests);
      reflexivity.
Qed.

(** The answer of the remote service is the answer of the gateway. *)
Lemma executeBatchUpdate_accepted (docs : Docs) (documentId : string)
  (requests : list Request) (w : World) (resp : Response) :
  requests <> [] ->
  documents_batchUpdate docs documentId requests = inr resp ->
  fst (executeBatchUpdate docs documentId requests w) = Ok resp.
Proof.
  intros Hne Hr. unfold executeBatchUpdate.
  destruct (JS.alen requests =? 0) eqn:E.
  - apply Z.eqb_eq, alen_zero_iff in E. contradiction.
  - unfold bind, tryCatch, documentsBatchUpdate, call, consoleWarn, ret.
    rewrite Hr.
    destruct (JS.alen requests >? MAX_BATCH_UPDATE_REQUESTS); reflexivity.
Qed.

(** C1, as the specification states it, fails: a batch of 51 requests is
    not rejected.  It is sent to the remote service in one call, and the
    answer of the service is returned. *)
Lemma executeBatchUpdate_51_is_submitted :
  JS.alen (batchOf 51) = 51
  /\ executeBatchUpdate acceptingDocs "doc" (batchOf 51) initialWorld
     = (Ok emptyResponse,
        {| network := [DocumentsBatchUpdate "doc" (batchOf 51)];
           console := [overLimitWarning (batchOf 51)] |}).
Proof. split; reflexivity. Qed.

(** C1, amended: a batch of more than [MAX_BATCH_UPDATE_REQUESTS] (50)
    requests is not rejected; the gateway writes one warning to the
    console and submits the whole batch in a single network call, whose
    answer it returns.  An empty batch is a success with no network call
    and no console line. *)
Theorem executeBatchUpdate_limit_is_a_warning :
  forall (docs : Docs) (documentId : string) (requests : list Request)
         (w : World),
    (JS.alen requests > MAX_BATCH_UPDATE_REQUESTS ->
       let out := executeBatchUpdate docs documentId requests w in
       network (snd out)
       = network w ++ [DocumentsBatchUpdate documentId requests]
       /\ (exists rest,
              console (snd out)
              = console w ++ overLimitWarning requests :: rest)
       /\ (forall resp,
              documents_batchUpdate docs documentId requests = inr resp ->
              out = (Ok resp,
                     {| network := network w
                                   ++ [DocumentsBatchUpdate documentId requests];
                        console := console w ++ [overLimitWarning requests] |})))
    /\ (requests = [] ->
        executeBatchUpdate docs documentId requests w = (Ok emptyResponse, w)).
Proof.
  intros docs documentId requests w. split.
  - intros Hbig out.
    assert (Hne : requests <> []).
    { intros ->. unfold MAX_BATCH_UPDATE_REQUESTS, JS.alen in Hbig.
      simpl in Hbig. lia. }
    split; [apply executeBatchUpdate_network; exact Hne|].
    subst out. unfold executeBatchUpdate.
    destruct (JS.alen requests =? 0) eqn:E.
    { apply Z.eqb_eq, alen_zero_iff in E. contradiction. }
    apply Z.gt_lt, Z.gtb_lt in Hbig. rewrite Hbig.
    unfold bind, tryCatch, documentsBatchUpdate, call, consoleWarn,
      consoleError, throw, ret, overLimitWarning. simpl.
    destruct (documents_batchUpdate docs documentId requests) as [e|r].
    + split; [|intros resp H; discriminate].
      eexists. cbn [snd console]. rewrite <- app_assoc. reflexivity.
    + split; [exists []; reflexivity|]. intros resp H.
      injection H as ->. reflexivity.
  - intros ->. reflexivity.
Qed.

Lemma executeBatchUpdate_limit_witness :
  network (snd (executeBatchUpdate acceptingDocs "doc" (batchOf 51)
                  initialWorld))
  = network initialWorld ++ [DocumentsBatchUpdate "doc" (batchOf 51)].
Proof.
  apply (executeBatchUpdate_limit_is_a_warning acceptingDocs "doc"
           (batchOf 51) initialWorld).
  vm_compute. reflexivity.
Defined.

(** ** The table locator *)

Lemma firstRowLength_columnsOfFirstRow (t : Table) :
  firstRowLength (JS.orEmpty (tableRows t)) = columnsOfFirstRow t.
Proof.
  unfold firstRowLength, columnsOfFirstRow.
  destruct (JS.orEmpty (tableRows t)) as [|row rest]; [reflexivity|].
  simpl. destruct (tableCells row); reflexivity.
Qed.

Lemma forEach_pushTable (c : list StructuralElement) (acc : list TableInfo) :
  forEach pushTable c acc = acc ++ tableInfos c.
Proof.
  unfold forEach. revert acc.
  induction c as [|element c IH]; intros acc; simpl.
  - now rewrite app_nil_r.
  - rewrite IH. unfold pushTable.
    destruct (table element) as [t|]; [|reflexivity].
    destruct (startIndex element) as [s|]; [|reflexivity].
    destruct (endIndex element) as [e|]; [|reflexivity].
    rewrite firstRowLength_columnsOfFirstRow, <- app_assoc. reflexivity.
Qed.

Lemma findTables_fetched (docs : Docs) (documentId : string)
  (c : list StructuralElement) (w : World) :
  documents_get docs documentId = inr (Some c) ->
  fst (findTables docs documentId w) = Ok (tableInfos c).
Proof.
  intros H. unfold findTables, tryCatch, bind, documentsGet, call, ret.
  rewrite H. simpl. now rewrite forEach_pushTable.
Qed.

Lemma tableStructureLoop_found (c : list StructuralElement)
  (tableStartIndex : Z) (ts : TableStructure) :
  tableStructureLoop c tableStartIndex = Some ts ->
  exists pre element post t,
    c = pre ++ element :: post
    /\ noTableAt tableStartIndex pre
    /\ table element = Some t
    /\ startIndex element = Some tableStartIndex
    /\ ts = tableStructureOf element t.
Proof.
  induction c as [|e c IH]; simpl; [discriminate|].
  destruct (table e) as [t|] eqn:Ht.
  - destruct (strictEq (startIndex e) tableStartIndex) eqn:Hs.
    + intros [= <-]. exists [], e, c, t.
      repeat split; try assumption; [constructor|].
      unfold strictEq in Hs. destruct (startIndex e) as [v|]; [|discriminate].
      apply Z.eqb_eq in Hs. now subst.
    + intros H. destruct (IH H) as (pre & el & post & t' & -> & Hp & R).
      exists (e :: pre), el, post, t'. split; [reflexivity|].
      split; [constructor; [now right|exact Hp]|exact R].
  - intros H. destruct (IH H) as (pre & el & post & t' & -> & Hp & R).
    exists (e :: pre), el, post, t'. split; [reflexivity|].
    split; [constructor; [now left|exact Hp]|exact R].
Qed.

Lemma getTableStructure_fetched (docs : Docs) (documentId : string)
  (c : list StructuralElement) (tableStartIndex : Z) (w : World) :
  documents_get docs documentId = inr (Some c) ->
  fst (getTableStructure docs documentId tableStartIndex w)
  = Ok (tableStructureLoop c tableStartIndex).
Proof.
  intros H. unfold getTableStructure, tryCatch, bind, documentsGet, call, ret.
  rewrite H. reflexivity.
Qed.

Lemma arrayGet_bounds (A : Type) (l : list A) (i : Z) (x : A) :
  JS.arrayGet l i = Some x -> 0 <= i < JS.alen l.
Proof.
  unfold JS.arrayGet, JS.alen. destruct (i <? 0) eqn:E; [discriminate|].
  apply Z.ltb_ge in E. intros H.
  assert (Hn : nth_error l (Z.to_nat i) <> None) by (rewrite H; discriminate).
  apply nth_error_Some in Hn. lia.
Qed.

Lemma cellRangeLoop_skip (pre rest : list StructuralElement)
  (tableStartIndex rowIndex columnIndex : Z) :
  noTableAt tableStartIndex pre ->
  cellRangeLoop (pre ++ rest) tableStartIndex rowIndex columnIndex
  = cellRangeLoop rest tableStartIndex rowIndex columnIndex.
Proof.
  induction 1 as [|e pre He _ IH]; [reflexivity|]. simpl.
  destruct He as [-> | He]; [exact IH|].
  rewrite He. destruct (table e); exact IH.
Qed.

Lemma tableStructureLoop_skip (pre rest : list StructuralElement)
  (tableStartIndex : Z) :
  noTableAt tableStartIndex pre ->
  tableStructureLoop (pre ++ rest) tableStartIndex
  = tableStructureLoop rest tableStartIndex.
Proof.
  induction 1 as [|e pre He _ IH]; [reflexivity|]. simpl.
  destruct He as [-> | He]; [exact IH|].
  rewrite He. destruct (table e); exact IH.
Qed.

Lemma strictEq_same (v : Z) : strictEq (Some v) v = true.
Proof. apply Z.eqb_refl. Qed.

(** The structure that the tool works on, for a table that is found. *)
Lemma tableStructureLoop_at (pre post : list StructuralElement)
  (element : StructuralElement) (t : Table) (tableStartIndex : Z) :
  noTableAt tableStartIndex pre ->
  table element = Some t ->
  startIndex element = Some tableStartIndex ->
  tableStructureLoop (pre ++ element :: post) tableStartIndex
  = Some (tableStructureOf element t).
Proof.
  intros Hpre Ht Hs. rewrite tableStructureLoop_skip by exact Hpre. simpl.
  now rewrite Ht, Hs, strictEq_same.
Qed.

(** C10: the column count that [findTables] and [getTableStructure]
    report for a table is the number of cells of its first row, and [0]
    for a table without rows; the rows after the first have no part in
    it.  The lookup of a table that the document has at the index asked
    for does return its structure, with that column count, and a
    structure that is returned is that of such a table. *)
Theorem column_count_is_first_row_length :
  forall (docs : Docs) (documentId : string) (c : list StructuralElement)
         (w : World),
    documents_get docs documentId = inr (Some c) ->
    fst (findTables docs documentId w) = Ok (tableInfos c)
    /\ (forall pre element post t tableStartIndex,
           c = pre ++ element :: post ->
           noTableAt tableStartIndex pre ->
           table element = Some t ->
           startIndex element = Some tableStartIndex ->
           exists ts,
             fst (getTableStructure docs documentId tableStartIndex w)
             = Ok (Some ts)
             /\ tst_columns ts = columnsOfFirstRow t
             /\ tst_rows ts = rowsOf t)
    /\ (forall tableStartIndex ts,
           fst (getTableStructure docs documentId tableStartIndex w)
           = Ok (Some ts) ->
           exists element t,
             In element c /\ table element = Some t
             /\ startIndex element = Some tableStartIndex
             /\ tst_columns ts = columnsOfFirstRow t)
    /\ (forall row rest rest',
           columnsOfFirstRow {| tableRows := Some (row :: rest) |}
           = columnsOfFirstRow {| tableRows := Some (row :: rest') |}
           /\ firstRowLength (row :: rest) = firstRowLength (row :: rest'))
    /\ columnsOfFirstRow {| tableRows := Some [] |} = 0
    /\ columnsOfFirstRow {| tableRows := None |} = 0.
Proof.
  intros docs documentId c w Hget.
  split; [now apply findTables_fetched|].
  split; [|split; [|repeat split]].
  - intros pre element post t tsi Hc Hpre Ht Hs.
    exists (tableStructureOf element t). split; [|split].
    + rewrite (getTableStructure_fetched docs documentId c tsi w Hget).
      rewrite Hc. f_equal. now apply tableStructureLoop_at.
    + simpl. apply firstRowLength_columnsOfFirstRow.
    + reflexivity.
  - intros tsi ts H.
    rewrite (getTableStructure_fetched docs documentId c tsi w Hget) in H.
    injection H as H.
    destruct (tableStructureLoop_found _ _ _ H)
      as (pre & element & post & t & -> & _ & Ht & Hs & ->).
    exists element, t. repeat split; try assumption.
    + apply in_or_app. right. now left.
    + simpl. apply firstRowLength_columnsOfFirstRow.
Qed.

Lemma column_count_witness :
  fst (findTables (docsOf raggedTable) "doc" initialWorld)
  = Ok [{| ti_startIndex := 2; ti_endIndex := 21; ti_rows := 2;
           ti_columns := 3 |}]
  /\ exists ts,
       fst (getTableStructure (docsOf raggedTable) "doc" 2 initialWorld)
       = Ok (Some ts)
       /\ tst_columns ts = 3
       /\ tst_rows ts = 2.
Proof.
  pose proof (column_count_is_first_row_length (docsOf raggedTable) "doc"
                (JS.orEmpty raggedTable) initialWorld eq_refl)
    as (Hfind & Hlookup & _).
  split; [exact Hfind|].
  refine (Hlookup []
            (tableOf 2 21
               [ rowOf [cellOf 4 6 lineFeed; cellOf 6 8 lineFeed;
                        cellOf 8 10 lineFeed];
                 rowOf [cellOf 11 13 lineFeed; cellOf 13 15 lineFeed;
                        cellOf 15 17 lineFeed; cellOf 17 20 lineFeed] ])
            []
            {| tableRows :=
                 Some [ rowOf [cellOf 4 6 lineFeed; cellOf 6 8 lineFeed;
                               cellOf 8 10 lineFeed];
                        rowOf [cellOf 11 13 lineFeed; cellOf 13 15 lineFeed;
                               cellOf 15 17 lineFeed;
                               cellOf 17 20 lineFeed] ] |}
            2 eq_refl _ eq_refl eq_refl).
  constructor.
Defined.

(** The loop of [getTableCellRange] at the table it looks for. *)
Lemma cellRangeLoop_row_out_of_bounds (element : StructuralElement)
  (post : list StructuralElement) (t : Table)
  (tableStartIndex rowIndex columnIndex : Z) :
  table element = Some t ->
  startIndex element = Some tableStartIndex ->
  rowIndex >= rowsOf t ->
  cellRangeLoop (element :: post) tableStartIndex rowIndex columnIndex
  = Throw (UserError (rowOutOfBounds rowIndex (rowsOf t))).
Proof.
  intros Ht Hs Hr. simpl. rewrite Ht, Hs, strictEq_same.
  unfold rowsOf in *.
  destruct (rowIndex >=? JS.alen (JS.orEmpty (tableRows t))) eqn:E;
    [reflexivity|].
  rewrite Z.geb_leb in E. apply Z.leb_gt in E. lia.
Qed.

Lemma cellRangeLoop_column_out_of_bounds (element : StructuralElement)
  (post : list StructuralElement) (t : Table) (row : TableRow)
  (tableStartIndex rowIndex columnIndex : Z) :
  table element = Some t ->
  startIndex element = Some tableStartIndex ->
  JS.arrayGet (JS.orEmpty (tableRows t)) rowIndex = Some row ->
  columnIndex >= JS.alen (JS.orEmpty (tableCells row)) ->
  cellRangeLoop (element :: post) tableStartIndex rowIndex columnIndex
  = Throw (UserError (columnOutOfBounds columnIndex
                        (JS.alen (JS.orEmpty (tableCells row))))).
Proof.
  intros Ht Hs Hrow Hc. simpl. rewrite Ht, Hs, strictEq_same.
  pose proof (arrayGet_bounds _ _ _ _ Hrow) as Hb.
  destruct (rowIndex >=? JS.alen (JS.orEmpty (tableRows t))) eqn:E.
  { rewrite Z.geb_leb in E. apply Z.leb_le in E. lia. }
  rewrite Hrow.
  destruct (columnIndex >=? JS.alen (JS.orEmpty (tableCells row))) eqn:E2;
    [reflexivity|].
  rewrite Z.geb_leb in E2. apply Z.leb_gt in E2. lia.
Qed.

Lemma cellRangeLoop_found (element : StructuralElement)
  (post : list StructuralElement) (t : Table) (row : TableRow)
  (cell : TableCell) (tableStartIndex rowIndex columnIndex s e : Z) :
  table element = Some t ->
  startIndex element = Some tableStartIndex ->
  JS.arrayGet (JS.orEmpty (tableRows t)) rowIndex = Some row ->
  JS.arrayGet (JS.orEmpty (tableCells row)) columnIndex = Some cell ->
  cell_startIndex cell = Some s ->
  cell_endIndex cell = Some e ->
  cellRangeLoop (element :: post) tableStartIndex rowIndex columnIndex
  = Ok (Some {| range_start := s; range_end := e - 1 |}).
Proof.
  intros Ht Hs Hrow Hcell Hcs Hce. simpl. rewrite Ht, Hs, strictEq_same.
  pose proof (arrayGet_bounds _ _ _ _ Hrow) as Hb.
  pose proof (arrayGet_bounds _ _ _ _ Hcell) as Hb2.
  destruct (rowIndex >=? JS.alen (JS.orEmpty (tableRows t))) eqn:E.
  { rewrite Z.geb_leb in E. apply Z.leb_le in E. lia. }
  rewrite Hrow.
  destruct (columnIndex >=? JS.alen (JS.orEmpty (tableCells row))) eqn:E2.
  { rewrite Z.geb_leb in E2. apply Z.leb_le in E2. lia. }
  rewrite Hcell, Hcs, Hce. reflexivity.
Qed.

Lemma getTableCellRange_fetched (docs : Docs) (documentId : string)
  (c : list StructuralElement) (tableStartIndex rowIndex columnIndex : Z)
  (w : World) :
  documents_get docs documentId = inr (Some c) ->
  fst (getTableCellRange docs documentId tableStartIndex rowIndex columnIndex w)
  = cellRangeLoop c tableStartIndex rowIndex columnIndex.
Proof.
  intros H.
  unfold getTableCellRange, tryCatch, bind, documentsGet, call, lift,
    consoleError, throw.
  rewrite H.
  destruct (cellRangeLoop c tableStartIndex rowIndex columnIndex);
    reflexivity.
Qed.

Lemma getTableCellRange_ok (docs : Docs) (documentId : string)
  (c : list StructuralElement) (tableStartIndex rowIndex columnIndex : Z)
  (w : World) (r : option Range) :
  documents_get docs documentId = inr (Some c) ->
  cellRangeLoop c tableStartIndex rowIndex columnIndex = Ok r ->
  getTableCellRange docs documentId tableStartIndex rowIndex columnIndex w
  = (Ok r, {| network := network w ++ [DocumentsGet documentId];
              console := console w |}).
Proof.
  intros H Hr.
  unfold getTableCellRange, tryCatch, bind, documentsGet, call, lift.
  rewrite H, Hr. reflexivity.
Qed.

(** The [getTableCell] tool, once the structure of the table is known. *)
Lemma getTableCell_row_out_of_bounds (docs : Docs) (documentId : string)
  (c : list StructuralElement) (tableIndex rowIndex columnIndex : Z)
  (w : World) (ts : TableStructure) :
  documents_get docs documentId = inr (Some c) ->
  tableStructureLoop c tableIndex = Some ts ->
  rowIndex >= tst_rows ts ->
  fst (getTableCell docs documentId tableIndex rowIndex columnIndex w)
  = Throw (UserError (toolRowOutOfBounds rowIndex (tst_rows ts))).
Proof.
  intros H Hts Hr.
  unfold getTableCell, getTableStructure, tryCatch, bind, documentsGet, call,
    ret, throw.
  rewrite H, Hts.
  destruct (rowIndex >=? tst_rows ts) eqn:E; [reflexivity|].
  rewrite Z.geb_leb in E. apply Z.leb_gt in E. lia.
Qed.

Lemma getTableCell_column_out_of_bounds (docs : Docs) (documentId : string)
  (c : list StructuralElement) (tableIndex rowIndex columnIndex : Z)
  (w : World) (ts : TableStructure) :
  documents_get docs documentId = inr (Some c) ->
  tableStructureLoop c tableIndex = Some ts ->
  rowIndex < tst_rows ts ->
  columnIndex >= tst_columns ts ->
  fst (getTableCell docs documentId tableIndex rowIndex columnIndex w)
  = Throw (UserError (toolColumnOutOfBounds columnIndex (tst_columns ts))).
Proof.
  intros H Hts Hr Hc.
  unfold getTableCell, getTableStructure, tryCatch, bind, documentsGet, call,
    ret, throw.
  rewrite H, Hts.
  destruct (rowIndex >=? tst_rows ts) eqn:E.
  { rewrite Z.geb_leb in E. apply Z.leb_le in E. lia. }
  destruct (columnIndex >=? tst_columns ts) eqn:E2; [reflexivity|].
  rewrite Z.geb_leb in E2. apply Z.leb_gt in E2. lia.
Qed.

(** C8, as the specification states it, fails for [getTableCellRange]:
    in a table whose second row has four cells and whose first has three,
    the reported column count is 3, and the lookup of cell (1,3) returns
    a range, because the helper tests the column index against the cells
    of the addressed row. *)
Lemma getTableCellRange_ragged_row_no_error :
  fst (findTables (docsOf raggedTable) "doc" initialWorld)
  = Ok [{| ti_startIndex := 2; ti_endIndex := 21; ti_rows := 2;
           ti_columns := 3 |}]
  /\ fst (getTableCellRange (docsOf raggedTable) "doc" 2 1 3 initialWorld)
     = Ok (Some {| range_start := 17; range_end := 19 |}).
Proof. split; reflexivity. Qed.

(** C8, amended: in a lookup of a cell of the table that starts at the
    given index, a row index at or above the number of rows fails with an
    explicit out-of-bounds error, and so does a column index at or above
    the column bound, which is the cell count of the first row in the
    [getTableCell] tool and the cell count of the addressed row in
    [getTableCellRange]; no index is clamped. *)
Theorem table_bounds_are_reported :
  forall (docs : Docs) (documentId : string) (w : World)
         (pre post : list StructuralElement) (element : StructuralElement)
         (t : Table) (tableStartIndex rowIndex columnIndex : Z),
    documents_get docs documentId = inr (Some (pre ++ element :: post)) ->
    noTableAt tableStartIndex pre ->
    table element = Some t ->
    startIndex element = Some tableStartIndex ->
    (rowIndex >= rowsOf t ->
       fst (getTableCell docs documentId tableStartIndex rowIndex
              columnIndex w)
       = Throw (UserError (toolRowOutOfBounds rowIndex (rowsOf t)))
       /\ fst (getTableCellRange docs documentId tableStartIndex rowIndex
                 columnIndex w)
          = Throw (UserError (rowOutOfBounds rowIndex (rowsOf t))))
    /\ (rowIndex < rowsOf t -> columnIndex >= columnsOfFirstRow t ->
        fst (getTableCell docs documentId tableStartIndex rowIndex
               columnIndex w)
        = Throw (UserError
                   (toolColumnOutOfBounds columnIndex (columnsOfFirstRow t))))
    /\ (forall row,
           JS.arrayGet (JS.orEmpty (tableRows t)) rowIndex = Some row ->
           columnIndex >= JS.alen (JS.orEmpty (tableCells row)) ->
           fst (getTableCellRange docs documentId tableStartIndex rowIndex
                  columnIndex w)
           = Throw (UserError
                      (columnOutOfBounds columnIndex
                         (JS.alen (JS.orEmpty (tableCells row)))))).
Proof.
  intros docs documentId w pre post element t tsi rowIndex columnIndex
    Hget Hpre Ht Hs.
  assert (Hts : tableStructureLoop (pre ++ element :: post) tsi
                = Some (tableStructureOf element t)).
  { rewrite tableStructureLoop_skip by exact Hpre. simpl.
    now rewrite Ht, Hs, strictEq_same. }
  assert (Hcols : tst_columns (tableStructureOf element t)
                  = columnsOfFirstRow t)
    by apply firstRowLength_columnsOfFirstRow.
  split; [intros Hr; split|split].
  - exact (getTableCell_row_out_of_bounds docs documentId _ tsi rowIndex
             columnIndex w _ Hget Hts Hr).
  - rewrite (getTableCellRange_fetched docs documentId _ tsi rowIndex
               columnIndex w Hget).
    rewrite cellRangeLoop_skip by exact Hpre.
    now apply cellRangeLoop_row_out_of_bounds.
  - intros Hr Hc. rewrite <- Hcols.
    apply (getTableCell_column_out_of_bounds docs documentId _ tsi rowIndex
             columnIndex w _ Hget Hts); [exact Hr|].
    rewrite Hcols. exact Hc.
  - intros row Hrow Hc.
    rewrite (getTableCellRange_fetched docs documentId _ tsi rowIndex
               columnIndex w Hget).
    rewrite cellRangeLoop_skip by exact Hpre.
    now apply cellRangeLoop_column_out_of_bounds with (t := t).
Qed.

Lemma table_bounds_witness :
  fst (getTableCell (docsOf raggedTable) "doc" 2 2 0 initialWorld)
  = Throw (UserError (toolRowOutOfBounds 2 2))
  /\ fst (getTableCellRange (docsOf raggedTable) "doc" 2 2 0 initialWorld)
     = Throw (UserError (rowOutOfBounds 2 2)).
Proof.
  refine (proj1 (table_bounds_are_reported (docsOf raggedTable) "doc"
                   initialWorld [] []
                   (tableOf 2 21
                      [ rowOf [cellOf 4 6 lineFeed; cellOf 6 8 lineFeed;
                               cellOf 8 10 lineFeed];
                        rowOf [cellOf 11 13 lineFeed; cellOf 13 15 lineFeed;
                               cellOf 15 17 lineFeed; cellOf 17 20 lineFeed] ])
                   _ 2 2 0 eq_refl _ eq_refl eq_refl) _).
  - constructor.
  - vm_compute. discriminate.
Defined.

(** C2, as the specification states it, fails: for the cell (1,2) of
    Scenario B, which spans [15, 18) and holds X, the two requests are
    the deletion of [16, 17) and the insertion at 16; the deleted range
    is not [cell.startIndex + 1, cell.endIndex), which is [16, 18). *)
Lemma updateTableCellContent_scenarioB :
  JS.arrayGet [cellOf 11 13 lineFeed; cellOf 13 15 lineFeed;
               cellOf 15 18 ("X" ++ lineFeed)%string] 2
  = Some (cellOf 15 18 ("X" ++ lineFeed)%string)
  /\ network (snd (updateTableCellContent (docsOf scenarioB) "doc" 2 1 2 "Y"
                     initialWorld))
     = [ DocumentsGet "doc";
         DocumentsBatchUpdate "doc"
           [ DeleteContentRange {| range_start := 16; range_end := 17 |};
             InsertText 16 "Y" ] ]
  /\ DeleteContentRange {| range_start := 16; range_end := 17 |}
     <> DeleteContentRange {| range_start := 15 + 1; range_end := 18 |}.
Proof. repeat split; try reflexivity. discriminate. Qed.

(** C2, amended: when the content range of the cell, which is
    [[cell.startIndex + 1, cell.endIndex - 1)], is not empty and the new
    content is not empty, exactly two requests are submitted, in this
    order: the deletion of that range, then the insertion of the new text
    at [cell.startIndex + 1]. *)
Theorem updateTableCellContent_delete_then_insert :
  forall (docs : Docs) (documentId : string) (w : World)
         (pre post : list StructuralElement) (element : StructuralElement)
         (t : Table) (row : TableRow) (cell : TableCell)
         (tableStartIndex rowIndex columnIndex s e : Z) (newContent : string),
    documents_get docs documentId = inr (Some (pre ++ element :: post)) ->
    noTableAt tableStartIndex pre ->
    table element = Some t ->
    startIndex element = Some tableStartIndex ->
    JS.arrayGet (JS.orEmpty (tableRows t)) rowIndex = Some row ->
    JS.arrayGet (JS.orEmpty (tableCells row)) columnIndex = Some cell ->
    cell_startIndex cell = Some s ->
    cell_endIndex cell = Some e ->
    e - 1 > s + 1 ->
    newContent <> "" ->
    network (snd (updateTableCellContent docs documentId tableStartIndex
                    rowIndex columnIndex newContent w))
    = network w
      ++ [ DocumentsGet documentId;
           DocumentsBatchUpdate documentId
             [ DeleteContentRange {| range_start := s + 1;
                                     range_end := e - 1 |};
               InsertText (s + 1) newContent ] ].
Proof.
  intros docs documentId w pre post element t row cell tsi rowIndex
    columnIndex s e newContent Hget Hpre Ht Hs Hrow Hcell Hcs Hce Hlen Hnew.
  unfold updateTableCellContent, bind.
  rewrite (getTableCellRange_ok docs documentId _ tsi rowIndex columnIndex w
             (Some {| range_start := s; range_end := e - 1 |}) Hget).
  2:{ rewrite cellRangeLoop_skip by exact Hpre.
      now apply cellRangeLoop_found with (t := t) (row := row) (cell := cell). }
  assert (Hreq : cellContentRequests {| range_start := s; range_end := e - 1 |}
                   newContent
                 = [ DeleteContentRange {| range_start := s + 1;
                                           range_end := e - 1 |};
                     InsertText (s + 1) newContent ]).
  { unfold cellContentRequests. cbn [range_start range_end].
    assert (Hgt : (e - 1 >? s + 1) = true) by (apply Z.gtb_lt; lia).
    rewrite Hgt. unfold JS.truthyString.
    destruct (String.eqb_spec newContent ""); [contradiction|]. reflexivity. }
  rewrite Hreq, executeBatchUpdate_network by discriminate.
  cbn [network]. rewrite <- app_assoc. reflexivity.
Qed.

Lemma updateTableCellContent_witness :
  network (snd (updateTableCellContent (docsOf scenarioB) "doc" 2 1 2 "Y"
                  initialWorld))
  = network initialWorld
    ++ [ DocumentsGet "doc";
         DocumentsBatchUpdate "doc"
           [ DeleteContentRange {| range_start := 15 + 1;
                                   range_end := 18 - 1 |};
             InsertText (15 + 1) "Y" ] ].
Proof.
  refine (updateTableCellContent_delete_then_insert (docsOf scenarioB) "doc"
            initialWorld [para 1 2 [run lineFeed 1 2]] []
            (tableOf 2 19
               [ rowOf [cellOf 4 6 lineFeed; cellOf 6 8 lineFeed;
                        cellOf 8 10 lineFeed];
                 rowOf [cellOf 11 13 lineFeed; cellOf 13 15 lineFeed;
                        cellOf 15 18 ("X" ++ lineFeed)%string] ])
            _ _ (cellOf 15 18 ("X" ++ lineFeed)%string) 2 1 2 15 18 "Y"
            eq_refl _ eq_refl eq_refl eq_refl eq_refl eq_refl eq_refl _ _).
  - constructor; [now left|constructor].
  - reflexivity.
  - discriminate.
Defined.

(** ** The text-style compiler *)

Lemma fieldName_injective (p q : Property) :
  fieldName p = fieldName q -> p = q.
Proof. destruct p, q; simpl; intros H; try reflexivity; discriminate. Qed.

Lemma setField_fields (A : Type) (arg : option A)
  (write : A -> TextStyle -> TextStyle) (name : string) (b : StyleBuild) :
  fieldsToUpdate (setField arg write name b)
  = fieldsToUpdate b ++ maybe arg name.
Proof. destruct arg; simpl; [reflexivity|now rewrite app_nil_r]. Qed.

Lemma setColor_fields (arg : option string)
  (write : RgbColor -> TextStyle -> TextStyle) (name invalid : string)
  (b b' : StyleBuild) :
  setColor arg write name invalid b = Ok b' ->
  fieldsToUpdate b' = fieldsToUpdate b ++ maybe arg name.
Proof.
  unfold setColor. destruct arg as [hex|]; simpl.
  - destruct (hexToRgbColor hex); [|discriminate]. now intros [= <-].
  - intros [= <-]. now rewrite app_nil_r.
Qed.

Lemma setColor_throws (arg : option string)
  (write : RgbColor -> TextStyle -> TextStyle) (name invalid : string)
  (b : StyleBuild) (e : Exception) :
  setColor arg write name invalid b = Throw e ->
  exists hex, arg = Some hex /\ hexToRgbColor hex = None.
Proof.
  unfold setColor. destruct arg as [hex|]; [|discriminate].
  destruct (hexToRgbColor hex) eqn:E; [discriminate|].
  intros _. now exists hex.
Qed.

Lemma collectTextStyle_fields (style : TextStyleArgs) (b : StyleBuild) :
  collectTextStyle style = Ok b ->
  fieldsToUpdate b = setProperties style.
Proof.
  unfold collectTextStyle, andThen.
  destruct (setColor (foregroundColor style) _ _ _ _) as [b1|] eqn:E1;
    [|discriminate].
  destruct (setColor (backgroundColor style) _ _ _ _) as [b2|] eqn:E2;
    [|discriminate].
  intros [= <-].
  rewrite setField_fields, (setColor_fields _ _ _ _ _ _ E2),
    (setColor_fields _ _ _ _ _ _ E1).
  rewrite !setField_fields. cbn [fieldsToUpdate app].
  unfold setProperties, allProperties. cbn [filter isSet].
  destruct (bold style), (italic style), (underline style),
    (strikethrough style), (fontSize style), (fontFamily style),
    (foregroundColor style), (backgroundColor style), (linkUrl style);
    reflexivity.
Qed.

Lemma collectTextStyle_throws (style : TextStyleArgs) (e : Exception) :
  collectTextStyle style = Throw e ->
  exists hex,
    (foregroundColor style = Some hex \/ backgroundColor style = Some hex)
    /\ hexToRgbColor hex = None.
Proof.
  unfold collectTextStyle, andThen.
  destruct (setColor (foregroundColor style) _ _ _ _) as [b1|] eqn:E1.
  - destruct (setColor (backgroundColor style) _ _ _ _) as [b2|] eqn:E2;
      [discriminate|].
    intros _. destruct (setColor_throws _ _ _ _ _ _ E2) as (hex & H1 & H2).
    exists hex. split; [now right|exact H2].
  - intros _. destruct (setColor_throws _ _ _ _ _ _ E1) as (hex & H1 & H2).
    exists hex. split; [now left|exact H2].
Qed.

Lemma in_setProperties (style : TextStyleArgs) (p : Property) :
  In (fieldName p) (setProperties style) <-> isSet style p = true.
Proof.
  unfold setProperties. rewrite in_map_iff. split.
  - intros (q & Hq & Hin). apply fieldName_injective in Hq. subst q.
    now apply filter_In in Hin.
  - intros H. exists p. split; [reflexivity|]. apply filter_In.
    split; [|exact H]. destruct p; simpl; tauto.
Qed.

(** C7: the field mask of the compiled request lists the names of the
    properties set in the intent, each once and in the order of the
    source, and nothing else; no request is compiled for an intent
    without properties, and the only failure is a colour that does not
    parse.  An intent with [bold] alone gives the mask [bold]. *)
Theorem field_mask_lists_exactly_the_set_properties :
  forall (startIndex endIndex : Z) (style : TextStyleArgs),
    match buildUpdateTextStyleRequest startIndex endIndex style with
    | Ok (Some (request, fields)) =>
        fields = setProperties style
        /\ (forall p, In (fieldName p) fields <-> isSet style p = true)
        /\ (forall name, In name fields -> exists p,
               name = fieldName p /\ isSet style p = true)
        /\ exists ts,
             request
             = UpdateTextStyle {| range_start := startIndex;
                                  range_end := endIndex |} ts
                 (join "," (setProperties style))
    | Ok None => forall p, isSet style p = false
    | Throw _ =>
        exists hex,
          (foregroundColor style = Some hex
           \/ backgroundColor style = Some hex)
          /\ hexToRgbColor hex = None
    end
    /\ buildUpdateTextStyleRequest startIndex endIndex boldOnly
       = Ok (Some (UpdateTextStyle {| range_start := startIndex;
                                      range_end := endIndex |}
                     (with_bold true emptyTextStyle) "bold",
                   ["bold"])).
Proof.
  intros s e style. split; [|reflexivity].
  unfold buildUpdateTextStyleRequest, andThen.
  destruct (collectTextStyle style) as [b|ex] eqn:E.
  - pose proof (collectTextStyle_fields _ _ E) as Hf.
    destruct (JS.alen (fieldsToUpdate b) =? 0) eqn:E0.
    + apply Z.eqb_eq, alen_zero_iff in E0. rewrite Hf in E0.
      intros p. destruct (isSet style p) eqn:Hp; [|reflexivity].
      apply in_setProperties in Hp. rewrite E0 in Hp. destruct Hp.
    + rewrite Hf. split; [reflexivity|].
      split; [intros p; apply in_setProperties|].
      split; [|now exists (textStyle b)].
      intros name Hin. unfold setProperties in Hin.
      apply in_map_iff in Hin. destruct Hin as (p & <- & Hin).
      exists p. split; [reflexivity|]. now apply filter_In in Hin.
  - exact (collectTextStyle_throws _ _ E).
Qed.

(** ** Image insertion *)

Lemma matches_Fail (s : string) : Regex.matches Regex.Fail s = false.
Proof. induction s; simpl; auto. Qed.

Lemma matches_Alt (a b : Regex.re) (s : string) :
  Regex.matches (Regex.Alt a b) s = Regex.matches a s || Regex.matches b s.
Proof. revert a b. induction s as [|c s IH]; intros a b; simpl; auto. Qed.

Lemma matches_Seq_nullable (a b : Regex.re) (s : string) :
  Regex.nullable a = true ->
  Regex.matches b s = true ->
  Regex.matches (Regex.Seq a b) s = true.
Proof.
  intros Ha Hb. destruct s as [|c s]; simpl in *.
  - now rewrite Ha, Hb.
  - rewrite matches_Alt, Ha, Hb. apply orb_true_r.
Qed.

Lemma matches_Seq_app (a b : Regex.re) (s1 s2 : string) :
  Regex.matches a s1 = true ->
  Regex.matches b s2 = true ->
  Regex.matches (Regex.Seq a b) (s1 ++ s2)%string = true.
Proof.
  revert a. induction s1 as [|c s1 IH]; intros a Ha Hb; simpl in *.
  - now apply matches_Seq_nullable.
  - rewrite matches_Alt, IH by assumption. reflexivity.
Qed.

Lemma matches_Star_any (s : string) :
  Regex.matches (Regex.Star Regex.any) s = true.
Proof.
  induction s as [|c s IH]; simpl; [reflexivity|].
  now apply matches_Seq_nullable.
Qed.

Lemma matches_seq_flat (rs : list Regex.re) (ss : list string) :
  Forall2 (fun r s => Regex.matches r s = true) rs ss ->
  Regex.matches (Regex.seq rs) (flat ss) = true.
Proof.
  induction 1 as [|r s rs ss Hr _ IH]; simpl; [reflexivity|].
  now apply matches_Seq_app.
Qed.

Lemma matches_stri (p s : string) :
  upper s = upper p -> Regex.matches (Regex.stri p) s = true.
Proof.
  revert s. induction p as [|c p IH]; intros [|x s]; simpl; try discriminate;
    [reflexivity|].
  intros [= Hc Hs]. rewrite matches_Alt. apply orb_true_iff. left.
  rewrite Hc, Ascii.eqb_refl.
  apply matches_Seq_nullable; [reflexivity|now apply IH].
Qed.

(** Every number of a dotted address is a run of digits. *)
Lemma octet_digits (n : Z) :
  isOctet n -> Regex.matches (Regex.plus Regex.digit) (octet n) = true.
Proof.
  intros [H0 H255].
  assert (Hall : forallb (fun k => Regex.matches (Regex.plus Regex.digit)
                                     (octet (Z.of_nat k)))
                   (List.seq 0 256) = true) by (vm_compute; reflexivity).
  rewrite forallb_forall in Hall.
  specialize (Hall (Z.to_nat n)). rewrite Z2Nat.id in Hall by exact H0.
  apply Hall, in_seq. lia.
Qed.

(** The second number of an address of 172.16.0.0/12. *)
Lemma octet_16_31 (n : Z) :
  16 <= n <= 31 ->
  Regex.matches
    (Regex.Alt (Regex.Seq (Regex.lit "1") (Regex.range "6" "9"))
       (Regex.Alt (Regex.Seq (Regex.lit "2") Regex.digit)
          (Regex.Seq (Regex.lit "3")
             (Regex.Alt (Regex.lit "0") (Regex.lit "1")))))
    (octet n) = true.
Proof.
  intros [H0 H1].
  assert (Hall : forallb (fun k =>
      Regex.matches
        (Regex.Alt (Regex.Seq (Regex.lit "1") (Regex.range "6" "9"))
           (Regex.Alt (Regex.Seq (Regex.lit "2") Regex.digit)
              (Regex.Seq (Regex.lit "3")
                 (Regex.Alt (Regex.lit "0") (Regex.lit "1")))))
        (octet (Z.of_nat k))) (List.seq 16 16) = true)
    by (vm_compute; reflexivity).
  rewrite forallb_forall in Hall.
  specialize (Hall (Z.to_nat n)). rewrite Z2Nat.id in Hall by lia.
  apply Hall, in_seq. lia.
Qed.

Lemma privateHost_matches (h : string) :
  privateHost h ->
  existsb (fun pattern => Regex.test pattern h) privateRanges = true.
Proof.
  intros H. apply existsb_exists.
  destruct H as [s Hs|b c d Hb Hc Hd|b c d Hb Hc Hd|b c d Hb Hc Hd
                |c d Hc Hd|c d Hc Hd| | |s rest Hs|s rest Hs].
  - exists (nth 0 privateRanges (Regex.Whole Regex.Fail)).
    split; [simpl; tauto|]. now apply matches_stri.
  - exists (nth 1 privateRanges (Regex.Whole Regex.Fail)).
    split; [simpl; tauto|]. apply matches_seq_flat.
    repeat constructor; now apply octet_digits.
  - exists (nth 2 privateRanges (Regex.Whole Regex.Fail)).
    split; [simpl; tauto|]. apply matches_seq_flat.
    repeat constructor; now apply octet_digits.
  - exists (nth 3 privateRanges (Regex.Whole Regex.Fail)).
    split; [simpl; tauto|]. apply matches_seq_flat.
    repeat constructor; try (now apply octet_digits).
    now apply octet_16_31.
  - exists (nth 4 privateRanges (Regex.Whole Regex.Fail)).
    split; [simpl; tauto|]. apply matches_seq_flat.
    repeat constructor; now apply octet_digits.
  - exists (nth 5 privateRanges (Regex.Whole Regex.Fail)).
    split; [simpl; tauto|]. apply matches_seq_flat.
    repeat constructor; now apply octet_digits.
  - exists (nth 6 privateRanges (Regex.Whole Regex.Fail)).
    split; [simpl; tauto|reflexivity].
  - exists (nth 7 privateRanges (Regex.Whole Regex.Fail)).
    split; [simpl; tauto|reflexivity].
  - exists (nth 8 privateRanges (Regex.Whole Regex.Fail)).
    split; [simpl; tauto|].
    apply matches_Seq_app; [now apply matches_stri|apply matches_Star_any].
  - exists (nth 9 privateRanges (Regex.Whole Regex.Fail)).
    split; [simpl; tauto|].
    apply matches_Seq_app; [now apply matches_stri|apply matches_Star_any].
Qed.

Lemma insertInlineImage_rejected (newURL : string -> option URL)
  (docs : Docs) (documentId imageUrl : string) (index : Z)
  (width height : option Q) (w : World) (e : Exception) :
  validateImageUrl newURL imageUrl = Throw e ->
  insertInlineImage newURL docs documentId imageUrl index width height w
  = (Throw e, w).
Proof.
  intros H. unfold insertInlineImage, bind, lift. now rewrite H.
Qed.

Lemma validateImageUrl_ok (newURL : string -> option URL)
  (imageUrl : string) (u : URL) :
  validateImageUrl newURL imageUrl = Ok u ->
  newURL imageUrl = Some u
  /\ (protocol u = "http:" \/ protocol u = "https:")
  /\ ~ privateHost (hostname u).
Proof.
  unfold validateImageUrl.
  destruct (newURL imageUrl) as [p|]; [|discriminate].
  destruct (String.eqb_spec (protocol p) "http:") as [Hh|Hh];
    destruct (String.eqb_spec (protocol p) "https:") as [Hs|Hs];
    cbn [negb andb];
    try discriminate;
    (destruct (existsb _ privateRanges) eqn:Ex; [discriminate|];
     intros [= <-]; split; [reflexivity|]; split; [tauto|];
     intros Hp; apply privateHost_matches in Hp; congruence).
Qed.

(** What the checks of [insertInlineImage] do guarantee: an image URL
    goes through only when it parses, its scheme is [http:] or [https:],
    and its host name is none of those of [privateHost]; every other URL
    is rejected with a user error while the world is still as it was, so
    that no request has been built and no network call made.  The host
    127.0.0.1 of Scenario D is among the rejected ones. *)
Theorem private_image_hosts_are_rejected :
  forall (newURL : string -> option URL) (docs : Docs)
         (documentId imageUrl : string) (index : Z)
         (width height : option Q) (w : World),
    (forall u,
        newURL imageUrl = Some u ->
        privateHost (hostname u)
        \/ (protocol u <> "http:" /\ protocol u <> "https:") ->
        exists msg,
          insertInlineImage newURL docs documentId imageUrl index width
            height w
          = (Throw (UserError msg), w))
    /\ (newURL imageUrl = None ->
        exists msg,
          insertInlineImage newURL docs documentId imageUrl index width
            height w
          = (Throw (UserError msg), w))
    /\ (forall w',
           network w'
           <> network w ->
           snd (insertInlineImage newURL docs documentId imageUrl index
                  width height w) = w' ->
           exists u,
             newURL imageUrl = Some u
             /\ (protocol u = "http:" \/ protocol u = "https:")
             /\ ~ privateHost (hostname u))
    /\ privateHost (dottedQuad 127 0 0 1)
    /\ dottedQuad 127 0 0 1 = "127.0.0.1".
Proof.
  intros newURL docs documentId imageUrl index width height w.
  split; [|split; [|split; [|split; [|reflexivity]]]].
  - intros u Hu Hbad.
    destruct (validateImageUrl newURL imageUrl) as [u'|e] eqn:E.
    + destruct (validateImageUrl_ok _ _ _ E) as (Hu' & Hproto & Hhost).
      rewrite Hu in Hu'. injection Hu' as <-.
      destruct Hbad as [Hp|[H1 H2]]; [contradiction|tauto].
    + assert (exists msg, e = UserError msg) as [msg ->].
      { unfold validateImageUrl in E. rewrite Hu in E.
        destruct (negb _ && negb _);
          [injection E as <-; eexists; reflexivity|].
        destruct (existsb _ privateRanges); [|discriminate].
        injection E as <-. eexists; reflexivity. }
      exists msg. now apply insertInlineImage_rejected.
  - intros Hnone. eexists. apply insertInlineImage_rejected.
    unfold validateImageUrl. rewrite Hnone. reflexivity.
  - intros w' Hnet Hsnd.
    destruct (validateImageUrl newURL imageUrl) as [u|e] eqn:E.
    + exists u. now apply validateImageUrl_ok.
    + rewrite (insertInlineImage_rejected _ docs documentId _ index width
                 height w _ E) in Hsnd.
      simpl in Hsnd. subst w'. contradiction.
  - apply host_loopback; unfold isOctet; lia.
Qed.

Lemma private_image_hosts_witness :
  exists msg,
    insertInlineImage toyURL acceptingDocs "doc" "http://127.0.0.1/logo.png"
      5 None None initialWorld
    = (Throw (UserError msg), initialWorld).
Proof.
  refine (proj1 (private_image_hosts_are_rejected toyURL acceptingDocs "doc"
                   "http://127.0.0.1/logo.png" 5 None None initialWorld)
            {| protocol := "http:"; hostname := "127.0.0.1" |} eq_refl _).
  left. apply (host_loopback 0 0 1); unfold isOctet; lia.
Defined.

(** C9 fails on the code: [fd00::1] is a unique local address, the
    private range fc00::/7 of IPv6, which the source means to cover (its
    last pattern carries the comment IPv6 private) but matches only when
    the first group is [fc00]; the URL is not rejected, the request is
    built and submitted. *)
Theorem insertInlineImage_unique_local_host_is_submitted :
  existsb (fun pattern => Regex.test pattern "[fd00::1]") privateRanges
  = false
  /\ insertInlineImage toyURL acceptingDocs "doc" "http://[fd00::1]/logo.png"
       5 None None initialWorld
     = (Ok emptyResponse,
        {| network := [DocumentsBatchUpdate "doc"
                         [InsertInlineImage 5 "http://[fd00::1]/logo.png"
                            None]];
           console := [] |}).
Proof. split; reflexivity. Qed.

Example insertInlineImage_public_host :
  insertInlineImage toyURL acceptingDocs "doc" "https://example.com/logo.png"
    5 None None initialWorld
  = (Ok emptyResponse,
     {| network := [DocumentsBatchUpdate "doc"
                      [InsertInlineImage 5 "https://example.com/logo.png"
                         None]];
        console := [] |}).
Proof. reflexivity. Qed.

(** ** Text reconstruction and the segment index *)

Lemma in_list_sum (A : Type) (f : A -> nat) (l : list A) (x : A) :
  In x l -> (f x <= list_sum (map f l))%nat.
Proof.
  induction l as [|y l IH]; simpl; [tauto|].
  intros [-> | H]; [lia|]. specialize (IH H). lia.
Qed.

Lemma cellElementOf_treeSize (e' e : StructuralElement) :
  cellElementOf e' e -> (treeSize e' < treeSize e)%nat.
Proof.
  intros (t & rows & row & cells & cell & c & Ht & Hrows & Hrow & Hcells
          & Hcell & Hc & Hin).
  destruct e as [s en p tb]. simpl in Ht. subst tb. simpl. rewrite Hrows.
  apply Nat.lt_succ_r.
  etransitivity; [apply (in_list_sum _ treeSize c e' Hin)|].
  etransitivity;
    [|apply (in_list_sum _
               (fun row => match tableCells row with
                           | Some cells =>
                               list_sum (map (fun cell =>
                                 match cell_content cell with
                                 | Some c => list_sum (map treeSize c)
                                 | None => O
                                 end) cells)
                           | None => O
                           end) rows row Hrow)].
  rewrite Hcells.
  etransitivity;
    [|apply (in_list_sum _
               (fun cell => match cell_content cell with
                            | Some c => list_sum (map treeSize c)
                            | None => O
                            end) cells cell Hcell)].
  rewrite Hc. apply Nat.le_refl.
Qed.

(** Induction on the element tree: a property holds of every element
    once it holds of an element whenever it holds of the elements in its
    cells. *)
Lemma StructuralElement_tree_ind (P : StructuralElement -> Prop) :
  (forall e, (forall e', cellElementOf e' e -> P e') -> P e) ->
  forall e, P e.
Proof.
  intros step e.
  assert (H : forall n e, (treeSize e < n)%nat -> P e).
  { induction n as [|n IH]; intros e0 Hn; [lia|].
    apply step. intros e' Hc. apply IH.
    apply cellElementOf_treeSize in Hc. lia. }
  exact (H (S (treeSize e)) e (Nat.lt_succ_diag_r _)).
Qed.

Lemma forEach_preserves (A S : Type) (Q : S -> Prop) (f : A -> S -> S)
  (l : list A) :
  (forall x, In x l -> forall st, Q st -> Q (f x st)) ->
  forall st, Q st -> Q (forEach f l st).
Proof.
  unfold forEach. induction l as [|x l IH]; intros Hf st Hst; simpl;
    [exact Hst|].
  apply IH; [intros y Hy; apply Hf; now right|].
  apply Hf; [now left|exact Hst].
Qed.

Lemma truthyString_nonempty (s : string) :
  JS.truthyString s = true -> s <> "".
Proof.
  unfold JS.truthyString. destruct (String.eqb_spec s ""); [discriminate|].
  intros _. assumption.
Qed.

(** What holds at the start of the traversal and is kept by every push
    of a segment with text holds at its end. *)
Section CollectInvariant.

Variable Q : TextIndex -> Prop.
Hypothesis Q_push :
  forall seg st, text seg <> "" -> Q st -> Q (pushSegment seg st).

Lemma collectParagraphElement_preserves (pe : ParagraphElement)
  (st : TextIndex) : Q st -> Q (collectParagraphElement pe st).
Proof.
  intros Hst. unfold collectParagraphElement.
  destruct (textRun pe) as [tr|]; [|exact Hst].
  destruct (content tr) as [c|]; [|exact Hst].
  destruct (pe_startIndex pe) as [s|]; [|exact Hst].
  destruct (pe_endIndex pe) as [e|]; [|exact Hst].
  destruct (JS.truthyString c) eqn:E; [|exact Hst].
  apply Q_push; [|exact Hst]. simpl. now apply truthyString_nonempty.
Qed.

Lemma collectElement_preserves (e : StructuralElement) :
  forall st, Q st -> Q (collectElement e st).
Proof.
  induction e as [e IH] using StructuralElement_tree_ind.
  intros st Hst. destruct e as [s en p tb]. simpl.
  assert (Hp : Q (match p with
                  | Some p0 =>
                      match elements p0 with
                      | Some pes => forEach collectParagraphElement pes st
                      | None => st
                      end
                  | None => st
                  end)).
  { destruct p as [p0|]; [|exact Hst].
    destruct (elements p0) as [pes|]; [|exact Hst].
    apply forEach_preserves; [|exact Hst].
    intros pe _ st0. apply collectParagraphElement_preserves. }
  destruct tb as [t|]; [|exact Hp].
  destruct (tableRows t) as [rows|] eqn:Hrows; [|exact Hp].
  apply forEach_preserves; [|exact Hp].
  intros row Hrow st1 Hst1.
  destruct (tableCells row) as [cells|] eqn:Hcells; [|exact Hst1].
  apply forEach_preserves; [|exact Hst1].
  intros cell Hcell st2 Hst2.
  destruct (cell_content cell) as [c|] eqn:Hc; [|exact Hst2].
  apply forEach_preserves; [|exact Hst2].
  intros e' He' st3 Hst3. apply IH; [|exact Hst3].
  exists t, rows, row, cells, cell, c. simpl. repeat split; assumption.
Qed.

Lemma collectTextFromContent_preserves (c : list StructuralElement) :
  forall st, Q st -> Q (collectTextFromContent c st).
Proof.
  intros st Hst. unfold collectTextFromContent.
  apply forEach_preserves; [|exact Hst].
  intros e _ st0. apply collectElement_preserves.
Qed.

End CollectInvariant.

Lemma append_nil_r (s : string) : (s ++ "")%string = s.
Proof. induction s as [|c s IH]; simpl; [reflexivity|now rewrite IH]. Qed.

Lemma append_assoc (a b c : string) :
  ((a ++ b) ++ c)%string = (a ++ (b ++ c))%string.
Proof. induction a as [|x a IH]; simpl; [reflexivity|now rewrite IH]. Qed.

Lemma len_append (a b : string) : JS.len (a ++ b) = JS.len a + JS.len b.
Proof.
  unfold JS.len. induction a as [|x a IH]; simpl String.length; [lia|].
  rewrite !Nat2Z.inj_succ. lia.
Qed.

Lemma len_nonneg (s : string) : 0 <= JS.len s.
Proof. unfold JS.len. lia. Qed.

Lemma len_pos (s : string) : s <> "" -> 0 < JS.len s.
Proof. unfold JS.len. destruct s; [congruence|simpl; lia]. Qed.

Lemma flat_app (a b : list string) :
  flat (a ++ b) = (flat a ++ flat b)%string.
Proof.
  induction a as [|x a IH]; simpl; [reflexivity|].
  now rewrite IH, append_assoc.
Qed.

Lemma textLength_app (a b : list Segment) :
  textLength (a ++ b) = textLength a + textLength b.
Proof. induction a as [|x a IH]; simpl; [reflexivity|]. rewrite IH. lia. Qed.

Lemma textLength_flat (segs : list Segment) :
  textLength segs = JS.len (flat (map text segs)).
Proof.
  induction segs as [|x segs IH]; simpl; [reflexivity|].
  now rewrite len_append, IH.
Qed.

Lemma textLength_nonneg (segs : list Segment) : 0 <= textLength segs.
Proof.
  induction segs as [|x segs IH]; simpl; [lia|].
  pose proof (len_nonneg (text x)). lia.
Qed.

Lemma textLength_perm (a b : list Segment) :
  Permutation a b -> textLength a = textLength b.
Proof. induction 1; simpl; lia. Qed.

(** The reconstructed text is the concatenation of the segment texts in
    the order of the traversal. *)
Lemma collect_fullText (c : list StructuralElement) :
  fullText (collectTextFromContent c emptyIndex)
  = flat (map text (segments (collectTextFromContent c emptyIndex))).
Proof.
  apply (collectTextFromContent_preserves
           (fun st => fullText st = flat (map text (segments st))));
    [|reflexivity].
  intros seg st _ H. simpl.
  rewrite map_app, flat_app, H. simpl. now rewrite append_nil_r.
Qed.

(** No segment has an empty text. *)
Lemma collect_nonempty (c : list StructuralElement) :
  Forall (fun seg => text seg <> "")
         (segments (collectTextFromContent c emptyIndex)).
Proof.
  apply (collectTextFromContent_preserves
           (fun st => Forall (fun seg => text seg <> "") (segments st)));
    [|constructor].
  intros seg st Hne H. simpl. apply Forall_app. split; [exact H|].
  now constructor.
Qed.

Lemma insertSegment_perm (x : Segment) (l : list Segment) :
  Permutation (x :: l) (insertSegment x l).
Proof.
  induction l as [|y l IH]; simpl; [reflexivity|].
  destruct (compareStart x y <=? 0); [reflexivity|].
  rewrite perm_swap. now constructor.
Qed.

Lemma sortSegments_perm (l : list Segment) :
  Permutation l (sortSegments l).
Proof.
  induction l as [|x l IH]; simpl; [constructor|].
  rewrite <- insertSegment_perm. now constructor.
Qed.

Lemma insertSegment_sorted (x : Segment) (l : list Segment) :
  StronglySorted startLe l -> StronglySorted startLe (insertSegment x l).
Proof.
  induction 1 as [|y l Hl IH Hy]; simpl.
  - constructor; constructor.
  - unfold compareStart. destruct (start x - start y <=? 0) eqn:E.
    + apply Z.leb_le in E. constructor; [now constructor|].
      constructor; [unfold startLe; lia|].
      eapply Forall_impl; [|exact Hy]. unfold startLe. intros; lia.
    + apply Z.leb_gt in E. constructor; [exact IH|].
      rewrite <- insertSegment_perm.
      constructor; [unfold startLe; lia|exact Hy].
Qed.

Lemma sortSegments_sorted (l : list Segment) :
  StronglySorted startLe (sortSegments l).
Proof.
  induction l as [|x l IH]; simpl; [constructor|].
  now apply insertSegment_sorted.
Qed.

(** The sort keeps the order of segments with the same start. *)
Lemma insertSegment_head (x : Segment) (l : list Segment) :
  Forall (startLe x) l -> insertSegment x l = x :: l.
Proof.
  destruct 1 as [|y l Hy _]; simpl; [reflexivity|].
  unfold compareStart, startLe in *.
  destruct (start x - start y <=? 0) eqn:E; [reflexivity|].
  apply Z.leb_gt in E. lia.
Qed.

Lemma sortSegments_of_sorted (l : list Segment) :
  StronglySorted startLe l -> sortSegments l = l.
Proof.
  induction 1 as [|x l _ IH Hx]; simpl; [reflexivity|].
  rewrite IH. now apply insertSegment_head.
Qed.

Lemma findTextRange_fetched (fuel : nat) (docs : Docs)
  (documentId textToFind : string) (instance : Z) (w : World)
  (c : list StructuralElement) :
  documents_get docs documentId = inr (Some c) ->
  findTextRange fuel docs documentId textToFind instance w
  = (Ok (findTextRangeIn fuel (Some c) textToFind instance),
     {| network := network w ++ [DocumentsGet documentId];
        console := console w |}).
Proof.
  intros H. unfold findTextRange, tryCatch, bind, documentsGet, call, ret.
  now rewrite H.
Qed.

(** C3, as the specification states it, fails: for a paragraph whose two
    runs start at the same index, the segments that the resolver uses are
    not strictly increasing in their start, and the resolver does not
    fail; it returns a range. *)
Lemma findTextRange_overlapping_runs_not_refused :
  ~ StronglySorted startLt
      (sortSegments
         (segments (collectTextFromContent (JS.orEmpty overlappingRuns)
                      emptyIndex)))
  /\ fst (findTextRange 5 (docsOf overlappingRuns) "doc" "cd" 1 initialWorld)
     = Ok (Done (Some {| range_start := 1; range_end := 3 |})).
Proof.
  split; [|reflexivity].
  intros H.
  change (StronglySorted startLt
            [ {| text := "ab"; start := 1; end_ := 3 |};
              {| text := "cd"; start := 1; end_ := 3 |} ]) in H.
  apply StronglySorted_inv in H. destruct H as [_ Hall].
  apply Forall_inv in Hall. unfold startLt in Hall. simpl in Hall. lia.
Qed.

(** C3, amended: the segment list that the resolver uses is the list of
    the traversal sorted by start, so it is in non-decreasing order of
    start and holds the same segments; the text lengths of the segments
    add up to the length of the reconstructed text, which is their
    concatenation in traversal order.  The order is not checked: the
    resolver searches with the sorted list whatever it is, and a list
    that was in order already is used as it is. *)
Theorem segments_are_sorted_and_cover_the_text :
  forall (c : list StructuralElement),
    let st := collectTextFromContent c emptyIndex in
    let segs := sortSegments (segments st) in
    StronglySorted startLe segs
    /\ Permutation (segments st) segs
    /\ textLength segs = JS.len (fullText st)
    /\ fullText st = flat (map text (segments st))
    /\ (StronglySorted startLe (segments st) -> segs = segments st)
    /\ (forall fuel docs documentId textToFind instance w,
           documents_get docs documentId = inr (Some c) ->
           fst (findTextRange fuel docs documentId textToFind instance w)
           = Ok (searchLoop fuel (fullText st) segs textToFind instance 0 0)).
Proof.
  intros c st segs. subst st segs.
  split; [apply sortSegments_sorted|].
  split; [apply sortSegments_perm|].
  split.
  { rewrite <- (textLength_perm _ _ (sortSegments_perm _)).
    now rewrite textLength_flat, <- collect_fullText. }
  split; [apply collect_fullText|].
  split; [apply sortSegments_of_sorted|].
  intros fuel docs documentId textToFind instance w Hget.
  now rewrite (findTextRange_fetched fuel docs documentId textToFind instance
                 w c Hget).
Qed.

Lemma segments_sorted_witness :
  sortSegments
    (segments (collectTextFromContent (JS.orEmpty scenarioA) emptyIndex))
  = segments (collectTextFromContent (JS.orEmpty scenarioA) emptyIndex).
Proof.
  apply (segments_are_sorted_and_cover_the_text (JS.orEmpty scenarioA)).
  vm_compute. repeat constructor.
Defined.

(** ** Resolving the n-th occurrence of a text *)

Lemma skip_length (n : nat) (s : string) :
  (n <= String.length s)%nat ->
  String.length (JS.skip n s) = (String.length s - n)%nat.
Proof.
  revert s. induction n as [|n IH]; intros s H; simpl.
  - lia.
  - destruct s as [|c s]; simpl in *; [lia|]. apply IH. lia.
Qed.

Lemma skip_succ (n : nat) (c : ascii) (s : string) :
  JS.skip (S n) (String c s) = JS.skip n s.
Proof. reflexivity. Qed.

Lemma skip_skip (n m : nat) (s : string) :
  JS.skip n (JS.skip m s) = JS.skip (m + n) s.
Proof.
  revert s. induction m as [|m IH]; intros s; simpl; [reflexivity|].
  destruct s as [|c s]; [destruct n; reflexivity|apply IH].
Qed.

Lemma startsWith_length (s pat : string) :
  JS.startsWith s pat = true -> (String.length pat <= String.length s)%nat.
Proof.
  revert s. induction pat as [|a pat IH]; intros s H; simpl; [lia|].
  destruct s as [|b s]; simpl in *; [discriminate|].
  apply andb_true_iff in H. destruct H as [_ H]. apply IH in H. lia.
Qed.

(** [indexOf] from a position inside the text is the scan of the rest of
    the text. *)
Lemma indexOf_scan (s pat : string) (n : nat) :
  (n <= String.length s)%nat ->
  JS.indexOf s pat (Z.of_nat n) = JS.scanFrom (JS.skip n s) pat (Z.of_nat n).
Proof.
  intros H. unfold JS.indexOf, JS.len.
  replace (Z.min (Z.max (Z.of_nat n) 0) (Z.of_nat (String.length s)))
    with (Z.of_nat n) by lia.
  now rewrite Nat2Z.id.
Qed.

Lemma scanFrom_nil (t pat : string) (k : Z) :
  occurrencesFrom t pat k = [] -> JS.scanFrom t pat k = -1.
Proof.
  revert k. induction t as [|c t IH]; intros k; cbn [occurrencesFrom JS.scanFrom].
  - destruct (JS.startsWith "" pat); simpl; [discriminate|reflexivity].
  - destruct (JS.startsWith (String c t) pat); simpl; [discriminate|].
    apply IH.
Qed.

(** The first occurrence is what the scan finds, and the occurrences
    after it are those of the text past it. *)
Lemma occurrencesFrom_cons (t pat : string) (k c : Z) (tl : list Z) :
  occurrencesFrom t pat k = c :: tl ->
  JS.scanFrom t pat k = c
  /\ exists m : nat,
       c = k + Z.of_nat m
       /\ (m + String.length pat <= String.length t)%nat
       /\ ((m < String.length t)%nat ->
           occurrencesFrom (JS.skip (S m) t) pat (c + 1) = tl)
       /\ (m = String.length t -> tl = []).
Proof.
  revert k. induction t as [|x t IH]; intros k;
    cbn [occurrencesFrom JS.scanFrom].
  - destruct (JS.startsWith "" pat) eqn:E; cbn [app]; [|discriminate].
    intros [= <- <-]. split; [reflexivity|]. exists O.
    apply startsWith_length in E. simpl in E.
    split; [lia|]. split; [simpl; lia|].
    split; [simpl; lia|reflexivity].
  - destruct (JS.startsWith (String x t) pat) eqn:E; cbn [app].
    + intros [= <- <-]. split; [reflexivity|]. exists O.
      apply startsWith_length in E.
      split; [lia|]. split; [exact E|].
      split; [intros _; rewrite skip_succ; reflexivity|discriminate].
    + intros H. destruct (IH _ H) as (Hs & m & -> & Hm & Hnext & Hlast).
      split; [exact Hs|]. exists (S m).
      split; [lia|]. split; [simpl; lia|]. split.
      * intros Hlt. rewrite skip_succ.
        replace (k + Z.of_nat (S m) + 1) with (k + 1 + Z.of_nat m + 1) by lia.
        apply Hnext. simpl in Hlt. lia.
      * intros Heq. apply Hlast. simpl in Heq. lia.
Qed.

Lemma occurrencesFrom_length (t pat : string) (k : Z) :
  (List.length (occurrencesFrom t pat k) <= S (String.length t))%nat.
Proof.
  revert k. induction t as [|x t IH]; intros k; cbn [occurrencesFrom JS.scanFrom].
  - destruct (JS.startsWith "" pat); simpl; lia.
  - specialize (IH (k + 1)).
    destruct (JS.startsWith (String x t) pat); simpl; lia.
Qed.

Lemma occurrencesFrom_bounds (t pat : string) (k h : Z) :
  In h (occurrencesFrom t pat k) ->
  k <= h /\ h + JS.len pat <= k + JS.len t.
Proof.
  revert k. induction t as [|x t IH]; intros k; cbn [occurrencesFrom JS.scanFrom].
  - destruct (JS.startsWith "" pat) eqn:E; simpl; [|tauto].
    intros [<- | []]. apply startsWith_length in E. unfold JS.len.
    simpl in *. lia.
  - intros H. apply in_app_or in H. destruct H as [H|H].
    + destruct (JS.startsWith (String x t) pat) eqn:E; simpl in H; [|tauto].
      destruct H as [<- | []]. apply startsWith_length in E. unfold JS.len.
      simpl in *. lia.
    + apply IH in H. unfold JS.len in *. simpl String.length.
      rewrite Nat2Z.inj_succ. lia.
Qed.

Lemma reconStart_0 (segs : list Segment) : reconStart segs 0 = 0.
Proof. reflexivity. Qed.

Lemma reconStart_S (seg : Segment) (rest : list Segment) (i : nat) :
  reconStart (seg :: rest) (S i) = JS.len (text seg) + reconStart rest i.
Proof. reflexivity. Qed.

Lemma reconStart_nonneg (segs : list Segment) (i : nat) :
  0 <= reconStart segs i.
Proof. apply textLength_nonneg. Qed.

(** The scan of the segments once the start is set: it ends at the
    segment that holds the end of the target. *)
Lemma mapSegments_started (segs : list Segment) :
  forall (pos hs he s0 e0 : Z) (j : nat) (sj : Segment),
    s0 <> -1 ->
    nth_error segs j = Some sj ->
    pos + reconStart segs j < he
    <= pos + reconStart segs j + JS.len (text sj) ->
    mapSegments segs hs he pos s0 e0
    = (s0, start sj + (he - (pos + reconStart segs j))).
Proof.
  induction segs as [|seg rest IH]; intros pos hs he s0 e0 j sj Hs0 Hj Hhe.
  - destruct j; discriminate.
  - cbn [mapSegments]. destruct j as [|j].
    + injection Hj as ->. rewrite reconStart_0 in *.
      pose proof (len_nonneg (text sj)).
      zcases; repeat f_equal; lia.
    + rewrite reconStart_S in *. cbn [nth_error] in Hj.
      pose proof (reconStart_nonneg rest j).
      pose proof (len_nonneg (text seg)).
      replace (pos + (JS.len (text seg) + reconStart rest j))
        with (pos + JS.len (text seg) + reconStart rest j) in * by lia.
      rewrite <- (IH (pos + JS.len (text seg)) hs he s0 e0 j sj Hs0 Hj Hhe).
      zcases; repeat f_equal; lia.
Qed.

(** The scan of the segments from the start: the start of the target
    maps into the segment that holds it, and the end into the segment
    that holds it, the end bound included. *)
Lemma mapSegments_spec (segs : list Segment) :
  forall (pos hs he : Z) (i j : nat) (si sj : Segment),
    hs < he ->
    nth_error segs i = Some si ->
    pos + reconStart segs i <= hs
    < pos + reconStart segs i + JS.len (text si) ->
    nth_error segs j = Some sj ->
    pos + reconStart segs j < he
    <= pos + reconStart segs j + JS.len (text sj) ->
    0 <= start si ->
    mapSegments segs hs he pos (-1) (-1)
    = (start si + (hs - (pos + reconStart segs i)),
       start sj + (he - (pos + reconStart segs j))).
Proof.
  induction segs as [|seg rest IH];
    intros pos hs he i j si sj Hlt Hi Hhs Hj Hhe Hnn.
  - destruct i; discriminate.
  - pose proof (len_nonneg (text seg)) as Hlen.
    destruct i as [|i].
    + injection Hi as ->. rewrite reconStart_0 in *.
      destruct j as [|j].
      * injection Hj as ->. rewrite reconStart_0 in *.
        cbn [mapSegments]. zcases; repeat f_equal; lia.
      * cbn [nth_error] in Hj. rewrite reconStart_S in *.
        pose proof (reconStart_nonneg rest j).
        replace (pos + (JS.len (text si) + reconStart rest j))
          with (pos + JS.len (text si) + reconStart rest j) in * by lia.
        rewrite <- (mapSegments_started rest (pos + JS.len (text si)) hs he
                      (start si + (hs - (pos + 0))) (-1) j sj
                      ltac:(lia) Hj Hhe).
        cbn [mapSegments]. zcases; repeat f_equal; lia.
    + cbn [nth_error] in Hi. rewrite reconStart_S in Hhs |- *.
      pose proof (reconStart_nonneg rest i).
      destruct j as [|j].
      * injection Hj as ->. rewrite reconStart_0 in *. lia.
      * cbn [nth_error] in Hj. rewrite reconStart_S in Hhe |- *.
        pose proof (reconStart_nonneg rest j).
        replace (pos + (JS.len (text seg) + reconStart rest i))
          with (pos + JS.len (text seg) + reconStart rest i) in * by lia.
        replace (pos + (JS.len (text seg) + reconStart rest j))
          with (pos + JS.len (text seg) + reconStart rest j) in * by lia.
        rewrite <- (IH (pos + JS.len (text seg)) hs he i j si sj Hlt Hi Hhs
                      Hj Hhe Hnn).
        cbn [mapSegments]. zcases; repeat f_equal; lia.
Qed.

(** Every offset of the reconstructed text lies in one segment. *)
Lemma segment_of_start (segs : list Segment) :
  forall (pos x : Z),
    pos <= x < pos + textLength segs ->
    exists i si,
      nth_error segs i = Some si
      /\ pos + reconStart segs i <= x
         < pos + reconStart segs i + JS.len (text si).
Proof.
  induction segs as [|seg rest IH]; intros pos x Hx; simpl in Hx; [lia|].
  destruct (Z.ltb_spec x (pos + JS.len (text seg))) as [H|H].
  - exists O, seg. rewrite reconStart_0. split; [reflexivity|lia].
  - destruct (IH (pos + JS.len (text seg)) x ltac:(lia))
      as (i & si & Hi & Hb).
    exists (S i), si. rewrite reconStart_S. split; [exact Hi|lia].
Qed.

Lemma segment_of_end (segs : list Segment) :
  forall (pos x : Z),
    pos < x <= pos + textLength segs ->
    exists j sj,
      nth_error segs j = Some sj
      /\ pos + reconStart segs j < x
         <= pos + reconStart segs j + JS.len (text sj).
Proof.
  induction segs as [|seg rest IH]; intros pos x Hx; simpl in Hx; [lia|].
  destruct (Z.leb_spec x (pos + JS.len (text seg))) as [H|H].
  - exists O, seg. rewrite reconStart_0. split; [reflexivity|lia].
  - destruct (IH (pos + JS.len (text seg)) x ltac:(lia))
      as (j & sj & Hj & Hb).
    exists (S j), sj. rewrite reconStart_S. split; [exact Hj|lia].
Qed.

(** A hit of a text that is not empty always maps when no segment has a
    negative start. *)
Lemma mapHit_total (segs : list Segment) (textToFind : string) (h : Z) :
  nonNegativeStarts segs ->
  textToFind <> "" ->
  0 <= h ->
  h + JS.len textToFind <= textLength segs ->
  mappable segs textToFind h = true.
Proof.
  intros Hnn Hne Hh Hend.
  pose proof (len_pos _ Hne) as Hpos.
  destruct (segment_of_start segs 0 h ltac:(lia)) as (i & si & Hi & Hbi).
  destruct (segment_of_end segs 0 (h + JS.len textToFind) ltac:(lia))
    as (j & sj & Hj & Hbj).
  assert (Hsi : 0 <= start si).
  { unfold nonNegativeStarts in Hnn. rewrite Forall_forall in Hnn.
    apply Hnn. eapply nth_error_In; eassumption. }
  assert (Hsj : 0 <= start sj).
  { unfold nonNegativeStarts in Hnn. rewrite Forall_forall in Hnn.
    apply Hnn. eapply nth_error_In; eassumption. }
  unfold mappable, mapHit.
  rewrite (mapSegments_spec segs 0 h (h + JS.len textToFind) i j si sj
             ltac:(lia) Hi Hbi Hj Hbj Hsi).
  zcases; reflexivity.
Qed.

(** One iteration of the search loop, with the scan of the segments
    read through [mapHit]. *)
Lemma searchLoop_step (fuel : nat) (fullText : string) (segs : list Segment)
  (textToFind : string) (instance ss fc : Z) :
  searchLoop (S fuel) fullText segs textToFind instance ss fc
  = if fc <? instance then
      let c := JS.indexOf fullText textToFind ss in
      if c =? -1 then Done None
      else if fc + 1 =? instance then
        match mapHit segs textToFind c with
        | Some r => Done (Some r)
        | None => searchLoop fuel fullText segs textToFind instance (c + 1) fc
        end
      else searchLoop fuel fullText segs textToFind instance (c + 1) (fc + 1)
    else Done None.
Proof.
  cbn [searchLoop]. unfold mapHit.
  destruct (fc <? instance); [|reflexivity]. cbv zeta.
  destruct (JS.indexOf fullText textToFind ss =? -1); [reflexivity|].
  destruct (fc + 1 =? instance); [|reflexivity].
  destruct (mapSegments segs _ _ 0 (-1) (-1)) as [s e].
  rewrite Z.add_simpl_r.
  destruct ((s =? -1) || (e =? -1)); reflexivity.
Qed.

Section SearchLoop.

Variable fullText : string.
Variable segs : list Segment.
Variable textToFind : string.
Variable instance : Z.

(** The loop passes over the hits before the one asked for and returns
    the range of that one when it maps. *)
Lemma searchLoop_reaches (pre : list Z) :
  forall (fuel n : nat) (fc h : Z) (post : list Z) (r : Range),
    (n <= String.length fullText)%nat ->
    occurrencesFrom (JS.skip n fullText) textToFind (Z.of_nat n)
    = pre ++ h :: post ->
    fc + Z.of_nat (List.length pre) + 1 = instance ->
    mapHit segs textToFind h = Some r ->
    (List.length pre < fuel)%nat ->
    searchLoop fuel fullText segs textToFind instance (Z.of_nat n) fc
    = Done (Some r).
Proof.
  induction pre as [|c pre IH];
    intros fuel n fc h post r Hn Hocc Hfc Hmap Hfuel;
    (destruct fuel as [|fuel]; [simpl in Hfuel; lia|]);
    rewrite searchLoop_step, indexOf_scan by exact Hn;
    cbn [app] in Hocc;
    destruct (occurrencesFrom_cons _ _ _ _ _ Hocc)
      as (Hscan & m & Hc & Hm & Hnext & Hlast);
    rewrite Hscan; cbv zeta; cbn [List.length] in Hfc.
  - zcases. now rewrite Hmap.
  - zcases.
    assert (Hlt : (m < String.length (JS.skip n fullText))%nat).
    { destruct (Nat.eq_dec m (String.length (JS.skip n fullText))) as [E|E].
      - apply Hlast in E. destruct pre; discriminate.
      - lia. }
    specialize (Hnext Hlt). rewrite skip_skip in Hnext.
    rewrite skip_length in Hlt by exact Hn.
    replace (c + 1) with (Z.of_nat (n + S m)) in * by lia.
    apply (IH fuel (n + S m)%nat (fc + 1) h post r); try assumption;
      try lia.
    simpl in Hfuel. lia.
Qed.

(** The loop returns [null] when the hits run out before the count
    reaches the instance asked for. *)
Lemma searchLoop_exhausted (occs : list Z) :
  textToFind <> "" ->
  forall (fuel n : nat) (fc : Z),
    (n <= String.length fullText)%nat ->
    occurrencesFrom (JS.skip n fullText) textToFind (Z.of_nat n) = occs ->
    fc + Z.of_nat (List.length occs) < instance ->
    (List.length occs < fuel)%nat ->
    searchLoop fuel fullText segs textToFind instance (Z.of_nat n) fc
    = Done None.
Proof.
  intros Hne.
  induction occs as [|c occs IH]; intros fuel n fc Hn Hocc Hfc Hfuel;
    (destruct fuel as [|fuel]; [simpl in Hfuel; lia|]);
    rewrite searchLoop_step, indexOf_scan by exact Hn;
    cbn [List.length] in Hfc.
  - rewrite (scanFrom_nil _ _ _ Hocc). cbv zeta. zcases; reflexivity.
  - destruct (occurrencesFrom_cons _ _ _ _ _ Hocc)
      as (Hscan & m & Hc & Hm & Hnext & _).
    rewrite Hscan. cbv zeta. zcases.
    assert (Hlen : (0 < String.length textToFind)%nat)
      by (destruct textToFind; [congruence|simpl; lia]).
    assert (Hlt : (m < String.length (JS.skip n fullText))%nat) by lia.
    specialize (Hnext Hlt). rewrite skip_skip in Hnext.
    rewrite skip_length in Hlt by exact Hn.
    replace (c + 1) with (Z.of_nat (n + S m)) in * by lia.
    apply (IH fuel (n + S m)%nat (fc + 1)); try assumption; try lia.
    simpl in Hfuel. lia.
Qed.

End SearchLoop.

(** C4: the hit of the instance asked for, at offsets [hitStart] and
    [hitEnd] of the reconstructed text, resolves to the range that the
    segments give when they are laid out one after the other: the start
    is mapped through the segment that holds [hitStart], the end through
    the segment that holds [hitEnd], a hit that ends where a segment ends
    being mapped to the end of that segment.  In Scenario A the second
    Hello resolves to the range from 14 to 19. *)
Theorem findTextRange_maps_hit_through_segments :
  (forall (fuel : nat) (docs : Docs) (documentId : string) (w : World)
          (c : list StructuralElement) (textToFind : string)
          (instance h : Z) (i j : nat) (si sj : Segment),
      let st := collectTextFromContent c emptyIndex in
      let segs := sortSegments (segments st) in
      let hitStart := h in
      let hitEnd := h + JS.len textToFind in
      documents_get docs documentId = inr (Some c) ->
      hitStart < hitEnd ->
      1 <= instance ->
      nth_error (occurrences (fullText st) textToFind)
        (Z.to_nat (instance - 1)) = Some h ->
      nth_error segs i = Some si ->
      reconStart segs i <= hitStart < reconStart segs i + JS.len (text si) ->
      nth_error segs j = Some sj ->
      reconStart segs j < hitEnd <= reconStart segs j + JS.len (text sj) ->
      0 <= start si ->
      0 <= start sj ->
      (Z.to_nat instance <= fuel)%nat ->
      fst (findTextRange fuel docs documentId textToFind instance w)
      = Ok (Done (Some
                    {| range_start := start si + (hitStart - reconStart segs i);
                       range_end := start sj + (hitEnd - reconStart segs j) |})))
  /\ fst (findTextRange 2 (docsOf scenarioA) "doc" "Hello" 2 initialWorld)
     = Ok (Done (Some {| range_start := 14; range_end := 19 |})).
Proof.
  split; [|reflexivity].
  intros fuel docs documentId w c textToFind instance h i j si sj st segs
    hitStart hitEnd Hget Hpos Hinst Hocc Hi Hbi Hj Hbj Hsi Hsj Hfuel.
  subst hitStart hitEnd.
  destruct (nth_error_split _ _ Hocc) as (pre & post & Hsplit & Hlen).
  rewrite (findTextRange_fetched fuel docs documentId textToFind instance
             w c Hget).
  cbn [fst]. f_equal.
  unfold findTextRangeIn. fold st. fold segs.
  apply (searchLoop_reaches (fullText st) segs textToFind instance pre
           fuel O 0 h post); try lia.
  - exact Hsplit.
  - unfold mapHit.
    rewrite (mapSegments_spec segs 0 h (h + JS.len textToFind) i j si sj
               ltac:(lia) Hi ltac:(lia) Hj ltac:(lia) Hsi).
    zcases. rewrite !Z.add_0_l. reflexivity.
Qed.

Lemma findTextRange_maps_hit_witness :
  fst (findTextRange 2 (docsOf scenarioA) "doc" "Hello" 2 initialWorld)
  = Ok (Done (Some {| range_start := 1 + (13 - 0);
                      range_end := 1 + (13 + 5 - 0) |})).
Proof.
  refine (proj1 findTextRange_maps_hit_through_segments 2%nat
            (docsOf scenarioA) "doc" initialWorld
            (JS.orEmpty scenarioA) "Hello" 2 13 O O
            {| text := "Hello world. Hello again."; start := 1; end_ := 26 |}
            {| text := "Hello world. Hello again."; start := 1; end_ := 26 |}
            eq_refl _ _ eq_refl eq_refl _ eq_refl _ _ _ _).
  - vm_compute. reflexivity.
  - lia.
  - vm_compute. split; [discriminate|reflexivity].
  - vm_compute. split; [reflexivity|discriminate].
  - simpl. lia.
  - simpl. lia.
  - simpl. lia.
Defined.

(** C5: when the hit that would be the instance asked for does not map,
    the loop goes on with the search one position past that hit and with
    the count as it was; a later hit that maps is then returned, and
    [null] comes only when the text has no further occurrence. *)
Theorem searchLoop_retries_past_unmappable_hit :
  forall (fuel : nat) (fullText : string) (segs : list Segment)
         (textToFind : string)
         (instance searchStartIndex foundCount currentIndex : Z),
    foundCount + 1 = instance ->
    JS.indexOf fullText textToFind searchStartIndex = currentIndex ->
    currentIndex <> -1 ->
    mapHit segs textToFind currentIndex = None ->
    searchLoop (S fuel) fullText segs textToFind instance searchStartIndex
      foundCount
    = searchLoop fuel fullText segs textToFind instance (currentIndex + 1)
        foundCount
    /\ (forall next r,
           JS.indexOf fullText textToFind (currentIndex + 1) = next ->
           next <> -1 ->
           mapHit segs textToFind next = Some r ->
           searchLoop (S (S fuel)) fullText segs textToFind instance
             searchStartIndex foundCount
           = Done (Some r))
    /\ (JS.indexOf fullText textToFind (currentIndex + 1) = -1 ->
        searchLoop (S (S fuel)) fullText segs textToFind instance
          searchStartIndex foundCount
        = Done None).
Proof.
  intros fuel fullText segs textToFind instance ss fc c Hfc Hidx Hc Hmap.
  assert (Hstep : forall fuel',
             searchLoop (S fuel') fullText segs textToFind instance ss fc
             = searchLoop fuel' fullText segs textToFind instance (c + 1) fc).
  { intros fuel'. rewrite searchLoop_step, Hidx. cbv zeta.
    zcases. now rewrite Hmap. }
  split; [apply Hstep|]. split.
  - intros next r Hnext Hn Hr.
    rewrite Hstep, searchLoop_step, Hnext. cbv zeta.
    zcases. now rewrite Hr.
  - intros Hnext. rewrite Hstep, searchLoop_step, Hnext. cbv zeta.
    zcases; reflexivity.
Qed.

Lemma searchLoop_retry_witness :
  searchLoop 2 "ab" [{| text := "ab"; start := 1; end_ := 3 |}] "" 1 0 0
  = Done (Some {| range_start := 2; range_end := 2 |}).
Proof.
  refine (proj1 (proj2 (searchLoop_retries_past_unmappable_hit 0 "ab"
                          [{| text := "ab"; start := 1; end_ := 3 |}] "" 1
                          0 0 0 eq_refl eq_refl _ eq_refl))
            1 {| range_start := 2; range_end := 2 |} eq_refl _ eq_refl).
  - discriminate.
  - discriminate.
Defined.

(** Every occurrence of a text that is not empty maps when no segment
    has a negative start, so the occurrences that map are all of them. *)
Lemma mappableOccurrences_all (c : list StructuralElement)
  (textToFind : string) :
  let st := collectTextFromContent c emptyIndex in
  textToFind <> "" ->
  nonNegativeStarts (segments st) ->
  mappableOccurrences (sortSegments (segments st)) (fullText st) textToFind
  = occurrences (fullText st) textToFind.
Proof.
  intros st Hne Hnn. unfold mappableOccurrences.
  apply forallb_filter_id, forallb_forall. intros h Hh.
  apply occurrencesFrom_bounds in Hh.
  apply mapHit_total; try lia; try assumption.
  - unfold nonNegativeStarts in *.
    eapply Permutation_Forall; [apply sortSegments_perm|exact Hnn].
  - rewrite <- (textLength_perm _ _ (sortSegments_perm _)).
    rewrite textLength_flat. unfold st. rewrite <- collect_fullText.
    fold st. lia.
Qed.

(** With fewer occurrences than the instance asked for, the result is
    [null], whether or not the occurrences map. *)
Lemma findTextRange_fewer_occurrences (fuel : nat)
  (c : list StructuralElement) (textToFind : string) (instance : Z) :
  let st := collectTextFromContent c emptyIndex in
  textToFind <> "" ->
  Z.of_nat (List.length (occurrences (fullText st) textToFind)) < instance ->
  (String.length (fullText st) + 1 < fuel)%nat ->
  findTextRangeIn fuel (Some c) textToFind instance = Done None.
Proof.
  intros st Hne Hcount Hfuel. unfold findTextRangeIn. fold st.
  apply (searchLoop_exhausted (fullText st) _ textToFind instance
           (occurrences (fullText st) textToFind) Hne fuel O 0);
    try reflexivity; try lia.
  pose proof (occurrencesFrom_length (fullText st) textToFind 0).
  unfold occurrences. lia.
Qed.

(** C6, amended: for a search text that is not empty, asking for the
    occurrence of rank [k] when the text has fewer than [k] occurrences
    gives [null], the outcome that stands for not found, and the loop
    ends within one iteration per character, so the helper returns; in a
    document without negative indices every occurrence maps, so the same
    holds when fewer than [k] occurrences map. *)
Theorem findTextRange_instance_beyond_occurrences :
  forall (fuel : nat) (docs : Docs) (documentId : string) (w : World)
         (c : list StructuralElement) (textToFind : string) (k : Z),
    let st := collectTextFromContent c emptyIndex in
    let segs := sortSegments (segments st) in
    documents_get docs documentId = inr (Some c) ->
    textToFind <> "" ->
    (String.length (fullText st) + 1 < fuel)%nat ->
    (Z.of_nat (List.length (occurrences (fullText st) textToFind)) < k ->
     fst (findTextRange fuel docs documentId textToFind k w) = Ok (Done None))
    /\ (nonNegativeStarts (segments st) ->
        Z.of_nat (List.length
                    (mappableOccurrences segs (fullText st) textToFind)) < k ->
        fst (findTextRange fuel docs documentId textToFind k w)
        = Ok (Done None)).
Proof.
  intros fuel docs documentId w c textToFind k st segs Hget Hne Hfuel.
  rewrite (findTextRange_fetched fuel docs documentId textToFind k w c Hget).
  cbn [fst]. split.
  - intros Hcount. f_equal. now apply findTextRange_fewer_occurrences.
  - intros Hnn Hcount. subst segs. unfold st in Hcount.
    rewrite mappableOccurrences_all in Hcount by assumption.
    f_equal. now apply findTextRange_fewer_occurrences.
Qed.

Lemma findTextRange_beyond_witness :
  fst (findTextRange 30 (docsOf scenarioA) "doc" "Hello" 3 initialWorld)
  = Ok (Done None).
Proof.
  refine (proj2 (findTextRange_instance_beyond_occurrences 30
                   (docsOf scenarioA) "doc" initialWorld
                   (JS.orEmpty scenarioA) "Hello" 3 eq_refl _ _) _ _).
  - discriminate.
  - vm_compute. lia.
  - repeat constructor. simpl. lia.
  - vm_compute. reflexivity.
Defined.

Lemma searchLoop_empty_text_spins (n : nat) :
  forall ss, 1 <= ss ->
    searchLoop n lineFeed [{| text := lineFeed; start := 1; end_ := 2 |}]
      "" 1 ss 0 = Looping.
Proof.
  induction n as [|n IH]; intros ss Hss; [reflexivity|].
  rewrite searchLoop_step.
  assert (Hidx : JS.indexOf lineFeed "" ss = 1).
  { unfold JS.indexOf, JS.len. simpl String.length.
    replace (Z.min (Z.max ss 0) (Z.of_nat 1)) with 1 by lia. reflexivity. }
  rewrite Hidx. cbv zeta. simpl. apply IH. lia.
Qed.

(** C6, as the specification states it, fails for the empty search
    text, which the helper accepts.  In a document that holds one empty
    paragraph no occurrence of the empty text maps, and the search for
    its first occurrence never leaves the loop; in a document that holds
    the text ab one occurrence maps, and the search for the second
    occurrence returns a range. *)
Lemma findTextRange_empty_text_not_refused :
  (mappableOccurrences [{| text := lineFeed; start := 1; end_ := 2 |}]
     lineFeed "" = []
   /\ forall fuel,
        fst (findTextRange fuel (docsOf emptyParagraph) "doc" "" 1
               initialWorld)
        = Ok Looping)
  /\ (mappableOccurrences [{| text := "ab"; start := 1; end_ := 3 |}]
        "ab" "" = [1]
      /\ fst (findTextRange 5 (docsOf paragraphAb) "doc" "" 2 initialWorld)
         = Ok (Done (Some {| range_start := 2; range_end := 2 |}))).
Proof.
  split; split; try reflexivity.
  intros fuel.
  rewrite (findTextRange_fetched fuel (docsOf emptyParagraph) "doc" "" 1
             initialWorld (JS.orEmpty emptyParagraph) eq_refl).
  cbn [fst]. f_equal. destruct fuel as [|fuel]; [reflexivity|].
  unfold findTextRangeIn, emptyParagraph. cbn [JS.orEmpty].
  change (collectTextFromContent [para 1 2 [run lineFeed 1 2]] emptyIndex)
    with {| fullText := lineFeed;
            segments := [{| text := lineFeed; start := 1; end_ := 2 |}] |}.
  cbn [fullText segments sortSegments insertSegment].
  rewrite searchLoop_step. simpl.
  apply searchLoop_empty_text_spins. lia.
Qed.

(** * Further properties *)

(** ** The paragraph that holds an index *)

Lemma firstSome_some (A B : Type) (f : A -> option B) (l : list A) (r : B) :
  firstSome f l = Some r -> exists x, In x l /\ f x = Some r.
Proof.
  induction l as [|x l IH]; simpl; [discriminate|].
  destruct (f x) as [b|] eqn:E.
  - intros [= <-]. exists x. split; [now left|exact E].
  - intros H. destruct (IH H) as (y & Hy & Hf). exists y.
    split; [now right|exact Hf].
Qed.

Lemma firstSome_skip (A B : Type) (f : A -> option B) (pre rest : list A) :
  Forall (fun x => f x = None) pre ->
  firstSome f (pre ++ rest) = firstSome f rest.
Proof.
  induction 1 as [|x pre Hx _ IH]; simpl; [reflexivity|].
  now rewrite Hx.
Qed.

Lemma findParagraphInElement_sound (indexWithin : Z)
  (e : StructuralElement) :
  forall r,
    findParagraphInElement indexWithin e = Some r ->
    range_start r <= indexWithin < range_end r
    /\ paragraphRangeUnder r e.
Proof.
  induction e as [e IH] using StructuralElement_tree_ind.
  intros r. destruct e as [s en p tb]. simpl.
  destruct s as [s|]; [|discriminate].
  destruct en as [en|]; [|discriminate].
  destruct ((indexWithin >=? s) && (indexWithin <? en)) eqn:Hin;
    [|discriminate].
  apply andb_true_iff in Hin. destruct Hin as [H1 H2].
  rewrite Z.geb_leb in H1. apply Z.leb_le in H1. apply Z.ltb_lt in H2.
  destruct p as [p|].
  - intros [= <-]. split; [simpl; lia|].
    now apply paragraph_here with (p := p).
  - destruct tb as [t|]; [|discriminate].
    destruct (tableRows t) as [rows|] eqn:Hrows; [|discriminate].
    intros H. apply firstSome_some in H. destruct H as (row & Hrow & H).
    destruct (tableCells row) as [cells|] eqn:Hcells; [|discriminate].
    apply firstSome_some in H. destruct H as (cell & Hcell & H).
    destruct (cell_content cell) as [c|] eqn:Hc; [|discriminate].
    apply firstSome_some in H. destruct H as (e' & He' & H).
    assert (Hce : cellElementOf e'
                    {| startIndex := Some s; endIndex := Some en;
                       paragraph := None; table := Some t |}).
    { exists t, rows, row, cells, cell, c. simpl. repeat split; assumption. }
    destruct (IH e' Hce r H) as [Hb Hp].
    split; [exact Hb|]. now apply paragraph_below with (e' := e').
Qed.

Lemma findParagraphInElement_outside (indexWithin : Z)
  (e : StructuralElement) :
  ~ holdsIndex indexWithin e -> findParagraphInElement indexWithin e = None.
Proof.
  intros H. destruct e as [s en p tb]. simpl.
  destruct s as [s|]; [|reflexivity].
  destruct en as [en|]; [|reflexivity].
  destruct ((indexWithin >=? s) && (indexWithin <? en)) eqn:Hin;
    [|reflexivity].
  apply andb_true_iff in Hin. destruct Hin as [H1 H2].
  rewrite Z.geb_leb in H1. apply Z.leb_le in H1. apply Z.ltb_lt in H2.
  exfalso. apply H. exists s, en. simpl. repeat split; try reflexivity; lia.
Qed.

Lemma getParagraphRange_fetched (docs : Docs) (documentId : string)
  (indexWithin : Z) (w : World) (c : list StructuralElement) :
  documents_get docs documentId = inr (Some c) ->
  getParagraphRange docs documentId indexWithin w
  = (Ok (findParagraphInContent indexWithin c),
     {| network := network w ++ [DocumentsGet documentId];
        console := console w |}).
Proof.
  intros H. unfold getParagraphRange, tryCatch, bind, documentsGet, call, ret.
  now rewrite H.
Qed.

(** X1: a range that [getParagraphRange] returns holds the index asked
    for, and it is the range of a paragraph of the fetched document, at
    the top level or inside the cells of a table. *)
Theorem getParagraphRange_returns_a_paragraph_holding_the_index :
  forall (docs : Docs) (documentId : string) (indexWithin : Z) (w : World)
         (r : Range),
    fst (getParagraphRange docs documentId indexWithin w) = Ok (Some r) ->
    range_start r <= indexWithin < range_end r
    /\ exists c e,
         documents_get docs documentId = inr (Some c)
         /\ In e c /\ paragraphRangeUnder r e.
Proof.
  intros docs documentId indexWithin w r H.
  destruct (documents_get docs documentId) as [err|[c|]] eqn:Hget.
  - unfold getParagraphRange, tryCatch, bind, documentsGet, call,
      consoleError, throw in H. rewrite Hget in H. discriminate.
  - rewrite (getParagraphRange_fetched _ _ _ _ _ Hget) in H.
    injection H as H. apply firstSome_some in H.
    destruct H as (e & He & H).
    destruct (findParagraphInElement_sound _ _ _ H) as [Hb Hp].
    split; [exact Hb|]. now exists c, e.
  - unfold getParagraphRange, tryCatch, bind, documentsGet, call,
      consoleWarn, ret in H. rewrite Hget in H. discriminate.
Qed.

Lemma getParagraphRange_in_cell_witness :
  range_start {| range_start := 16; range_end := 18 |} <= 16
  < range_end {| range_start := 16; range_end := 18 |}
  /\ exists c e,
       documents_get (docsOf scenarioB) "doc" = inr (Some c)
       /\ In e c
       /\ paragraphRangeUnder {| range_start := 16; range_end := 18 |} e.
Proof.
  apply (getParagraphRange_returns_a_paragraph_holding_the_index
           (docsOf scenarioB) "doc" 16 initialWorld).
  reflexivity.
Defined.

(** X2: when the first top-level element that holds the index is a
    paragraph, [getParagraphRange] returns the range of that paragraph;
    when no top-level element holds the index, it returns [null],
    whatever the tables contain. *)
Theorem getParagraphRange_top_level :
  forall (docs : Docs) (documentId : string) (indexWithin : Z) (w : World)
         (c : list StructuralElement),
    documents_get docs documentId = inr (Some c) ->
    (forall pre element post s en p,
        c = pre ++ element :: post ->
        Forall (fun e => ~ holdsIndex indexWithin e) pre ->
        startIndex element = Some s ->
        endIndex element = Some en ->
        paragraph element = Some p ->
        s <= indexWithin < en ->
        fst (getParagraphRange docs documentId indexWithin w)
        = Ok (Some {| range_start := s; range_end := en |}))
    /\ (Forall (fun e => ~ holdsIndex indexWithin e) c ->
        fst (getParagraphRange docs documentId indexWithin w) = Ok None).
Proof.
  intros docs documentId indexWithin w c Hget.
  rewrite (getParagraphRange_fetched _ _ _ _ _ Hget). cbn [fst].
  assert (Hskip : forall l,
             Forall (fun e => ~ holdsIndex indexWithin e) l ->
             Forall (fun x => findParagraphInElement indexWithin x = None) l).
  { intros l Hl. eapply Forall_impl; [|exact Hl].
    intros e. apply findParagraphInElement_outside. }
  split.
  - intros pre element post s en p -> Hpre Hs Hen Hp Hin.
    unfold findParagraphInContent.
    rewrite firstSome_skip by (apply Hskip; exact Hpre).
    destruct element as [s0 en0 p0 tb]. simpl in *. subst s0 en0 p0.
    assert (Hc : (indexWithin >=? s) && (indexWithin <? en) = true).
    { apply andb_true_iff. split; [rewrite Z.geb_leb; apply Z.leb_le; lia|].
      apply Z.ltb_lt. lia. }
    now rewrite Hc.
  - intros Hall. unfold findParagraphInContent.
    rewrite <- (app_nil_r c), firstSome_skip by (apply Hskip; exact Hall).
    reflexivity.
Qed.

Lemma getParagraphRange_top_level_witness :
  fst (getParagraphRange (docsOf scenarioB) "doc" 40 initialWorld) = Ok None.
Proof.
  apply (getParagraphRange_top_level (docsOf scenarioB) "doc" 40 initialWorld
           (JS.orEmpty scenarioB) eq_refl).
  repeat constructor; intros (s & en & Hs & Hen & Hb); simpl in Hs, Hen;
    injection Hs as <-; injection Hen as <-; lia.
Defined.

(** ** Failures of the remote service *)

Lemma translateParagraphError_class (documentId : string) (e : ApiError) :
  match translateParagraphError documentId (ApiFailure e) with
  | UserError _ => code e = 404 \/ code e = 403
  | Error _ => code e <> 404 /\ code e <> 403
  | _ => False
  end.
Proof.
  unfold translateParagraphError, errorCode, strictEq.
  destruct (Z.eqb_spec (code e) 404); [now left|].
  destruct (Z.eqb_spec (code e) 403); [now right|]. now split.
Qed.

Lemma translateFindTextError_class (documentId : string) (e : ApiError) :
  match translateFindTextError documentId (ApiFailure e) with
  | UserError _ => code e = 404 \/ code e = 403
  | Error _ => code e <> 404 /\ code e <> 403
  | _ => False
  end.
Proof.
  unfold translateFindTextError.
  destruct (Z.eqb_spec (code e) 404); [now left|].
  destruct (Z.eqb_spec (code e) 403); [now right|]. now split.
Qed.

(** X3: when the fetch of the document fails, [findTextRange] and
    [getParagraphRange] have made that one network call and throw, never
    the error of the client library itself: a user error when its code
    is 404 or 403, a plain error otherwise. *)
Theorem resolvers_translate_a_failed_fetch :
  forall (fuel : nat) (docs : Docs) (documentId textToFind : string)
         (instance indexWithin : Z) (w : World) (e : ApiError),
    documents_get docs documentId = inl e ->
    (exists thrown,
        fst (findTextRange fuel docs documentId textToFind instance w)
        = Throw thrown
        /\ match thrown with
           | UserError _ => code e = 404 \/ code e = 403
           | Error _ => code e <> 404 /\ code e <> 403
           | _ => False
           end)
    /\ network (snd (findTextRange fuel docs documentId textToFind instance w))
       = network w ++ [DocumentsGet documentId]
    /\ (exists thrown,
           fst (getParagraphRange docs documentId indexWithin w)
           = Throw thrown
           /\ match thrown with
              | UserError _ => code e = 404 \/ code e = 403
              | Error _ => code e <> 404 /\ code e <> 403
              | _ => False
              end)
    /\ network (snd (getParagraphRange docs documentId indexWithin w))
       = network w ++ [DocumentsGet documentId].
Proof.
  intros fuel docs documentId textToFind instance indexWithin w e Hget.
  unfold findTextRange, getParagraphRange, tryCatch, bind, documentsGet, call,
    consoleError, throw.
  rewrite Hget. cbn [fst snd network].
  split; [|split; [reflexivity|split; [|reflexivity]]].
  - eexists. split; [reflexivity|]. apply translateFindTextError_class.
  - eexists. split; [reflexivity|]. apply translateParagraphError_class.
Qed.

Lemma resolvers_failed_fetch_witness :
  network (snd (getParagraphRange (rejectingDocs notFound404) "doc" 3
                  initialWorld))
  = network initialWorld ++ [DocumentsGet "doc"].
Proof.
  apply (resolvers_translate_a_failed_fetch 1 (rejectingDocs notFound404)
           "doc" "x" 1 3 initialWorld notFound404).
  reflexivity.
Defined.

(** X4: a batch that is not empty costs one network call, whatever the
    remote service answers.  The gateway returns the answer when the
    service accepts the batch; when the service rejects it, the gateway
    throws a user error for the codes 404 and 403 and for a code 400
    whose message holds the words Invalid requests, and a plain error in
    every other case, never the error of the client library itself. *)
Theorem executeBatchUpdate_outcome :
  forall (docs : Docs) (documentId : string) (requests : list Request)
         (w : World),
    requests <> [] ->
    let out := executeBatchUpdate docs documentId requests w in
    network (snd out)
    = network w ++ [DocumentsBatchUpdate documentId requests]
    /\ match documents_batchUpdate docs documentId requests with
       | inr resp => fst out = Ok resp
       | inl e =>
           exists thrown,
             fst out = Throw thrown
             /\ match thrown with
                | UserError _ =>
                    code e = 404 \/ code e = 403
                    \/ (code e = 400
                        /\ JS.includes (message e) "Invalid requests" = true)
                | Error _ =>
                    code e <> 404 /\ code e <> 403
                    /\ ~ (code e = 400
                          /\ JS.includes (message e) "Invalid requests"
                             = true)
                | _ => False
                end
       end.
Proof.
  intros docs documentId requests w Hne out. subst out.
  split; [now apply executeBatchUpdate_network|].
  destruct (documents_batchUpdate docs documentId requests) as [e|resp] eqn:Hr.
  - exists (translateBatchUpdateError documentId (ApiFailure e)). split.
    + unfold executeBatchUpdate.
      destruct (JS.alen requests =? 0) eqn:E.
      { apply Z.eqb_eq, alen_zero_iff in E. contradiction. }
      unfold bind, tryCatch, documentsBatchUpdate, call, consoleWarn,
        consoleError, throw, ret. rewrite Hr.
      destruct (JS.alen requests >? MAX_BATCH_UPDATE_REQUESTS); reflexivity.
    + unfold translateBatchUpdateError.
      destruct (Z.eqb_spec (code e) 400) as [H400|H400];
        destruct (JS.includes (message e) "Invalid requests") eqn:Hinc;
        cbn [andb];
        try (right; right; now split);
        (destruct (Z.eqb_spec (code e) 404); [now left|]);
        (destruct (Z.eqb_spec (code e) 403); [right; now left|]);
        (split; [assumption|split; [assumption|]]);
        intros [H1 H2]; congruence.
  - now apply executeBatchUpdate_accepted.
Qed.

Lemma executeBatchUpdate_outcome_witness :
  network (snd (executeBatchUpdate (rejectingDocs notFound404) "doc"
                  (batchOf 2) initialWorld))
  = network initialWorld ++ [DocumentsBatchUpdate "doc" (batchOf 2)].
Proof.
  apply (executeBatchUpdate_outcome (rejectingDocs notFound404) "doc"
           (batchOf 2) initialWorld).
  discriminate.
Defined.

(** ** Colours *)

Lemma matches_Eps_inv (s : string) :
  Regex.matches Regex.Eps s = true -> s = "".
Proof.
  destruct s as [|c s]; [reflexivity|]. simpl. now rewrite matches_Fail.
Qed.

Lemma matches_Chr_inv (p : ascii -> bool) (s : string) :
  Regex.matches (Regex.Chr p) s = true ->
  exists c, s = String c "" /\ p c = true.
Proof.
  destruct s as [|c s]; simpl; [discriminate|].
  destruct (p c) eqn:E.
  - intros H. apply matches_Eps_inv in H. subst s. now exists c.
  - now rewrite matches_Fail.
Qed.

Lemma matches_Seq_inv (b : Regex.re) (s : string) :
  forall a,
    Regex.matches (Regex.Seq a b) s = true ->
    exists s1 s2,
      s = (s1 ++ s2)%string
      /\ Regex.matches a s1 = true /\ Regex.matches b s2 = true.
Proof.
  induction s as [|c s IH]; intros a; simpl.
  - intros H. apply andb_true_iff in H. destruct H as [Ha Hb].
    exists "", "". now repeat split.
  - rewrite matches_Alt. intros H. apply orb_true_iff in H.
    destruct H as [H|H].
    + destruct (IH _ H) as (s1 & s2 & -> & H1 & H2).
      exists (String c s1), s2. now repeat split.
    + destruct (Regex.nullable a) eqn:Hn;
        [|now rewrite matches_Fail in H].
      exists "", (String c s). now repeat split.
Qed.

(** A character of the class of the pattern is a digit of radix 16, and
    none of the characters that [parseInt] treats in a special way. *)
Lemma isHexChar_digit (c : ascii) :
  isHexChar c = true ->
  exists v, JS.hexDigit c = Some v /\ 0 <= v <= 15.
Proof.
  destruct c as [[] [] [] [] [] [] [] []]; intros H;
    try (cbv in H; discriminate H);
    match goal with
    | |- exists v, ?t = _ /\ _ =>
        let r := eval vm_compute in t in
        match r with
        | Some ?d => exists d; split; [vm_compute; reflexivity|lia]
        end
    end.
Qed.

Lemma hexDigit_isHexChar (c : ascii) (v : Z) :
  JS.hexDigit c = Some v -> isHexChar c = true /\ 0 <= v <= 15.
Proof.
  destruct c as [[] [] [] [] [] [] [] []]; intros H;
    try (cbv in H; discriminate H);
    vm_compute in H; injection H as <-; (split; [reflexivity|lia]).
Qed.

Lemma hexPrefix_seen (s : string) :
  forall acc, snd (JS.hexPrefix s acc true) = true.
Proof.
  induction s as [|c s IH]; intros acc; simpl; [reflexivity|].
  destruct (JS.hexDigit c); [apply IH|reflexivity].
Qed.

(** [parseInt] of a text that starts with two digits of radix 16 reads
    its digits: there is no white space, sign or prefix to take off. *)
Lemma parseInt16_digits (c0 c1 : ascii) (rest : string) :
  isHexChar c0 = true ->
  isHexChar c1 = true ->
  JS.parseInt16 (String c0 (String c1 rest))
  = Some (fst (JS.hexPrefix (String c0 (String c1 rest)) 0 false)).
Proof.
  intros H0 H1.
  assert (Hgo : forall c d s,
             JS.hexDigit c = Some d ->
             match JS.hexPrefix (String c s) 0 false with
             | (v, true) => Some (1 * v)
             | (_, false) => None
             end = Some (fst (JS.hexPrefix (String c s) 0 false))).
  { intros c d s Hd. cbn [JS.hexPrefix]. rewrite Hd.
    pose proof (hexPrefix_seen s (16 * 0 + d)) as Hs.
    destruct (JS.hexPrefix s (16 * 0 + d) true) as [v b]. simpl in Hs.
    subst b. cbn [fst]. f_equal. lia. }
  destruct (isHexChar_digit c0 H0) as (d0 & Hd0 & _).
  destruct c0 as [[] [] [] [] [] [] [] []];
    try (cbv in H0; discriminate H0);
    try (exact (Hgo _ d0 _ Hd0)).
  destruct (isHexChar_digit c1 H1) as (d1 & Hd1 & _).
  destruct c1 as [[] [] [] [] [] [] [] []];
    try (cbv in H1; discriminate H1);
    exact (Hgo _ d0 _ Hd0).
Qed.
Lemma isHexChar_not_hash (c : ascii) :
  isHexChar c = true -> Ascii.eqb "#" c = false.
Proof.
  destruct c as [[] [] [] [] [] [] [] []]; intros H;
    try (cbv in H; discriminate H); reflexivity.
Qed.

(** The three bytes of a number below [2^24]. *)
Lemma rgb_bytes (a b c : Z) :
  0 <= a <= 255 -> 0 <= b <= 255 -> 0 <= c <= 255 ->
  Z.land (Z.shiftr (a * 65536 + b * 256 + c) 16) 255 = a
  /\ Z.land (Z.shiftr (a * 65536 + b * 256 + c) 8) 255 = b
  /\ Z.land (a * 65536 + b * 256 + c) 255 = c.
Proof.
  intros Ha Hb Hc. change 255 with (Z.ones 8).
  rewrite !Z.land_ones, !Z.shiftr_div_pow2 by lia.
  change (2 ^ 16) with 65536. change (2 ^ 8) with 256.
  repeat split; Z.div_mod_to_equations; lia.
Qed.

Lemma land_255_bounds (n : Z) : 0 <= Z.land n 255 <= 255.
Proof.
  change (Z.land n 255) with (Z.land n (Z.ones 8)).
  rewrite Z.land_ones by lia.
  change (2 ^ 8) with 256. Z.div_mod_to_equations; lia.
Qed.

(** Six digits, with or without [#], are read two by two. *)
Lemma hexToRgbColor_six (hash : bool) (c0 c1 c2 c3 c4 c5 : ascii)
  (v0 v1 v2 v3 v4 v5 : Z) :
  JS.hexDigit c0 = Some v0 -> JS.hexDigit c1 = Some v1 ->
  JS.hexDigit c2 = Some v2 -> JS.hexDigit c3 = Some v3 ->
  JS.hexDigit c4 = Some v4 -> JS.hexDigit c5 = Some v5 ->
  hexToRgbColor
    (hashed hash
       (String c0 (String c1 (String c2 (String c3 (String c4
          (String c5 "")))))))
  = Some {| red := channel (16 * v0 + v1);
            green := channel (16 * v2 + v3);
            blue := channel (16 * v4 + v5) |}.
Proof.
  intros H0 H1 H2 H3 H4 H5.
  destruct (hexDigit_isHexChar _ _ H0) as [I0 B0].
  destruct (hexDigit_isHexChar _ _ H1) as [I1 B1].
  destruct (hexDigit_isHexChar _ _ H2) as [_ B2].
  destruct (hexDigit_isHexChar _ _ H3) as [_ B3].
  destruct (hexDigit_isHexChar _ _ H4) as [_ B4].
  destruct (hexDigit_isHexChar _ _ H5) as [_ B5].
  assert (Hcore :
           (if negb (JS.len (String c0 (String c1 (String c2 (String c3
                       (String c4 (String c5 "")))))) =? 6) then None
            else
              match JS.parseInt16 (String c0 (String c1 (String c2
                      (String c3 (String c4 (String c5 "")))))) with
              | None => None
              | Some bigint =>
                  Some {| red := Z.land (Z.shiftr bigint 16) 255 # 255;
                          green := Z.land (Z.shiftr bigint 8) 255 # 255;
                          blue := Z.land bigint 255 # 255 |}
              end)
           = Some {| red := channel (16 * v0 + v1);
                     green := channel (16 * v2 + v3);
                     blue := channel (16 * v4 + v5) |}).
  { change (JS.len _ =? 6) with true. cbn [negb].
    rewrite (parseInt16_digits _ _ _ I0 I1).
    cbn [JS.hexPrefix]. rewrite H0, H1, H2, H3, H4, H5. cbn [fst].
    replace (16 * (16 * (16 * (16 * (16 * (16 * 0 + v0) + v1) + v2) + v3)
                   + v4) + v5)
      with ((16 * v0 + v1) * 65536 + (16 * v2 + v3) * 256 + (16 * v4 + v5))
      by lia.
    destruct (rgb_bytes (16 * v0 + v1) (16 * v2 + v3) (16 * v4 + v5))
      as (-> & -> & ->); try lia.
    reflexivity. }
  destruct hash; unfold hexToRgbColor, hashed.
  - exact Hcore.
  - change (JS.truthyString _) with true. cbn [negb JS.startsWith].
    rewrite (isHexChar_not_hash _ I0). exact Hcore.
Qed.

(** Three digits, with or without [#], are each read twice. *)
Lemma hexToRgbColor_three (hash : bool) (c0 c1 c2 : ascii) (v0 v1 v2 : Z) :
  JS.hexDigit c0 = Some v0 -> JS.hexDigit c1 = Some v1 ->
  JS.hexDigit c2 = Some v2 ->
  hexToRgbColor (hashed hash (String c0 (String c1 (String c2 ""))))
  = Some {| red := channel (17 * v0);
            green := channel (17 * v1);
            blue := channel (17 * v2) |}.
Proof.
  intros H0 H1 H2.
  pose proof (hexToRgbColor_six false c0 c0 c1 c1 c2 c2 _ _ _ _ _ _
                H0 H0 H1 H1 H2 H2) as H6.
  replace (17 * v0) with (16 * v0 + v0) by lia.
  replace (17 * v1) with (16 * v1 + v1) by lia.
  replace (17 * v2) with (16 * v2 + v2) by lia.
  rewrite <- H6. clear H6.
  destruct (hexDigit_isHexChar _ _ H0) as [I0 _].
  destruct hash; unfold hexToRgbColor, hashed.
  - change (JS.truthyString _) with true.
    cbn [negb JS.startsWith JS.skip].
    rewrite (isHexChar_not_hash _ I0). reflexivity.
  - change (JS.truthyString _) with true.
    cbn [negb JS.startsWith JS.skip].
    rewrite (isHexChar_not_hash _ I0). reflexivity.
Qed.

(** What the pattern accepts, character by character. *)
Lemma validateHexColor_inv (color : string) :
  validateHexColor color = true ->
  exists (hash : bool) (digits : string),
    color = hashed hash digits
    /\ ((exists c0 c1 c2,
            digits = String c0 (String c1 (String c2 ""))
            /\ isHexChar c0 = true /\ isHexChar c1 = true
            /\ isHexChar c2 = true)
        \/ (exists c0 c1 c2 c3 c4 c5,
               digits = String c0 (String c1 (String c2 (String c3
                          (String c4 (String c5 "")))))
               /\ isHexChar c0 = true /\ isHexChar c1 = true
               /\ isHexChar c2 = true /\ isHexChar c3 = true
               /\ isHexChar c4 = true /\ isHexChar c5 = true)).
Proof.
  unfold validateHexColor, hexColorRegex, Regex.test. intros H.
  apply matches_Seq_inv in H. destruct H as (p & digits & -> & Hp & Hd).
  assert (Hhash : exists hash : bool,
             (p ++ digits)%string = hashed hash digits).
  { unfold regexOpt in Hp. rewrite matches_Alt in Hp.
    apply orb_true_iff in Hp. destruct Hp as [Hp|Hp].
    - apply matches_Chr_inv in Hp. destruct Hp as (c & -> & Hc).
      apply Ascii.eqb_eq in Hc. subst c. now exists true.
    - apply matches_Eps_inv in Hp. subst p. now exists false. }
  destruct Hhash as [hash ->]. exists hash, digits. split; [reflexivity|].
  rewrite matches_Alt in Hd. apply orb_true_iff in Hd.
  cbn [Regex.seq] in Hd. unfold hexChar in Hd.
  destruct Hd as [Hd|Hd]; [left|right];
    repeat match goal with
      | H : Regex.matches (Regex.Seq _ _) _ = true |- _ =>
          apply matches_Seq_inv in H;
          let s1 := fresh "s" in
          let s2 := fresh "s" in
          let Ha := fresh "Ha" in
          let Hb := fresh "Hb" in
          destruct H as (s1 & s2 & -> & Ha & Hb)
      | H : Regex.matches (Regex.Chr _) _ = true |- _ =>
          apply matches_Chr_inv in H;
          let c := fresh "c" in
          let Hc := fresh "Hc" in
          destruct H as (c & -> & Hc)
      | H : Regex.matches Regex.Eps _ = true |- _ =>
          apply matches_Eps_inv in H; subst
      end;
    cbn [append]; repeat eexists; assumption.
Qed.

(** ** X5: the colours that [validateHexColor] accepts *)

(** X5 ([validateHexColor], [hexColorRegex]): the pattern accepts exactly
    the texts made of an optional [#] followed by three or by six digits
    of radix 16. *)
Theorem validateHexColor_accepts_three_or_six_digits (color : string) :
  validateHexColor color = true
  <-> exists (hash : bool) (digits : string),
        color = hashed hash digits
        /\ (JS.len digits = 3 \/ JS.len digits = 6)
        /\ hexNumeral digits.
Proof.
  split.
  - intros H. apply validateHexColor_inv in H.
    destruct H as (hash & digits & -> & Hd). exists hash, digits.
    split; [reflexivity|].
    destruct Hd as [(c0 & c1 & c2 & -> & I0 & I1 & I2)
                   |(c0 & c1 & c2 & c3 & c4 & c5 & -> & I0 & I1 & I2 & I3
                     & I4 & I5)].
    + split; [now left|]. unfold hexNumeral. cbn [list_ascii_of_string].
      repeat constructor;
        match goal with
        | |- exists v, JS.hexDigit ?c = Some v =>
            let H := fresh in
            assert (H : isHexChar c = true) by assumption;
            destruct (isHexChar_digit c H) as (v & Hv & _); now exists v
        end.
    + split; [now right|]. unfold hexNumeral. cbn [list_ascii_of_string].
      repeat constructor;
        match goal with
        | |- exists v, JS.hexDigit ?c = Some v =>
            let H := fresh in
            assert (H : isHexChar c = true) by assumption;
            destruct (isHexChar_digit c H) as (v & Hv & _); now exists v
        end.
  - intros (hash & digits & -> & Hlen & Hnum).
    assert (Hbody :
             Regex.matches
               (Regex.Alt
                  (Regex.seq [hexChar; hexChar; hexChar])
                  (Regex.seq [hexChar; hexChar; hexChar; hexChar; hexChar;
                              hexChar])) digits = true).
    { rewrite matches_Alt. apply orb_true_iff. unfold hexNumeral in Hnum.
      assert (Hchar : forall c,
                 (exists v, JS.hexDigit c = Some v) ->
                 Regex.matches hexChar (String c "") = true).
      { intros c [v Hv]. apply hexDigit_isHexChar in Hv.
        destruct Hv as [Hv _]. simpl. now rewrite Hv. }
      destruct Hlen as [Hlen|Hlen]; [left|right];
        unfold JS.len in Hlen;
        destruct digits as [|a [|a0 [|a1 [|a2 [|a3 [|a4 [|a5 digits]]]]]]];
        cbn [String.length] in Hlen; try lia;
        cbn [list_ascii_of_string] in Hnum;
        repeat match goal with
          | H : Forall _ (_ :: _) |- _ =>
              let Hh := fresh "Hh" in
              apply Forall_cons_iff in H; destruct H as [Hh H];
              apply Hchar in Hh
          end.
      - apply (matches_seq_flat [hexChar; hexChar; hexChar]
                 [String a ""; String a0 ""; String a1 ""]).
        repeat constructor; assumption.
      - apply (matches_seq_flat
                 [hexChar; hexChar; hexChar; hexChar; hexChar; hexChar]
                 [String a ""; String a0 ""; String a1 ""; String a2 "";
                  String a3 ""; String a4 ""]).
        repeat constructor; assumption. }
    unfold validateHexColor, hexColorRegex, Regex.test.
    destruct hash; unfold hashed.
    + apply (matches_Seq_app (regexOpt (Regex.lit "#")) _ "#" digits);
        [reflexivity|exact Hbody].
    + apply matches_Seq_nullable; [reflexivity|exact Hbody].
Qed.

(** A colour that the pattern accepts converts, to three bytes. *)
Lemma hexToRgbColor_valid (color : string) :
  validateHexColor color = true ->
  exists r g b,
    (0 <= r <= 255 /\ 0 <= g <= 255 /\ 0 <= b <= 255)
    /\ hexToRgbColor color
       = Some {| red := channel r; green := channel g; blue := channel b |}.
Proof.
  intros H. apply validateHexColor_inv in H.
  destruct H as (hash & digits & -> & Hd).
  destruct Hd as [(c0 & c1 & c2 & -> & I0 & I1 & I2)
                 |(c0 & c1 & c2 & c3 & c4 & c5 & -> & I0 & I1 & I2 & I3
                   & I4 & I5)].
  - destruct (isHexChar_digit _ I0) as (v0 & H0 & B0).
    destruct (isHexChar_digit _ I1) as (v1 & H1 & B1).
    destruct (isHexChar_digit _ I2) as (v2 & H2 & B2).
    exists (17 * v0), (17 * v1), (17 * v2). split; [lia|].
    now apply hexToRgbColor_three.
  - destruct (isHexChar_digit _ I0) as (v0 & H0 & B0).
    destruct (isHexChar_digit _ I1) as (v1 & H1 & B1).
    destruct (isHexChar_digit _ I2) as (v2 & H2 & B2).
    destruct (isHexChar_digit _ I3) as (v3 & H3 & B3).
    destruct (isHexChar_digit _ I4) as (v4 & H4 & B4).
    destruct (isHexChar_digit _ I5) as (v5 & H5 & B5).
    exists (16 * v0 + v1), (16 * v2 + v3), (16 * v4 + v5). split; [lia|].
    now apply hexToRgbColor_six.
Qed.

(** ** X6: a validated colour converts *)

(** X6 ([hexToRgbColor] after [validateHexColor]): a colour that
    [validateHexColor] accepts is never refused by [hexToRgbColor]; the
    result has three channels [n / 255] with [n] a byte. *)
Theorem hexToRgbColor_converts_validated_colours (color : string) :
  validateHexColor color = true ->
  exists r g b,
    (0 <= r <= 255 /\ 0 <= g <= 255 /\ 0 <= b <= 255)
    /\ hexToRgbColor color
       = Some {| red := channel r; green := channel g; blue := channel b |}.
Proof. exact (hexToRgbColor_valid color). Qed.

Lemma hexToRgbColor_converts_validated_witness :
  validateHexColor "#fA0" = true
  /\ exists r g b,
       (0 <= r <= 255 /\ 0 <= g <= 255 /\ 0 <= b <= 255)
       /\ hexToRgbColor "#fA0"
          = Some {| red := channel r; green := channel g;
                    blue := channel b |}.
Proof.
  split; [reflexivity|].
  apply (hexToRgbColor_converts_validated_colours "#fA0"). reflexivity.
Defined.

(** ** X7: how the digits are read *)

(** X7 ([hexToRgbColor]): six digits, with or without [#], are read two
    by two, the first of a pair counting sixteen times; three digits are
    each read twice, so that a digit of value [v] gives the byte
    [17 * v]. *)
Theorem hexToRgbColor_reads_the_digits (hash : bool)
  (c0 c1 c2 c3 c4 c5 : ascii) (v0 v1 v2 v3 v4 v5 : Z) :
  JS.hexDigit c0 = Some v0 -> JS.hexDigit c1 = Some v1 ->
  JS.hexDigit c2 = Some v2 -> JS.hexDigit c3 = Some v3 ->
  JS.hexDigit c4 = Some v4 -> JS.hexDigit c5 = Some v5 ->
  hexToRgbColor
    (hashed hash
       (String c0 (String c1 (String c2 (String c3 (String c4
          (String c5 "")))))))
  = Some {| red := channel (16 * v0 + v1);
            green := channel (16 * v2 + v3);
            blue := channel (16 * v4 + v5) |}
  /\ hexToRgbColor (hashed hash (String c0 (String c1 (String c2 ""))))
     = Some {| red := channel (17 * v0);
               green := channel (17 * v1);
               blue := channel (17 * v2) |}.
Proof.
  intros H0 H1 H2 H3 H4 H5. split.
  - now apply hexToRgbColor_six.
  - now apply hexToRgbColor_three.
Qed.

Lemma hexToRgbColor_reads_the_digits_witness :
  hexToRgbColor "#1e90Ff"
  = Some {| red := channel 30; green := channel 144; blue := channel 255 |}
  /\ hexToRgbColor "#1e9"
     = Some {| red := channel 17; green := channel 238;
               blue := channel 153 |}.
Proof.
  exact (hexToRgbColor_reads_the_digits true "1" "e" "9" "0" "F" "f"
           1 14 9 0 15 15 eq_refl eq_refl eq_refl eq_refl eq_refl eq_refl).
Defined.

(** ** X8: the channels are fractions of one *)

(** X8 ([hexToRgbColor]): whatever text it is given, a colour that
    [hexToRgbColor] returns has its three channels between 0 and 1. *)
Theorem hexToRgbColor_channels_in_unit_interval (hex : string)
  (rgb : RgbColor) :
  hexToRgbColor hex = Some rgb ->
  (0 <= red rgb <= 1 /\ 0 <= green rgb <= 1 /\ 0 <= blue rgb <= 1)%Q.
Proof.
  unfold hexToRgbColor.
  destruct (negb (JS.truthyString hex)); [discriminate|].
  match goal with
  | |- (if ?c then _ else _) = _ -> _ => destruct c; [discriminate|]
  end.
  match goal with
  | |- match ?p with _ => _ end = _ -> _ =>
      destruct p as [bigint|]; [|discriminate]
  end.
  intros [= <-]. cbn [red green blue]. unfold Qle. cbn [Qnum Qden].
  pose proof (land_255_bounds (Z.shiftr bigint 16)).
  pose proof (land_255_bounds (Z.shiftr bigint 8)).
  pose proof (land_255_bounds bigint).
  repeat split; lia.
Qed.

Lemma hexToRgbColor_channels_witness :
  hexToRgbColor "-1234z" = Some {| red := 255 # 255; green := 237 # 255;
                                   blue := 204 # 255 |}
  /\ (0 <= 255 # 255 <= 1 /\ 0 <= 237 # 255 <= 1 /\ 0 <= 204 # 255 <= 1)%Q.
Proof.
  split; [reflexivity|].
  exact (hexToRgbColor_channels_in_unit_interval "-1234z"
           {| red := 255 # 255; green := 237 # 255; blue := 204 # 255 |}
           eq_refl).
Defined.

(** ** X9: the text-style compiler and validated colours *)

(** X9 ([buildUpdateTextStyleRequest] after [validateHexColor]): when the
    colours of the style, if any, are accepted by [validateHexColor], the
    compiler does not throw. *)
Theorem buildUpdateTextStyleRequest_accepts_validated_colours
  (startIndex endIndex : Z) (style : TextStyleArgs) :
  (forall hex, foregroundColor style = Some hex ->
               validateHexColor hex = true) ->
  (forall hex, backgroundColor style = Some hex ->
               validateHexColor hex = true) ->
  exists outcome,
    buildUpdateTextStyleRequest startIndex endIndex style = Ok outcome.
Proof.
  intros Hf Hb. unfold buildUpdateTextStyleRequest, andThen.
  destruct (collectTextStyle style) as [b|e] eqn:E.
  - destruct (JS.alen (fieldsToUpdate b) =? 0); eauto.
  - exfalso. destruct (collectTextStyle_throws _ _ E) as (hex & Hhex & Hno).
    assert (Hv : validateHexColor hex = true)
      by (destruct Hhex; [now apply Hf|now apply Hb]).
    destruct (hexToRgbColor_valid hex Hv) as (r & g & bl & _ & Hsome).
    congruence.
Qed.

Lemma buildUpdateTextStyleRequest_validated_witness :
  exists outcome,
    buildUpdateTextStyleRequest 1 5
      {| bold := None; italic := None; underline := None;
         strikethrough := None; fontSize := None; fontFamily := None;
         foregroundColor := Some "#F00"; backgroundColor := Some "00ff7f";
         linkUrl := None |}
    = Ok outcome.
Proof.
  apply (buildUpdateTextStyleRequest_accepts_validated_colours 1 5
           {| bold := None; italic := None; underline := None;
              strikethrough := None; fontSize := None; fontFamily := None;
              foregroundColor := Some "#F00";
              backgroundColor := Some "00ff7f"; linkUrl := None |}).
  - intros hex [= <-]. reflexivity.
  - intros hex [= <-]. reflexivity.
Defined.

(** ** Paragraph styles *)

Lemma paragraphPropertyName_injective (p q : ParagraphProperty) :
  paragraphPropertyName p = paragraphPropertyName q -> p = q.
Proof. destruct p, q; simpl; intros H; try reflexivity; discriminate H. Qed.

Lemma paragraphFields_set (style : ParagraphStyleArgs) :
  paragraphFields style
  = map paragraphPropertyName
      (filter (paragraphPropertySet style) allParagraphProperties).
Proof.
  destruct style as [[a|] [b|] [c|] [d|] [e|] [f|] [g|]]; reflexivity.
Qed.

Lemma allParagraphProperties_NoDup : NoDup allParagraphProperties.
Proof.
  unfold allParagraphProperties.
  repeat (constructor; [simpl; intuition discriminate|]). constructor.
Qed.

Lemma NoDup_map_injective {A B : Type} (f : A -> B) (l : list A) :
  (forall x y, f x = f y -> x = y) -> NoDup l -> NoDup (map f l).
Proof.
  intros Hinj. induction 1 as [|x l Hx _ IH]; simpl; constructor; auto.
  intros Hin. apply in_map_iff in Hin. destruct Hin as (y & Hy & Hin).
  apply Hinj in Hy. now subst y.
Qed.

(** ** X10: the field mask of a paragraph style *)

(** X10 ([buildUpdateParagraphStyleRequest]): the compiled request names
    in its mask the properties that the intent sets, each once, in the
    order of the source, and nothing else; the mask is never empty, the
    range is the one asked for, and no request is compiled for an intent
    without properties. *)
Theorem paragraph_field_mask_lists_exactly_the_set_properties :
  forall (startIndex endIndex : Z) (style : ParagraphStyleArgs),
    match buildUpdateParagraphStyleRequest startIndex endIndex style with
    | Some (request, fields) =>
        fields
        = map paragraphPropertyName
            (filter (paragraphPropertySet style) allParagraphProperties)
        /\ NoDup fields
        /\ fields <> []
        /\ (forall p, In (paragraphPropertyName p) fields
                      <-> paragraphPropertySet style p = true)
        /\ ups_fields request = join "," fields
        /\ ups_range request
           = {| range_start := startIndex; range_end := endIndex |}
    | None => forall p, paragraphPropertySet style p = false
    end.
Proof.
  intros s e style. unfold buildUpdateParagraphStyleRequest.
  rewrite paragraphFields_set.
  assert (Hin : forall p,
             In (paragraphPropertyName p)
               (map paragraphPropertyName
                  (filter (paragraphPropertySet style)
                     allParagraphProperties))
             <-> paragraphPropertySet style p = true).
  { intros p. rewrite in_map_iff. split.
    - intros (q & Hq & Hin). apply paragraphPropertyName_injective in Hq.
      subst q. now apply filter_In in Hin.
    - intros H. exists p. split; [reflexivity|]. apply filter_In.
      split; [|exact H]. destruct p; simpl; tauto. }
  destruct (JS.alen _ =? 0) eqn:E0.
  - apply Z.eqb_eq, alen_zero_iff in E0. intros p.
    destruct (paragraphPropertySet style p) eqn:Hp; [|reflexivity].
    apply Hin in Hp. rewrite E0 in Hp. destruct Hp.
  - split; [reflexivity|]. split.
    { apply NoDup_map_injective.
      - exact paragraphPropertyName_injective.
      - apply NoDup_filter, allParagraphProperties_NoDup. }
    split.
    { intros Hnil. rewrite Hnil in E0. discriminate E0. }
    split; [exact Hin|]. split; reflexivity.
Qed.

(** ** Text insertion *)

(** ** X11: what [insertText] sends *)

(** X11 ([insertText]): for an empty text nothing is sent and the answer
    is the empty response; for any other text exactly one call is made,
    whose batch is the single insertion of the text at the index, and an
    answer of the service is the answer of the helper. *)
Theorem insertText_sends_one_insertion_or_nothing :
  forall (docs : Docs) (documentId text : string) (index : Z) (w : World),
    (text = "" ->
     insertText docs documentId text index w = (Ok emptyResponse, w))
    /\ (text <> "" ->
        network (snd (insertText docs documentId text index w))
        = network w ++ [DocumentsBatchUpdate documentId
                          [InsertText index text]]
        /\ forall resp,
             documents_batchUpdate docs documentId [InsertText index text]
             = inr resp ->
             fst (insertText docs documentId text index w) = Ok resp).
Proof.
  intros docs documentId text index w. split.
  - intros ->. reflexivity.
  - intros Hne. unfold insertText.
    assert (Ht : JS.truthyString text = true).
    { unfold JS.truthyString. destruct (String.eqb text "") eqn:E;
        [|reflexivity]. apply String.eqb_eq in E. contradiction. }
    rewrite Ht. cbn [negb]. split.
    + apply executeBatchUpdate_network. discriminate.
    + intros resp Hr. apply executeBatchUpdate_accepted;
        [discriminate|exact Hr].
Qed.

(** ** Table cells *)

(** Whatever its outcome, [getTableCellRange] makes one call, the
    fetch, and [console.error] is its only other effect. *)
Lemma getTableCellRange_network (docs : Docs) (documentId : string)
  (tableStartIndex rowIndex columnIndex : Z) (w : World) :
  network (snd (getTableCellRange docs documentId tableStartIndex rowIndex
                  columnIndex w))
  = network w ++ [DocumentsGet documentId].
Proof.
  unfold getTableCellRange, tryCatch, bind, documentsGet, call, lift,
    consoleError, throw, ret.
  destruct (documents_get docs documentId) as [e|[c|]]; try reflexivity.
  destruct (cellRangeLoop c tableStartIndex rowIndex columnIndex);
    reflexivity.
Qed.

Lemma getTableCellRange_outcome (docs : Docs) (documentId : string)
  (content : Body) (tableStartIndex rowIndex columnIndex : Z) (w : World) :
  documents_get docs documentId = inr content ->
  fst (getTableCellRange docs documentId tableStartIndex rowIndex
         columnIndex w)
  = match content with
    | Some c => cellRangeLoop c tableStartIndex rowIndex columnIndex
    | None => Ok None
    end.
Proof.
  intros H. destruct content as [c|].
  - now apply getTableCellRange_fetched.
  - unfold getTableCellRange, tryCatch, bind, documentsGet, call, ret.
    now rewrite H.
Qed.

Lemma cellRangeLoop_no_table (c : list StructuralElement)
  (tableStartIndex rowIndex columnIndex : Z) :
  noTableAt tableStartIndex c ->
  cellRangeLoop c tableStartIndex rowIndex columnIndex = Ok None.
Proof.
  intros H. rewrite <- (app_nil_r c).
  now rewrite cellRangeLoop_skip.
Qed.

(** [updateTableCellContent] on the outcome of the lookup of the cell. *)
Lemma updateTableCellContent_on_lookup (docs : Docs) (documentId : string)
  (tableStartIndex rowIndex columnIndex : Z) (newContent : string)
  (w : World) :
  updateTableCellContent docs documentId tableStartIndex rowIndex columnIndex
    newContent w
  = match getTableCellRange docs documentId tableStartIndex rowIndex
            columnIndex w with
    | (Ok (Some cellRange), w') =>
        executeBatchUpdate docs documentId
          (cellContentRequests cellRange newContent) w'
    | (Ok None, w') =>
        (Throw (UserError (strcat
           ["Could not find cell at row "; numberToString rowIndex;
            ", column "; numberToString columnIndex; " in table at index ";
            numberToString tableStartIndex; "."])), w')
    | (Throw e, w') => (Throw e, w')
    end.
Proof.
  unfold updateTableCellContent, bind.
  destruct (getTableCellRange _ _ _ _ _ w) as [[[r|]|e] w']; reflexivity.
Qed.

(** ** X12: a cell update without the table *)

(** X12 ([updateTableCellContent], [getTableCellRange]): when no element
    of the document is a table that starts at the given index, or the
    document has no content, the update fails with a [UserError] that
    names the cell, and the fetch is the only call made: nothing is
    written. *)
Theorem updateTableCellContent_without_the_table
  (docs : Docs) (documentId : string) (content : Body)
  (tableStartIndex rowIndex columnIndex : Z) (newContent : string)
  (w : World) :
  documents_get docs documentId = inr content ->
  noTableAt tableStartIndex (JS.orEmpty content) ->
  fst (updateTableCellContent docs documentId tableStartIndex rowIndex
         columnIndex newContent w)
  = Throw (UserError (strcat
      ["Could not find cell at row "; numberToString rowIndex;
       ", column "; numberToString columnIndex; " in table at index ";
       numberToString tableStartIndex; "."]))
  /\ network (snd (updateTableCellContent docs documentId tableStartIndex
                     rowIndex columnIndex newContent w))
     = network w ++ [DocumentsGet documentId].
Proof.
  intros Hget Hno. rewrite updateTableCellContent_on_lookup.
  pose proof (getTableCellRange_outcome docs documentId content
                tableStartIndex rowIndex columnIndex w Hget) as Hout.
  pose proof (getTableCellRange_network docs documentId tableStartIndex
                rowIndex columnIndex w) as Hnet.
  assert (Hnone : fst (getTableCellRange docs documentId tableStartIndex
                         rowIndex columnIndex w) = Ok None).
  { rewrite Hout. destruct content as [c|]; [|reflexivity].
    now apply cellRangeLoop_no_table. }
  destruct (getTableCellRange _ _ _ _ _ w) as [r w']. simpl in Hnone, Hnet.
  subst r. split; [reflexivity|exact Hnet].
Qed.

Lemma updateTableCellContent_without_the_table_witness :
  fst (updateTableCellContent (docsOf paragraphAb) "doc" 7 0 0
         "X" initialWorld)
  = Throw (UserError "Could not find cell at row 0, column 0 in table at index 7.")
  /\ network (snd (updateTableCellContent (docsOf paragraphAb)
"doc" 7 0 0 "X"
                     initialWorld))
     = [DocumentsGet "doc"].
Proof.
  refine (updateTableCellContent_without_the_table
            (docsOf paragraphAb) "doc"
            paragraphAb 7 0 0 "X" initialWorld eq_refl _).
  repeat constructor.
Defined.

(** ** X13: a cell update never submits an empty edit *)

(** X13 ([updateTableCellContent]): once the range of the cell is found,
    the batch holds at most two requests, each of which changes the text:
    a deletion is over a range that is not empty and an insertion carries
    a text that is not empty.  The batch is empty exactly when the cell
    has no content to delete and the new content is empty, and then no
    call is made after the fetch. *)
Theorem updateTableCellContent_submits_no_empty_edit
  (docs : Docs) (documentId : string)
  (tableStartIndex rowIndex columnIndex : Z) (newContent : string)
  (w : World) (cellRange : Range) :
  fst (getTableCellRange docs documentId tableStartIndex rowIndex
         columnIndex w) = Ok (Some cellRange) ->
  Forall editsSomething (cellContentRequests cellRange newContent)
  /\ (List.length (cellContentRequests cellRange newContent) <= 2)%nat
  /\ (cellContentRequests cellRange newContent = []
      <-> range_end cellRange <= range_start cellRange + 1
          /\ newContent = "")
  /\ network (snd (updateTableCellContent docs documentId tableStartIndex
                     rowIndex columnIndex newContent w))
     = network w ++ DocumentsGet documentId
         :: submission documentId (cellContentRequests cellRange newContent).
Proof.
  intros Hrange.
  assert (Hreq :
           cellContentRequests cellRange newContent
           = (if range_end cellRange >? range_start cellRange + 1
              then [DeleteContentRange
                      {| range_start := range_start cellRange + 1;
                         range_end := range_end cellRange |}]
              else [])
             ++ (if JS.truthyString newContent
                 then [InsertText (range_start cellRange + 1) newContent]
                 else [])).
  { unfold cellContentRequests.
    destruct (range_end cellRange >? range_start cellRange + 1),
      (JS.truthyString newContent); reflexivity. }
  assert (Htruthy : JS.truthyString newContent = false <-> newContent = "").
  { unfold JS.truthyString.
    destruct (String.eqb_spec newContent ""); simpl; split; intros H;
      try reflexivity; try assumption; try discriminate; contradiction. }
  split; [|split; [|split]].
  - rewrite Hreq.
    destruct (range_end cellRange >? range_start cellRange + 1) eqn:E,
      (JS.truthyString newContent) eqn:T; simpl;
      repeat (apply Forall_cons || apply Forall_nil); simpl;
      try (apply Z.gtb_lt in E; lia);
      intros Hn; apply (proj2 Htruthy) in Hn; discriminate Hn.
  - rewrite Hreq.
    destruct (range_end cellRange >? range_start cellRange + 1),
      (JS.truthyString newContent); simpl; lia.
  - rewrite Hreq.
    destruct (range_end cellRange >? range_start cellRange + 1) eqn:E,
      (JS.truthyString newContent) eqn:T; simpl;
      (split; [intros H|intros [Hle Hnil]]);
      try discriminate H;
      first
        [ apply Z.gtb_lt in E; lia
        | apply (proj2 Htruthy) in Hnil; discriminate Hnil
        | reflexivity
        | split;
          [ rewrite Z.gtb_ltb in E; apply Z.ltb_ge in E; lia
          | apply Htruthy; reflexivity ] ].
  - rewrite updateTableCellContent_on_lookup.
    pose proof (getTableCellRange_network docs documentId tableStartIndex
                  rowIndex columnIndex w) as Hnet.
    destruct (getTableCellRange _ _ _ _ _ w) as [r w'].
    simpl in Hrange, Hnet. subst r.
    destruct (cellContentRequests cellRange newContent) as [|q qs] eqn:Eq.
    + rewrite executeBatchUpdate_empty. simpl. exact Hnet.
    + rewrite executeBatchUpdate_network by discriminate.
      rewrite Hnet, <- app_assoc. reflexivity.
Qed.

Lemma updateTableCellContent_no_empty_edit_witness :
  Forall editsSomething
    (cellContentRequests {| range_start := 15; range_end := 17 |} "")
  /\ network (snd (updateTableCellContent (docsOf scenarioB) "doc" 2 1 2 ""
                     initialWorld))
     = [DocumentsGet "doc";
        DocumentsBatchUpdate "doc"
          [DeleteContentRange {| range_start := 16; range_end := 17 |}]].
Proof.
  pose proof (updateTableCellContent_submits_no_empty_edit
                (docsOf scenarioB) "doc" 2 1 2 "" initialWorld
                {| range_start := 15; range_end := 17 |} eq_refl)
    as (H1 & _ & _ & H4).
  split; [exact H1|exact H4].
Defined.

Lemma alen_nonneg (A : Type) (l : list A) : 0 <= JS.alen l.
Proof. unfold JS.alen. lia. Qed.

Lemma arrayGet_negative (A : Type) (l : list A) (i : Z) :
  i < 0 -> JS.arrayGet l i = None.
Proof.
  intros H. unfold JS.arrayGet.
  destruct (i <? 0) eqn:E; [reflexivity|]. apply Z.ltb_ge in E. lia.
Qed.

Lemma updateTableCellContent_lookup_throws (docs : Docs)
  (documentId : string) (tableStartIndex rowIndex columnIndex : Z)
  (newContent : string) (w : World) (e : Exception) :
  fst (getTableCellRange docs documentId tableStartIndex rowIndex
         columnIndex w) = Throw e ->
  fst (updateTableCellContent docs documentId tableStartIndex rowIndex
         columnIndex newContent w) = Throw e.
Proof.
  rewrite updateTableCellContent_on_lookup.
  destruct (getTableCellRange _ _ _ _ _ w) as [r w']. simpl.
  now intros ->.
Qed.

(** ** X14: negative cell coordinates *)

(** X14 ([getTableCellRange], [updateTableCellContent]): the bounds
    checks of the cell lookup have no lower bound.  In a table that is
    found, a negative row index, and a negative column index in a row
    that exists, are not reported as out of bounds: the lookup reads a
    property of [undefined] and fails with a [TypeError], which the
    update passes on. *)
Theorem getTableCellRange_negative_index_is_a_type_error
  (docs : Docs) (documentId : string) (w : World)
  (pre post : list StructuralElement) (element : StructuralElement)
  (t : Table) (tableStartIndex rowIndex columnIndex : Z)
  (newContent : string) :
  documents_get docs documentId = inr (Some (pre ++ element :: post)) ->
  noTableAt tableStartIndex pre ->
  table element = Some t ->
  startIndex element = Some tableStartIndex ->
  (rowIndex < 0 ->
   fst (getTableCellRange docs documentId tableStartIndex rowIndex
          columnIndex w) = Throw (undefinedProperty "tableCells")
   /\ fst (updateTableCellContent docs documentId tableStartIndex rowIndex
             columnIndex newContent w)
      = Throw (undefinedProperty "tableCells"))
  /\ (0 <= rowIndex < rowsOf t -> columnIndex < 0 ->
      fst (getTableCellRange docs documentId tableStartIndex rowIndex
             columnIndex w) = Throw (undefinedProperty "startIndex")
      /\ fst (updateTableCellContent docs documentId tableStartIndex
                rowIndex columnIndex newContent w)
         = Throw (undefinedProperty "startIndex")).
Proof.
  intros Hget Hpre Ht Hs.
  assert (Hloop :
           fst (getTableCellRange docs documentId tableStartIndex rowIndex
                  columnIndex w)
           = cellRangeLoop (element :: post) tableStartIndex rowIndex
               columnIndex).
  { rewrite (getTableCellRange_fetched docs documentId _ tableStartIndex
               rowIndex columnIndex w Hget).
    now apply cellRangeLoop_skip. }
  split.
  - intros Hrow.
    assert (H : fst (getTableCellRange docs documentId tableStartIndex
                       rowIndex columnIndex w)
                = Throw (undefinedProperty "tableCells")).
    { rewrite Hloop. simpl. rewrite Ht, Hs, strictEq_same.
      pose proof (alen_nonneg _ (JS.orEmpty (tableRows t))) as Hlen.
      destruct (rowIndex >=? JS.alen (JS.orEmpty (tableRows t))) eqn:E.
      { rewrite Z.geb_leb in E. apply Z.leb_le in E. lia. }
      now rewrite arrayGet_negative. }
    split; [exact H|].
    now apply updateTableCellContent_lookup_throws.
  - intros Hrow Hcol.
    assert (H : fst (getTableCellRange docs documentId tableStartIndex
                       rowIndex columnIndex w)
                = Throw (undefinedProperty "startIndex")).
    { rewrite Hloop. simpl. rewrite Ht, Hs, strictEq_same.
      unfold rowsOf in Hrow.
      destruct (rowIndex >=? JS.alen (JS.orEmpty (tableRows t))) eqn:E.
      { rewrite Z.geb_leb in E. apply Z.leb_le in E. lia. }
      destruct (JS.arrayGet (JS.orEmpty (tableRows t)) rowIndex)
        as [row|] eqn:Erow.
      2:{ exfalso. unfold JS.arrayGet in Erow.
          destruct (rowIndex <? 0) eqn:E0.
          - apply Z.ltb_lt in E0. lia.
          - apply nth_error_None in Erow. unfold JS.alen in Hrow. lia. }
      pose proof (alen_nonneg _ (JS.orEmpty (tableCells row))) as Hlen.
      destruct (columnIndex >=? JS.alen (JS.orEmpty (tableCells row)))
        eqn:E2.
      { rewrite Z.geb_leb in E2. apply Z.leb_le in E2. lia. }
      now rewrite arrayGet_negative. }
    split; [exact H|].
    now apply updateTableCellContent_lookup_throws.
Qed.

Lemma getTableCellRange_negative_index_witness :
  fst (getTableCellRange (docsOf scenarioB) "doc" 2 (-1) 0 initialWorld)
  = Throw (TypeError
             "Cannot read properties of undefined (reading 'tableCells')")
  /\ fst (updateTableCellContent (docsOf scenarioB) "doc" 2 1 (-1) "X"
            initialWorld)
     = Throw (TypeError
                "Cannot read properties of undefined (reading 'startIndex')").
Proof.
  split.
  - refine (proj1 (proj1 (getTableCellRange_negative_index_is_a_type_error
              (docsOf scenarioB) "doc" initialWorld
              [para 1 2 [run lineFeed 1 2]] []
              (tableOf 2 19
                 [ rowOf [cellOf 4 6 lineFeed; cellOf 6 8 lineFeed;
                          cellOf 8 10 lineFeed];
                   rowOf [cellOf 11 13 lineFeed; cellOf 13 15 lineFeed;
                          cellOf 15 18 ("X" ++ lineFeed)%string] ])
              {| tableRows :=
                   Some [ rowOf [cellOf 4 6 lineFeed; cellOf 6 8 lineFeed;
                                 cellOf 8 10 lineFeed];
                          rowOf [cellOf 11 13 lineFeed; cellOf 13 15 lineFeed;
                                 cellOf 15 18 ("X" ++ lineFeed)%string] ] |}
              2 (-1) 0 "X" eq_refl _ eq_refl eq_refl) _)).
    + repeat constructor.
    + lia.
  - refine (proj2 (proj2 (getTableCellRange_negative_index_is_a_type_error
              (docsOf scenarioB) "doc" initialWorld
              [para 1 2 [run lineFeed 1 2]] []
              (tableOf 2 19
                 [ rowOf [cellOf 4 6 lineFeed; cellOf 6 8 lineFeed;
                          cellOf 8 10 lineFeed];
                   rowOf [cellOf 11 13 lineFeed; cellOf 13 15 lineFeed;
                          cellOf 15 18 ("X" ++ lineFeed)%string] ])
              {| tableRows :=
                   Some [ rowOf [cellOf 4 6 lineFeed; cellOf 6 8 lineFeed;
                                 cellOf 8 10 lineFeed];
                          rowOf [cellOf 11 13 lineFeed; cellOf 13 15 lineFeed;
                                 cellOf 15 18 ("X" ++ lineFeed)%string] ] |}
              2 1 (-1) "X" eq_refl _ eq_refl eq_refl) _ _)).
    + repeat constructor.
    + unfold rowsOf, JS.alen. simpl. lia.
    + lia.
Defined.

(** ** The tools *)

(** A [try] whose handler throws only what satisfies [P] fails only with
    what satisfies [P]. *)
Lemma tryCatch_throws {A : Type} (m : M A) (handler : Exception -> M A)
  (P : Exception -> Prop) (w : World) (e : Exception) :
  (forall e' w' e'', fst (handler e' w') = Throw e'' -> P e'') ->
  fst (tryCatch m handler w) = Throw e -> P e.
Proof.
  intros Hh. unfold tryCatch. destruct (m w) as [[a|e'] w']; simpl.
  - discriminate.
  - apply Hh.
Qed.

(** The handler of the tools: a [UserError] is passed on, anything else
    is wrapped in one. *)
Lemma wrap_as_user_error {A : Type} (wrapped : string)
  (e' : Exception) (w' : World) (e'' : Exception) :
  fst ((if isUserError e' then throw e'
        else throw (A := A) (UserError wrapped)) w') = Throw e'' ->
  isUserError e'' = true.
Proof.
  destruct (isUserError e') eqn:E; unfold throw; simpl; intros [= <-];
    [exact E|reflexivity].
Qed.

(** ** X15: the tools fail with a [UserError] only *)

(** X15 ([getTableCell] and [applyTextStyle] tools): whatever the remote
    service answers and whatever the helpers throw, a failure of either
    tool is a [UserError]: the [catch] block passes a [UserError] on and
    wraps everything else in one. *)
Theorem tools_fail_with_user_errors_only :
  forall (fuel : nat) (docs : Docs) (documentId : string)
         (tableIndex rowIndex columnIndex : Z) (target : TextTarget)
         (style : TextStyleArgs) (w : World),
    (forall e,
        fst (getTableCell docs documentId tableIndex rowIndex columnIndex w)
        = Throw e ->
        isUserError e = true)
    /\ (forall e,
           fst (applyTextStyle fuel docs documentId target style w)
           = Throw e ->
           isUserError e = true).
Proof.
  intros fuel docs documentId tableIndex rowIndex columnIndex target style w.
  split; intros e.
  - unfold getTableCell.
    apply (tryCatch_throws _ _ (fun e => isUserError e = true)).
    intros e' w' e''. apply wrap_as_user_error.
  - unfold applyTextStyle. destruct target as [s en|textToFind instance];
      apply (tryCatch_throws _ _ (fun e => isUserError e = true));
      intros e' w' e''; apply wrap_as_user_error.
Qed.

Lemma arrayGet_map {A B : Type} (f : A -> B) (l : list A) (i : Z) :
  JS.arrayGet (map f l) i = option_map f (JS.arrayGet l i).
Proof.
  unfold JS.arrayGet. destruct (i <? 0); [reflexivity|].
  apply nth_error_map.
Qed.

(** ** X16: the cell that the [getTableCell] tool reads *)

(** X16 ([getTableCell] tool over [getTableStructure]): for a row that
    exists and a column index below the cell count of the first row, the
    tool reads the cell of the addressed row.  When that row has the
    cell, the report gives its trimmed text, or [(empty)], and its two
    indices, [0] standing for a missing one; when the row is shorter
    than the first, the tool fails with the wrapped [TypeError] of the
    read of [undefined]. *)
Theorem getTableCell_reads_the_addressed_row
  (docs : Docs) (documentId : string) (w : World)
  (pre post : list StructuralElement) (element : StructuralElement)
  (t : Table) (row : TableRow) (tableIndex rowIndex columnIndex : Z) :
  documents_get docs documentId = inr (Some (pre ++ element :: post)) ->
  noTableAt tableIndex pre ->
  table element = Some t ->
  startIndex element = Some tableIndex ->
  JS.arrayGet (JS.orEmpty (tableRows t)) rowIndex = Some row ->
  columnIndex < columnsOfFirstRow t ->
  (forall cell,
      JS.arrayGet (JS.orEmpty (tableCells row)) columnIndex = Some cell ->
      fst (getTableCell docs documentId tableIndex rowIndex columnIndex w)
      = Ok (strcat
          ["**Cell at row "; numberToString rowIndex; ", column ";
           numberToString columnIndex; ":**"; newline; newline;
           "Content: ";
           (if JS.truthyString (JS.trim (cellTextOf cell))
            then JS.trim (cellTextOf cell) else "(empty)"); newline;
           "Start index: ";
           numberToString (JS.orZero (cell_startIndex cell)); newline;
           "End index: ";
           numberToString (JS.orZero (cell_endIndex cell)); newline]))
  /\ (JS.arrayGet (JS.orEmpty (tableCells row)) columnIndex = None ->
      fst (getTableCell docs documentId tableIndex rowIndex columnIndex w)
      = Throw (UserError
          "Failed to get table cell: Cannot read properties of undefined (reading 'content')")).
Proof.
  intros Hget Hpre Ht Hs Hrow Hcol.
  pose proof (tableStructureLoop_at pre post element t tableIndex Hpre Ht Hs)
    as Hts.
  pose proof (arrayGet_bounds _ _ _ _ Hrow) as Hb.
  assert (Hstep :
           fst (getTableCell docs documentId tableIndex rowIndex columnIndex
                  w)
           = match JS.arrayGet (JS.orEmpty (tableCells row)) columnIndex with
             | Some cell =>
                 Ok (strcat
                   ["**Cell at row "; numberToString rowIndex; ", column ";
                    numberToString columnIndex; ":**"; newline; newline;
                    "Content: ";
                    (if JS.truthyString (JS.trim (cellTextOf cell))
                     then JS.trim (cellTextOf cell) else "(empty)"); newline;
                    "Start index: ";
                    numberToString (JS.orZero (cell_startIndex cell));
                    newline;
                    "End index: ";
                    numberToString (JS.orZero (cell_endIndex cell)); newline])
             | None =>
                 Throw (UserError
                   "Failed to get table cell: Cannot read properties of undefined (reading 'content')")
             end).
  { unfold getTableCell, getTableStructure, tryCatch, bind, documentsGet,
      call, ret, throw.
    rewrite Hget, Hts.
    change (tst_rows (tableStructureOf element t))
      with (JS.alen (JS.orEmpty (tableRows t))).
    change (tst_columns (tableStructureOf element t))
      with (firstRowLength (JS.orEmpty (tableRows t))).
    rewrite firstRowLength_columnsOfFirstRow.
    destruct (rowIndex >=? JS.alen (JS.orEmpty (tableRows t))) eqn:E.
    { rewrite Z.geb_leb in E. apply Z.leb_le in E. lia. }
    destruct (columnIndex >=? columnsOfFirstRow t) eqn:E2.
    { rewrite Z.geb_leb in E2. apply Z.leb_le in E2. lia. }
    change (tst_cells (tableStructureOf element t))
      with (map (fun row => map cellInfoOf (JS.orEmpty (tableCells row)))
              (JS.orEmpty (tableRows t))).
    rewrite arrayGet_map, Hrow. cbn [option_map].
    rewrite arrayGet_map.
    destruct (JS.arrayGet (JS.orEmpty (tableCells row)) columnIndex)
      as [cell|]; reflexivity. }
  split.
  - intros cell Hcell. rewrite Hstep, Hcell. reflexivity.
  - intros Hnone. rewrite Hstep, Hnone. reflexivity.
Qed.

Lemma getTableCell_reads_the_addressed_row_witness :
  fst (getTableCell (docsOf scenarioB) "doc" 2 1 2 initialWorld)
  = Ok (strcat ["**Cell at row 1, column 2:**"; newline; newline;
                "Content: X"; newline; "Start index: 15"; newline;
                "End index: 18"; newline])
  /\ fst (getTableCell (docsOf shortRowTable) "doc" 2 1 2 initialWorld)
     = Throw (UserError
         "Failed to get table cell: Cannot read properties of undefined (reading 'content')").
Proof.
  split.
  - refine (proj1 (getTableCell_reads_the_addressed_row
              (docsOf scenarioB) "doc" initialWorld
              [para 1 2 [run lineFeed 1 2]] []
              (tableOf 2 19
                 [ rowOf [cellOf 4 6 lineFeed; cellOf 6 8 lineFeed;
                          cellOf 8 10 lineFeed];
                   rowOf [cellOf 11 13 lineFeed; cellOf 13 15 lineFeed;
                          cellOf 15 18 ("X" ++ lineFeed)%string] ])
              {| tableRows :=
                   Some [ rowOf [cellOf 4 6 lineFeed; cellOf 6 8 lineFeed;
                                 cellOf 8 10 lineFeed];
                          rowOf [cellOf 11 13 lineFeed; cellOf 13 15 lineFeed;
                                 cellOf 15 18 ("X" ++ lineFeed)%string] ] |}
              (rowOf [cellOf 11 13 lineFeed; cellOf 13 15 lineFeed;
                      cellOf 15 18 ("X" ++ lineFeed)%string])
              2 1 2 eq_refl _ eq_refl eq_refl eq_refl eq_refl)
              (cellOf 15 18 ("X" ++ lineFeed)%string) eq_refl).
    repeat constructor.
  - refine (proj2 (getTableCell_reads_the_addressed_row
              (docsOf shortRowTable) "doc" initialWorld [] []
              (tableOf 2 17
                 [ rowOf [cellOf 4 6 lineFeed; cellOf 6 8 lineFeed;
                          cellOf 8 10 lineFeed];
                   rowOf [cellOf 11 13 lineFeed; cellOf 13 15 lineFeed] ])
              {| tableRows :=
                   Some [ rowOf [cellOf 4 6 lineFeed; cellOf 6 8 lineFeed;
                                 cellOf 8 10 lineFeed];
                          rowOf [cellOf 11 13 lineFeed;
                                 cellOf 13 15 lineFeed] ] |}
              (rowOf [cellOf 11 13 lineFeed; cellOf 13 15 lineFeed])
              2 1 2 eq_refl _ eq_refl eq_refl eq_refl eq_refl) eq_refl).
    constructor.
Defined.

(** ** The structure of a table *)

Lemma trimEnd_cons (c : ascii) (s : string) :
  JS.trimEnd (String c s)
  = match JS.trimEnd s with
    | EmptyString =>
        if JS.isWhiteSpace c then EmptyString else String c EmptyString
    | t => String c t
    end.
Proof. reflexivity. Qed.

Lemma trimEnd_idempotent (s : string) :
  JS.trimEnd (JS.trimEnd s) = JS.trimEnd s.
Proof.
  induction s as [|c s IH]; [reflexivity|]. rewrite trimEnd_cons.
  destruct (JS.trimEnd s) as [|d t] eqn:E.
  - destruct (JS.isWhiteSpace c) eqn:Ec; [reflexivity|].
    rewrite trimEnd_cons. cbn [JS.trimEnd]. now rewrite Ec.
  - rewrite trimEnd_cons, IH. reflexivity.
Qed.

(** [trimStart] leaves nothing to take off at the start, and [trimEnd]
    does not touch the start of such a text. *)
Lemma trimStart_trimEnd_trimStart (s : string) :
  JS.trimStart (JS.trimEnd (JS.trimStart s)) = JS.trimEnd (JS.trimStart s).
Proof.
  induction s as [|c s IH]; [reflexivity|]. cbn [JS.trimStart].
  destruct (JS.isWhiteSpace c) eqn:Ec; [exact IH|].
  rewrite trimEnd_cons.
  destruct (JS.trimEnd s) as [|d t]; rewrite ?Ec; cbn [JS.trimStart];
    now rewrite Ec.
Qed.

Lemma trim_idempotent (s : string) : JS.trim (JS.trim s) = JS.trim s.
Proof.
  unfold JS.trim. rewrite trimStart_trimEnd_trimStart.
  apply trimEnd_idempotent.
Qed.

Lemma getTableStructure_found (docs : Docs) (documentId : string)
  (tableStartIndex : Z) (w : World) (ts : TableStructure) :
  fst (getTableStructure docs documentId tableStartIndex w) = Ok (Some ts) ->
  exists c,
    documents_get docs documentId = inr (Some c)
    /\ tableStructureLoop c tableStartIndex = Some ts.
Proof.
  unfold getTableStructure, tryCatch, bind, documentsGet, call, ret,
    consoleError, throw.
  destruct (documents_get docs documentId) as [e|[c|]]; simpl;
    try discriminate.
  intros [= H]. now exists c.
Qed.

(** ** X17: the grid of [getTableStructure] *)

(** X17 ([getTableStructure]): a structure that is returned is that of a
    table which starts at the index asked for; its row count is the
    number of rows of its grid, its column count is the length of the
    first row of the grid, [0] for a grid without rows, whatever the
    lengths of the other rows; and the text of every cell of the grid is
    trimmed: trimming it again changes nothing. *)
Theorem getTableStructure_grid
  (docs : Docs) (documentId : string) (tableStartIndex : Z) (w : World)
  (ts : TableStructure) :
  fst (getTableStructure docs documentId tableStartIndex w) = Ok (Some ts) ->
  tst_startIndex ts = Some tableStartIndex
  /\ tst_rows ts = JS.alen (tst_cells ts)
  /\ tst_columns ts
     = match tst_cells ts with
       | [] => 0
       | row :: _ => JS.alen row
       end
  /\ Forall (Forall (fun cell => JS.trim (ci_content cell) = ci_content cell))
       (tst_cells ts).
Proof.
  intros H. apply getTableStructure_found in H. destruct H as (c & _ & Hts).
  apply tableStructureLoop_found in Hts.
  destruct Hts as (pre & element & post & t & _ & _ & Ht & Hs & ->).
  unfold tableStructureOf. cbn [tst_startIndex tst_rows tst_columns tst_cells].
  split; [exact Hs|]. split; [|split].
  - unfold JS.alen. now rewrite length_map.
  - unfold firstRowLength.
    destruct (JS.orEmpty (tableRows t)) as [|row rows]; [reflexivity|].
    cbn [JS.arrayGet Z.ltb Z.compare Z.to_nat nth_error map].
    destruct (tableCells row) as [cells|]; unfold JS.alen; cbn [JS.orEmpty];
      now rewrite length_map.
  - apply Forall_map, Forall_forall. intros row _.
    apply Forall_map, Forall_forall. intros cell _.
    cbn [cellInfoOf ci_content]. apply trim_idempotent.
Qed.

Lemma getTableStructure_grid_witness :
  exists ts,
    fst (getTableStructure (docsOf raggedTable) "doc" 2 initialWorld)
    = Ok (Some ts)
    /\ map JS.alen (tst_cells ts) = [3; 4]
    /\ tst_startIndex ts = Some 2
    /\ tst_rows ts = JS.alen (tst_cells ts)
    /\ tst_columns ts
       = match tst_cells ts with
         | [] => 0
         | row :: _ => JS.alen row
         end
    /\ Forall
         (Forall (fun cell => JS.trim (ci_content cell) = ci_content cell))
         (tst_cells ts).
Proof.
  eexists. split; [reflexivity|]. split; [reflexivity|].
  apply (getTableStructure_grid (docsOf raggedTable) "doc" 2 initialWorld).
  reflexivity.
Defined.

(** ** The [applyTextStyle] tool *)

(** Whatever its outcome, [findTextRange] makes one call, the fetch. *)
Lemma findTextRange_network (fuel : nat) (docs : Docs)
  (documentId textToFind : string) (instance : Z) (w : World) :
  network (snd (findTextRange fuel docs documentId textToFind instance w))
  = network w ++ [DocumentsGet documentId].
Proof.
  unfold findTextRange, tryCatch, bind, documentsGet, call, consoleWarn,
    consoleError, throw, ret.
  destruct (documents_get docs documentId) as [e|[c|]]; reflexivity.
Qed.

(** A request that the text-style compiler returns is a text-style
    request over the range it was given. *)
Lemma buildUpdateTextStyleRequest_range (startIndex endIndex : Z)
  (style : TextStyleArgs) (request : Request) (fields : list string) :
  buildUpdateTextStyleRequest startIndex endIndex style
  = Ok (Some (request, fields)) ->
  exists ts,
    request
    = UpdateTextStyle {| range_start := startIndex; range_end := endIndex |}
        ts (join "," fields).
Proof.
  unfold buildUpdateTextStyleRequest, andThen.
  destruct (collectTextStyle style) as [b|e]; [|discriminate].
  destruct (JS.alen (fieldsToUpdate b) =? 0); [discriminate|].
  intros [= <- <-]. now exists (textStyle b).
Qed.

(** The statements of the tool after the range is known. *)
Lemma styling_calls (docs : Docs) (documentId : string) (s e : Z)
  (style : TextStyleArgs) (w : World) :
  exists calls,
    network (snd
      ((if e <=? s then
          throw (UserError
            "End index must be greater than start index for styling.")
        else
          requestInfo <- lift (buildUpdateTextStyleRequest s e style) ;;
          match requestInfo with
          | None => ret (Done "No valid text styling options were provided.")
          | Some (request, fields) =>
              executeBatchUpdate docs documentId [request] ;;;
              ret (Done (strcat
                ["Successfully applied text style (";
                 join ", " fields; ") to range "; numberToString s;
                 "-"; numberToString e; "."]))
          end) w))
    = network w ++ calls
    /\ Forall stylesNonEmptyRange calls /\ (List.length calls <= 1)%nat.
Proof.
  destruct (e <=? s) eqn:E.
  - exists []. simpl. rewrite app_nil_r. repeat split; auto.
  - apply Z.leb_gt in E. unfold bind, lift.
    destruct (buildUpdateTextStyleRequest s e style)
      as [[[request fields]|]|ex] eqn:Eb.
    + destruct (buildUpdateTextStyleRequest_range _ _ _ _ _ Eb) as [ts ->].
      exists [DocumentsBatchUpdate documentId
                [UpdateTextStyle {| range_start := s; range_end := e |} ts
                   (join "," fields)]].
      split; [|split].
      * pose proof (executeBatchUpdate_network docs documentId
                      [UpdateTextStyle {| range_start := s; range_end := e |}
                         ts (join "," fields)] w) as Hn.
        destruct (executeBatchUpdate docs documentId _ w) as [[resp|ex] w'];
          simpl in *; apply Hn; discriminate.
      * constructor; [|constructor]. simpl.
        exists {| range_start := s; range_end := e |}, ts,
          (join "," fields).
        split; [reflexivity|]. simpl. lia.
      * simpl. lia.
    + exists []. simpl. rewrite app_nil_r. repeat split; auto.
    + exists []. simpl. rewrite app_nil_r. repeat split; auto.
Qed.

Lemma tryCatch_rethrow_world {A : Type} (m : M A)
  (handler : Exception -> M A) (w : World) :
  (forall e w', snd (handler e w') = w') ->
  snd (tryCatch m handler w) = snd (m w).
Proof.
  intros Hh. unfold tryCatch. destruct (m w) as [[a|e] w']; simpl;
    [reflexivity|apply Hh].
Qed.

(** ** X18: the ranges that [applyTextStyle] styles *)

(** X18 ([applyTextStyle] tool): whatever the target, the style, the
    document and the answers of the remote service, the tool makes at
    most two calls, a fetch when the target is a text and then at most
    one batch update; a batch update that it submits holds one
    text-style request, over a range whose end is above its start. *)
Theorem applyTextStyle_styles_non_empty_ranges_only :
  forall (fuel : nat) (docs : Docs) (documentId : string)
         (target : TextTarget) (style : TextStyleArgs) (w : World),
  exists calls,
    network (snd (applyTextStyle fuel docs documentId target style w))
    = network w ++ calls
    /\ Forall stylesNonEmptyRange calls
    /\ (List.length calls <= 2)%nat.
Proof.
  intros fuel docs documentId target style w. unfold applyTextStyle.
  destruct target as [s e|textToFind instance];
    (rewrite tryCatch_rethrow_world;
     [|intros e' w'; destruct (isUserError e'); reflexivity]).
  - destruct (styling_calls docs documentId s e style w)
      as (calls & Hn & Hf & Hl).
    exists calls. split; [exact Hn|]. split; [exact Hf|lia].
  - unfold awaitRun at 1. unfold bind at 1. unfold awaitRun at 1.
    unfold bind at 1.
    pose proof (findTextRange_network fuel docs documentId textToFind
                  instance w) as Hfetch.
    destruct (findTextRange fuel docs documentId textToFind instance w)
      as [[[[r|]|]|ex] w1]; simpl in Hfetch.
    + destruct (styling_calls docs documentId (range_start r) (range_end r)
                  style w1) as (calls & Hn & Hf & Hl).
      exists (DocumentsGet documentId :: calls). split; [|split].
      * cbn [ret]. etransitivity; [exact Hn|].
        rewrite Hfetch, <- app_assoc. reflexivity.
      * constructor; [exact I|exact Hf].
      * simpl. lia.
    + exists [DocumentsGet documentId]. split; [exact Hfetch|].
      split; [repeat constructor|simpl; lia].
    + exists [DocumentsGet documentId]. split; [exact Hfetch|].
      split; [repeat constructor|simpl; lia].
    + exists [DocumentsGet documentId]. split; [exact Hfetch|].
      split; [repeat constructor|simpl; lia].
Qed.

(** A hit that lies within one run resolves to a range of the length of
    the text. *)
Lemma findTextRangeIn_hit_in_one_run (fuel : nat)
  (c : list StructuralElement) (textToFind : string) (instance h : Z)
  (i : nat) (si : Segment) :
  0 < JS.len textToFind ->
  1 <= instance ->
  nth_error
    (occurrences (fullText (collectTextFromContent c emptyIndex)) textToFind)
    (Z.to_nat (instance - 1)) = Some h ->
  nth_error
    (sortSegments (segments (collectTextFromContent c emptyIndex))) i
  = Some si ->
  reconStart (sortSegments (segments (collectTextFromContent c emptyIndex))) i
  <= h ->
  h + JS.len textToFind
  <= reconStart
       (sortSegments (segments (collectTextFromContent c emptyIndex))) i
     + JS.len (text si) ->
  0 <= start si ->
  (Z.to_nat instance <= fuel)%nat ->
  findTextRangeIn fuel (Some c) textToFind instance
  = Done (Some
      {| range_start :=
           start si
           + (h - reconStart
                    (sortSegments
                       (segments (collectTextFromContent c emptyIndex))) i);
         range_end :=
           start si
           + (h - reconStart
                    (sortSegments
                       (segments (collectTextFromContent c emptyIndex))) i)
           + JS.len textToFind |}).
Proof.
  intros Hpos Hinst Hocc Hi Hlo Hhi Hsi Hfuel.
  destruct (nth_error_split _ _ Hocc) as (pre & post & Hsplit & Hlen).
  unfold findTextRangeIn.
  apply (searchLoop_reaches _ _ textToFind instance pre fuel O 0 h post);
    try lia.
  - exact Hsplit.
  - unfold mapHit.
    rewrite (mapSegments_spec _ 0 h (h + JS.len textToFind) i i si si
               ltac:(lia) Hi ltac:(lia) Hi ltac:(lia) Hsi).
    zcases. rewrite !Z.add_0_l. f_equal. f_equal. lia.
Qed.

(** The compiled request for an intent that sets a property and whose
    colours are accepted by [validateHexColor]. *)
Lemma buildUpdateTextStyleRequest_compiles (startIndex endIndex : Z)
  (style : TextStyleArgs) :
  (forall hex, foregroundColor style = Some hex ->
               validateHexColor hex = true) ->
  (forall hex, backgroundColor style = Some hex ->
               validateHexColor hex = true) ->
  setProperties style <> [] ->
  exists ts,
    buildUpdateTextStyleRequest startIndex endIndex style
    = Ok (Some
        (UpdateTextStyle
           {| range_start := startIndex; range_end := endIndex |} ts
           (join "," (setProperties style)),
         setProperties style)).
Proof.
  intros Hf Hb Hset. unfold buildUpdateTextStyleRequest, andThen.
  destruct (collectTextStyle style) as [b|e] eqn:E.
  - rewrite (collectTextStyle_fields _ _ E).
    destruct (JS.alen (setProperties style) =? 0) eqn:E0.
    + apply Z.eqb_eq, alen_zero_iff in E0. contradiction.
    + now exists (textStyle b).
  - exfalso. destruct (collectTextStyle_throws _ _ E) as (hex & Hhex & Hno).
    assert (Hv : validateHexColor hex = true)
      by (destruct Hhex; [now apply Hf|now apply Hb]).
    destruct (hexToRgbColor_valid hex Hv) as (r & g & bl & _ & Hsome).
    congruence.
Qed.

(** ** X19: styling a text that is found *)

(** X19 ([applyTextStyle] tool over [findTextRange],
    [buildUpdateTextStyleRequest] and [executeBatchUpdate]): when the
    instance of the text asked for lies within one run of the document,
    at offset [h] of the reconstructed text, and the intent sets a
    property and has valid colours, the tool makes two calls: the fetch,
    and one batch update that holds one text-style request, over the
    range of the length of the text that starts at the document index
    of the hit, with the mask of the properties set; when the service
    accepts it, the answer of the tool names the properties and that
    range. *)
Theorem applyTextStyle_styles_the_text_found
  (fuel : nat) (docs : Docs) (documentId : string) (w : World)
  (c : list StructuralElement) (textToFind : string) (instance h : Z)
  (i : nat) (si : Segment) (style : TextStyleArgs) :
  documents_get docs documentId = inr (Some c) ->
  0 < JS.len textToFind ->
  1 <= instance ->
  nth_error
    (occurrences (fullText (collectTextFromContent c emptyIndex)) textToFind)
    (Z.to_nat (instance - 1)) = Some h ->
  nth_error
    (sortSegments (segments (collectTextFromContent c emptyIndex))) i
  = Some si ->
  reconStart (sortSegments (segments (collectTextFromContent c emptyIndex))) i
  <= h ->
  h + JS.len textToFind
  <= reconStart
       (sortSegments (segments (collectTextFromContent c emptyIndex))) i
     + JS.len (text si) ->
  0 <= start si ->
  (Z.to_nat instance <= fuel)%nat ->
  (forall hex, foregroundColor style = Some hex ->
               validateHexColor hex = true) ->
  (forall hex, backgroundColor style = Some hex ->
               validateHexColor hex = true) ->
  setProperties style <> [] ->
  exists s ts,
    s = start si
        + (h - reconStart
                 (sortSegments
                    (segments (collectTextFromContent c emptyIndex))) i)
    /\ network (snd (applyTextStyle fuel docs documentId
                       (TargetText textToFind instance) style w))
       = network w
         ++ [ DocumentsGet documentId;
              DocumentsBatchUpdate documentId
                [ UpdateTextStyle
                    {| range_start := s;
                       range_end := s + JS.len textToFind |} ts
                    (join "," (setProperties style)) ] ]
    /\ forall resp,
         documents_batchUpdate docs documentId
           [ UpdateTextStyle
               {| range_start := s; range_end := s + JS.len textToFind |} ts
               (join "," (setProperties style)) ] = inr resp ->
         fst (applyTextStyle fuel docs documentId
                (TargetText textToFind instance) style w)
         = Ok (Done (strcat
             ["Successfully applied text style (";
              join ", " (setProperties style); ") to range ";
              numberToString s; "-";
              numberToString (s + JS.len textToFind); "."])).
Proof.
  intros Hget Hpos Hinst Hocc Hi Hlo Hhi Hsi Hfuel Hfg Hbg Hset.
  pose proof (findTextRangeIn_hit_in_one_run fuel c textToFind instance h i
                si Hpos Hinst Hocc Hi Hlo Hhi Hsi Hfuel) as Hfind.
  set (s := start si
            + (h - reconStart
                     (sortSegments
                        (segments (collectTextFromContent c emptyIndex))) i))
    in *.
  destruct (buildUpdateTextStyleRequest_compiles s (s + JS.len textToFind)
              style Hfg Hbg Hset) as [ts Hbuild].
  exists s, ts. split; [reflexivity|].
  assert (Hle : (s + JS.len textToFind <=? s) = false)
    by (apply Z.leb_gt; lia).
  assert (Hne : [UpdateTextStyle
                   {| range_start := s; range_end := s + JS.len textToFind |}
                   ts (join "," (setProperties style))] <> [])
    by discriminate.
  split.
  - unfold applyTextStyle.
    rewrite tryCatch_rethrow_world
      by (intros e' w'; destruct (isUserError e'); reflexivity).
    unfold awaitRun, bind, lift.
    rewrite (findTextRange_fetched fuel docs documentId textToFind instance
               w c Hget), Hfind.
    cbn [ret range_start range_end]. rewrite Hle, Hbuild.
    pose proof (executeBatchUpdate_network docs documentId _
                  {| network := network w ++ [DocumentsGet documentId];
                     console := console w |} Hne) as Hn.
    destruct (executeBatchUpdate docs documentId _ _) as [[resp|ex] w2];
      simpl in Hn |- *; rewrite Hn; cbn [network];
      now rewrite <- app_assoc.
  - intros resp Hresp. unfold applyTextStyle, tryCatch.
    unfold awaitRun, bind, lift.
    rewrite (findTextRange_fetched fuel docs documentId textToFind instance
               w c Hget), Hfind.
    cbn [ret range_start range_end]. rewrite Hle, Hbuild.
    pose proof (executeBatchUpdate_accepted docs documentId _
                  {| network := network w ++ [DocumentsGet documentId];
                     console := console w |} resp Hne Hresp) as Hok.
    destruct (executeBatchUpdate docs documentId _ _) as [[resp'|ex] w2];
      simpl in Hok; [reflexivity|discriminate Hok].
Qed.

Lemma applyTextStyle_styles_the_text_found_witness :
  exists s ts,
    s = 1 + (13 - 0)
    /\ network (snd (applyTextStyle 2 (docsOf scenarioA) "doc"
                       (TargetText "Hello" 2) boldOnly initialWorld))
       = [ DocumentsGet "doc";
           DocumentsBatchUpdate "doc"
             [ UpdateTextStyle {| range_start := s; range_end := s + 5 |} ts
                 "bold" ] ]
    /\ forall resp,
         documents_batchUpdate (docsOf scenarioA) "doc"
           [ UpdateTextStyle {| range_start := s; range_end := s + 5 |} ts
               "bold" ] = inr resp ->
         fst (applyTextStyle 2 (docsOf scenarioA) "doc"
                (TargetText "Hello" 2) boldOnly initialWorld)
         = Ok (Done (strcat
             ["Successfully applied text style ("; "bold"; ") to range ";
              numberToString s; "-"; numberToString (s + 5); "."])).
Proof.
  refine (applyTextStyle_styles_the_text_found 2%nat (docsOf scenarioA) "doc"
            initialWorld (JS.orEmpty scenarioA) "Hello" 2 13 O
            {| text := "Hello world. Hello again."; start := 1; end_ := 26 |}
            boldOnly eq_refl _ _ eq_refl eq_refl _ _ _ _ _ _ _).
  - reflexivity.
  - lia.
  - vm_compute. discriminate.
  - vm_compute. discriminate.
  - simpl. lia.
  - simpl. lia.
  - intros hex H. discriminate H.
  - intros hex H. discriminate H.
  - discriminate.
Defined.

(** An intent that sets no property is the empty intent. *)
Lemma setProperties_nil (style : TextStyleArgs) :
  setProperties style = [] -> style = noStyle.
Proof.
  destruct style as [b i u s fs ff fg bg l].
  unfold setProperties, allProperties. intros H.
  destruct b; [discriminate H|]. destruct i; [discriminate H|].
  destruct u; [discriminate H|]. destruct s; [discriminate H|].
  destruct fs; [discriminate H|]. destruct ff; [discriminate H|].
  destruct fg; [discriminate H|]. destruct bg; [discriminate H|].
  destruct l; [discriminate H|]. reflexivity.
Qed.

(** ** X20: what [applyTextStyle] refuses, and what it then sends *)

(** X20 ([applyTextStyle] tool): a range whose end is not above its
    start is refused with a [UserError] before any call is made; a text
    that is not empty and occurs fewer times than the instance asked for
    is refused with a [UserError] after the fetch, which is then the only
    call of the network; and for a range that is accepted and an intent
    that sets no property, the tool answers that there is nothing to
    apply, without any call. *)
Theorem applyTextStyle_refusals :
  forall (fuel : nat) (docs : Docs) (documentId : string) (w : World)
         (style : TextStyleArgs),
    (forall s e,
        e <= s ->
        applyTextStyle fuel docs documentId (TargetRange s e) style w
        = (Throw (UserError
             "End index must be greater than start index for styling."), w))
    /\ (forall c textToFind instance,
           documents_get docs documentId = inr (Some c) ->
           textToFind <> "" ->
           Z.of_nat (List.length
                       (occurrences
                          (fullText (collectTextFromContent c emptyIndex))
                          textToFind)) < instance ->
           (String.length (fullText (collectTextFromContent c emptyIndex)) + 1
            < fuel)%nat ->
           fst (applyTextStyle fuel docs documentId
                  (TargetText textToFind instance) style w)
           = Throw (UserError (strcat
               ["Could not find instance "; numberToString instance;
                " of text "; dquote; textToFind; dquote; "."]))
           /\ network (snd (applyTextStyle fuel docs documentId
                              (TargetText textToFind instance) style w))
              = network w ++ [DocumentsGet documentId])
    /\ (forall s e,
           s < e ->
           setProperties style = [] ->
           applyTextStyle fuel docs documentId (TargetRange s e) style w
           = (Ok (Done "No valid text styling options were provided."), w)).
Proof.
  intros fuel docs documentId w style. split; [|split].
  - intros s e Hle. unfold applyTextStyle, tryCatch, awaitRun, bind, ret.
    apply Z.leb_le in Hle. rewrite Hle. reflexivity.
  - intros c textToFind instance Hget Hne Hcount Hfuel.
    unfold applyTextStyle, tryCatch, awaitRun, bind.
    rewrite (findTextRange_fetched fuel docs documentId textToFind instance
               w c Hget).
    rewrite (findTextRange_fewer_occurrences fuel c textToFind instance Hne
               Hcount Hfuel).
    split; reflexivity.
  - intros s e Hlt Hnil. apply setProperties_nil in Hnil. subst style.
    unfold applyTextStyle, tryCatch, awaitRun, bind, ret, lift.
    apply Z.leb_gt in Hlt. rewrite Hlt. reflexivity.
Qed.

Lemma applyTextStyle_refusals_witness :
  applyTextStyle 30 (docsOf scenarioA) "doc" (TargetRange 5 5) boldOnly
    initialWorld
  = (Throw (UserError
       "End index must be greater than start index for styling."),
     initialWorld)
  /\ (fst (applyTextStyle 30 (docsOf scenarioA) "doc"
              (TargetText "Hello" 3) boldOnly initialWorld)
      = Throw (UserError (strcat
          ["Could not find instance 3 of text "; dquote; "Hello"; dquote;
           "."]))
      /\ network (snd (applyTextStyle 30 (docsOf scenarioA) "doc"
                         (TargetText "Hello" 3) boldOnly initialWorld))
         = [DocumentsGet "doc"]).
Proof.
  split.
  - apply (proj1 (applyTextStyle_refusals 30 (docsOf scenarioA) "doc"
                    initialWorld boldOnly) 5 5). lia.
  - refine (proj1 (proj2 (applyTextStyle_refusals 30 (docsOf scenarioA)
                            "doc" initialWorld boldOnly))
              (JS.orEmpty scenarioA) "Hello" 3 eq_refl _ _ _).
    + discriminate.
    + vm_compute. reflexivity.
    + vm_compute. lia.
Defined.

(** ** Escaping for a Drive query *)

(** What the two passes of [escapeDriveQuery] make of one character. *)
Lemma escapeDriveQuery_cons (x : ascii) (s : string) :
  escapeDriveQuery (String x s)
  = if Ascii.eqb x backslash
    then String backslash (String backslash (escapeDriveQuery s))
    else if Ascii.eqb x quote
         then String backslash (String quote (escapeDriveQuery s))
         else String x (escapeDriveQuery s).
Proof.
  unfold escapeDriveQuery. cbn [replaceAll].
  destruct (Ascii.eqb x backslash) eqn:Eb.
  - cbn [append replaceAll].
    change (Ascii.eqb backslash quote) with false. cbn iota. reflexivity.
  - cbn [replaceAll]. destruct (Ascii.eqb x quote); reflexivity.
Qed.

(** ** X21: [escapeDriveQuery] can be read back, and leaves no bare quote *)

(** X21 ([escapeDriveQuery]): the escaped text reads back as the input,
    a backslash giving the character after it, so that two inputs are
    never escaped to the same text; and in the escaped text every single
    quote and every backslash is either a backslash that opens a pair or
    the second character of such a pair: no quote is left that would end
    a quoted literal. *)
Theorem escapeDriveQuery_reads_back_and_is_well_escaped :
  forall input : string,
    unescape (escapeDriveQuery input) = input
    /\ wellEscaped (escapeDriveQuery input)
    /\ (forall other,
           escapeDriveQuery other = escapeDriveQuery input ->
           other = input).
Proof.
  assert (Hback : forall s, unescape (escapeDriveQuery s) = s).
  { induction s as [|x s IH]; [reflexivity|].
    rewrite escapeDriveQuery_cons.
    destruct (Ascii.eqb x backslash) eqn:Eb.
    - apply Ascii.eqb_eq in Eb. subst x. cbn [unescape].
      rewrite Ascii.eqb_refl. now rewrite IH.
    - destruct (Ascii.eqb x quote) eqn:Eq.
      + apply Ascii.eqb_eq in Eq. subst x. cbn [unescape].
        rewrite Ascii.eqb_refl. now rewrite IH.
      + cbn [unescape]. rewrite Eb. now rewrite IH. }
  intros input. split; [apply Hback|]. split.
  - induction input as [|x s IH]; [constructor|].
    rewrite escapeDriveQuery_cons.
    destruct (Ascii.eqb x backslash) eqn:Eb.
    + now apply escaped_pair.
    + destruct (Ascii.eqb x quote) eqn:Eq.
      * now apply escaped_pair.
      * apply escaped_plain; [| |exact IH].
        -- intros ->. now rewrite Ascii.eqb_refl in Eb.
        -- intros ->. now rewrite Ascii.eqb_refl in Eq.
  - intros other H. rewrite <- (Hback other), H. apply Hback.
Qed.

(** ** Image insertion *)

Lemma truthyNumber_nonzero (q : Q) :
  JS.truthyNumber q = true <-> ~ (q == 0)%Q.
Proof.
  unfold JS.truthyNumber. rewrite negb_true_iff.
  split.
  - intros H Hq. apply Qeq_bool_iff in Hq. congruence.
  - intros H. destruct (Qeq_bool q 0) eqn:E; [|reflexivity].
    apply Qeq_bool_iff in E. contradiction.
Qed.

(** ** X22: the request of an image that is accepted *)

(** X22 ([insertInlineImage]): for an image URL that passes the checks,
    one call is made, a batch update with one image request that carries
    the index and the text of the URL as it was given.  The size is sent
    only when both the width and the height are given and neither is
    zero, as points; with one of them missing or zero no size is sent,
    and the other one is dropped. *)
Theorem insertInlineImage_request_of_an_accepted_url
  (newURL : string -> option URL) (docs : Docs)
  (documentId imageUrl : string) (index : Z) (width height : option Q)
  (w : World) (u : URL) :
  validateImageUrl newURL imageUrl = Ok u ->
  exists size,
    network (snd (insertInlineImage newURL docs documentId imageUrl index
                    width height w))
    = network w
      ++ [DocumentsBatchUpdate documentId
            [InsertInlineImage index imageUrl size]]
    /\ (forall wv hv,
           width = Some wv -> height = Some hv ->
           ~ (wv == 0)%Q -> ~ (hv == 0)%Q ->
           size = Some {| os_height := points hv; os_width := points wv |})
    /\ (width = None \/ height = None
        \/ (exists wv, width = Some wv /\ (wv == 0)%Q)
        \/ (exists hv, height = Some hv /\ (hv == 0)%Q) ->
        size = None).
Proof.
  intros Hok. exists (objectSizeOf width height). split; [|split].
  - unfold insertInlineImage, bind, lift. rewrite Hok.
    apply executeBatchUpdate_network. discriminate.
  - intros wv hv -> -> Hw Hh. unfold objectSizeOf.
    apply truthyNumber_nonzero in Hw, Hh. now rewrite Hw, Hh.
  - intros H. unfold objectSizeOf.
    destruct width as [wv|]; [|reflexivity].
    destruct height as [hv|]; [|reflexivity].
    destruct (JS.truthyNumber wv) eqn:Ew; [|reflexivity].
    destruct (JS.truthyNumber hv) eqn:Eh; [|reflexivity].
    apply truthyNumber_nonzero in Ew, Eh.
    destruct H as [H|[H|[(wv' & [= <-] & H)|(hv' & [= <-] & H)]]];
      try discriminate; contradiction.
Qed.

Lemma insertInlineImage_request_witness :
  exists size,
    network (snd (insertInlineImage toyURL acceptingDocs "doc"
                    "https://example.com/logo.png" 5 (Some (100 # 1)) None
                    initialWorld))
    = [DocumentsBatchUpdate "doc"
         [InsertInlineImage 5 "https://example.com/logo.png" size]]
    /\ size = None.
Proof.
  destruct (insertInlineImage_request_of_an_accepted_url toyURL acceptingDocs
              "doc" "https://example.com/logo.png" 5 (Some (100 # 1)) None
              initialWorld
              {| protocol := "https:"; hostname := "example.com" |} eq_refl)
    as (size & Hn & _ & Hnone).
  exists size. split; [exact Hn|]. apply Hnone. right. now left.
Defined.

(** ** The [appendToGoogleDoc] tool *)

Lemma arrayGet_last {A : Type} (pre : list A) (x : A) :
  JS.arrayGet (pre ++ [x]) (JS.alen (pre ++ [x]) - 1) = Some x.
Proof.
  unfold JS.arrayGet, JS.alen. rewrite length_app. cbn [List.length].
  destruct (_ <? 0) eqn:E; [apply Z.ltb_lt in E; lia|].
  replace (Z.to_nat (Z.of_nat (List.length pre + 1) - 1))
    with (List.length pre) by lia.
  rewrite nth_error_app2 by lia. now rewrite Nat.sub_diag.
Qed.

(** The index of the insertion, in the words of the tool's description:
    the end of the document is the end of its last element. *)
Lemma appendIndex_last (pre : list StructuralElement)
  (lastElement : StructuralElement) (e : Z) :
  endIndex lastElement = Some e -> e <> 0 ->
  appendIndex (Some (pre ++ [lastElement])) = e - 1.
Proof.
  intros He Hnz. unfold appendIndex. rewrite arrayGet_last, He.
  destruct (Z.eqb_spec e 0); [contradiction|reflexivity].
Qed.

Lemma append_nonempty_r (a b : string) :
  b <> "" -> JS.truthyString (a ++ b) = true.
Proof.
  intros Hb. unfold JS.truthyString.
  destruct (String.eqb_spec (a ++ b) "") as [E|E]; [|reflexivity].
  destruct a; simpl in E; [contradiction|discriminate].
Qed.

(** ** X23: where [appendToGoogleDoc] inserts *)

(** X23 ([appendToGoogleDoc] tool): for a text that is not empty, the
    tool makes two calls, the fetch and a batch update with one
    insertion.  When the last element of the body ends at [e], the text
    goes in at [e - 1], before the line feed that ends the body, and a
    line feed is put in front of it exactly when that was asked for and
    [e - 1] is above 1, whatever the text of the document; the answer
    names the document when the service accepts the batch; and a
    failure of the tool is a [UserError]. *)
Theorem appendToGoogleDoc_inserts_before_the_end
  (docs : Docs) (documentId textToAppend : string)
  (addNewlineIfNeeded : bool) (w : World)
  (pre : list StructuralElement) (lastElement : StructuralElement) (e : Z) :
  documents_get docs documentId = inr (Some (pre ++ [lastElement])) ->
  endIndex lastElement = Some e ->
  e <> 0 ->
  textToAppend <> "" ->
  network (snd (appendToGoogleDoc docs documentId textToAppend
                  addNewlineIfNeeded w))
  = network w
    ++ [ DocumentsGet documentId;
         DocumentsBatchUpdate documentId
           [ InsertText (e - 1)
               ((if addNewlineIfNeeded && (e - 1 >? 1)
                 then newline else "") ++ textToAppend)%string ] ]
  /\ (forall resp,
         documents_batchUpdate docs documentId
           [ InsertText (e - 1)
               ((if addNewlineIfNeeded && (e - 1 >? 1)
                 then newline else "") ++ textToAppend)%string ] = inr resp ->
         fst (appendToGoogleDoc docs documentId textToAppend
                addNewlineIfNeeded w)
         = Ok (strcat ["Successfully appended text to document ";
                       documentId; "."]))
  /\ (forall ex,
         fst (appendToGoogleDoc docs documentId textToAppend
                addNewlineIfNeeded w) = Throw ex ->
         isUserError ex = true).
Proof.
  intros Hget He Hnz Htext.
  pose proof (appendIndex_last pre lastElement e He Hnz) as Hidx.
  set (textToInsert :=
         ((if addNewlineIfNeeded && (e - 1 >? 1) then newline else "")
          ++ textToAppend)%string).
  assert (Htruthy : JS.truthyString textToInsert = true)
    by now apply append_nonempty_r.
  assert (Hne : [InsertText (e - 1) textToInsert] <> []) by discriminate.
  split; [|split].
  - unfold appendToGoogleDoc.
    rewrite tryCatch_rethrow_world
      by (intros e' w'; destruct (isUserError e'); reflexivity).
    unfold bind, documentsGet, call. rewrite Hget, Hidx. fold textToInsert.
    rewrite Htruthy. cbn [negb].
    pose proof (executeBatchUpdate_network docs documentId _
                  {| network := network w ++ [DocumentsGet documentId];
                     console := console w |} Hne) as Hn.
    destruct (executeBatchUpdate docs documentId _ _) as [[resp|ex] w2];
      simpl in Hn |- *; rewrite Hn; cbn [network];
      now rewrite <- app_assoc.
  - intros resp Hresp. unfold appendToGoogleDoc, tryCatch.
    unfold bind, documentsGet, call. rewrite Hget, Hidx. fold textToInsert.
    rewrite Htruthy. cbn [negb].
    pose proof (executeBatchUpdate_accepted docs documentId _
                  {| network := network w ++ [DocumentsGet documentId];
                     console := console w |} resp Hne Hresp) as Hok.
    destruct (executeBatchUpdate docs documentId _ _) as [[resp'|ex] w2];
      simpl in Hok; [reflexivity|discriminate Hok].
  - intros ex. unfold appendToGoogleDoc.
    apply (tryCatch_throws _ _ (fun e => isUserError e = true)).
    intros e' w' e''. apply wrap_as_user_error.
Qed.

Lemma appendToGoogleDoc_witness :
  network (snd (appendToGoogleDoc (docsOf scenarioA) "doc" "Bye." true
                  initialWorld))
  = [ DocumentsGet "doc";
      DocumentsBatchUpdate "doc"
        [InsertText 25 (newline ++ "Bye.")%string] ].
Proof.
  exact (proj1 (appendToGoogleDoc_inserts_before_the_end (docsOf scenarioA)
                  "doc" "Bye." true initialWorld []
                  (para 1 26 [run "Hello world. Hello again." 1 26]) 26
                  eq_refl eq_refl ltac:(discriminate) ltac:(discriminate))).
Defined.

(** ** X24: [appendToGoogleDoc] on a document without an end to read *)

(** X24 ([appendToGoogleDoc] tool): when the body is missing, has no
    element, or its last element has no end index or the end index 0,
    the text is inserted at index 1 as it is: no line feed is put in
    front of it even when one was asked for. *)
Theorem appendToGoogleDoc_without_an_end_index
  (docs : Docs) (documentId textToAppend : string)
  (addNewlineIfNeeded : bool) (w : World) (body : Body) :
  documents_get docs documentId = inr body ->
  (body = None \/ body = Some []
   \/ exists pre lastElement,
        body = Some (pre ++ [lastElement])
        /\ (endIndex lastElement = None
            \/ endIndex lastElement = Some 0)) ->
  textToAppend <> "" ->
  network (snd (appendToGoogleDoc docs documentId textToAppend
                  addNewlineIfNeeded w))
  = network w
    ++ [ DocumentsGet documentId;
         DocumentsBatchUpdate documentId [InsertText 1 textToAppend] ].
Proof.
  intros Hget Hbody Htext.
  assert (Hidx : appendIndex body = 1).
  { destruct Hbody as [->|[->|(pre & lastElement & -> & Hend)]];
      try reflexivity.
    unfold appendIndex. rewrite arrayGet_last.
    destruct Hend as [->| ->]; reflexivity. }
  assert (Htruthy : JS.truthyString textToAppend = true)
    by (apply (append_nonempty_r "" textToAppend Htext)).
  assert (Hne : [InsertText 1 textToAppend] <> []) by discriminate.
  unfold appendToGoogleDoc.
  rewrite tryCatch_rethrow_world
    by (intros e' w'; destruct (isUserError e'); reflexivity).
  unfold bind, documentsGet, call. rewrite Hget, Hidx.
  rewrite andb_false_r. cbn [append]. rewrite Htruthy. cbn [negb].
  pose proof (executeBatchUpdate_network docs documentId _
                {| network := network w ++ [DocumentsGet documentId];
                   console := console w |} Hne) as Hn.
  destruct (executeBatchUpdate docs documentId _ _) as [[resp|ex] w2];
    simpl in Hn |- *; rewrite Hn; cbn [network];
    now rewrite <- app_assoc.
Qed.

Lemma appendToGoogleDoc_without_an_end_index_witness :
  network (snd (appendToGoogleDoc acceptingDocs "doc" "Bye." true
                  initialWorld))
  = [DocumentsGet "doc"; DocumentsBatchUpdate "doc" [InsertText 1 "Bye."]].
Proof.
  exact (appendToGoogleDoc_without_an_end_index acceptingDocs "doc" "Bye."
           true initialWorld None eq_refl (or_introl eq_refl)
           ltac:(discriminate)).
Defined.

(** ** The style that the text-style compiler writes *)

(** ** X25: the compiled style carries the values of the intent *)

(** X25 ([buildUpdateTextStyleRequest]): in a request that is compiled,
    every property of the style is the one of the intent: the four flags
    and the font family and the link as they are, the font size as a
    number of points, a colour as [hexToRgbColor] converts it; a
    property that the intent leaves out is left out of the style. *)
Theorem buildUpdateTextStyleRequest_writes_the_intent
  (startIndex endIndex : Z) (style : TextStyleArgs) (range : Range)
  (ts : TextStyle) (mask : string) (fields : list string) :
  buildUpdateTextStyleRequest startIndex endIndex style
  = Ok (Some (UpdateTextStyle range ts mask, fields)) ->
  ts_bold ts = bold style
  /\ ts_italic ts = italic style
  /\ ts_underline ts = underline style
  /\ ts_strikethrough ts = strikethrough style
  /\ ts_fontSize ts = option_map points (fontSize style)
  /\ ts_weightedFontFamily ts = fontFamily style
  /\ ts_foregroundColor ts
     = match foregroundColor style with
       | Some hex => hexToRgbColor hex
       | None => None
       end
  /\ ts_backgroundColor ts
     = match backgroundColor style with
       | Some hex => hexToRgbColor hex
       | None => None
       end
  /\ ts_link ts = linkUrl style.
Proof.
  destruct style as [b i u s fs ff fg bg l].
  unfold buildUpdateTextStyleRequest, collectTextStyle, andThen, setColor.
  cbn [bold italic underline strikethrough fontSize fontFamily
       foregroundColor backgroundColor linkUrl].
  destruct fg as [fg|]; [destruct (hexToRgbColor fg) as [cf|]|];
    try discriminate;
    (destruct bg as [bg|]; [destruct (hexToRgbColor bg) as [cb|]|];
     try discriminate);
    destruct b, i, u, s, fs, ff, l; cbn; intros H;
    try discriminate H; injection H as _ <- _ _;
    repeat split; reflexivity.
Qed.

Lemma buildUpdateTextStyleRequest_writes_the_intent_witness :
  ts_bold (with_bold true emptyTextStyle) = Some true
  /\ ts_fontSize (with_bold true emptyTextStyle) = None.
Proof.
  pose proof (buildUpdateTextStyleRequest_writes_the_intent 1 5 boldOnly
                {| range_start := 1; range_end := 5 |}
                (with_bold true emptyTextStyle) "bold" ["bold"] eq_refl)
    as (H1 & _ & _ & _ & H5 & _).
  split; [exact H1|exact H5].
Defined.
